(** * I2E invoice extraction engine (shared/pdf-extractor.js)

    A shallow embedding of the text-extraction pipeline of the I2E invoice
    processor, followed by the properties of the extraction engine that
    have been checked against it.

    Conventions of the embedding.
    - JavaScript strings are [string]; the characters are the 7-bit ASCII
      ones ([toLowerCase], [\s], [\w] and [\d] are modelled on that range).
    - JavaScript numbers are IEEE-754 binary64 values, [spec_float] at
      precision 53 and maximal exponent 1024; integers that only serve as
      indices or counters are [nat] or [Z].
    - [null] is [None] where a function returns "a value or null", and
      [VNull] inside records; records (object literals built with the
      spread syntax) are finite maps from field names to values.
    - regular expressions are kept as syntax trees, interpreted by a
      backtracking matcher that follows the ECMAScript matching rules. *)

From Stdlib Require Import ZArith NArith Ascii String Bool List Lia.
From Stdlib Require Import Floats.SpecFloat.
From stdpp Require Import base option list gmap strings.

Local Open Scope Z_scope.

(** ** Built-ins of the host language: strings *)

Module Js.

Definition code (c : ascii) : N := N_of_ascii c.

Definition in_range (lo hi : ascii) (c : ascii) : bool :=
  (code lo <=? code c)%N && (code c <=? code hi)%N.

Definition is_digit (c : ascii) : bool := in_range "0" "9" c.
Definition is_upper (c : ascii) : bool := in_range "A" "Z" c.
Definition is_lower (c : ascii) : bool := in_range "a" "z" c.

(** [\w] *)
Definition is_word (c : ascii) : bool :=
  is_digit c || is_upper c || is_lower c || Ascii.eqb c "_".

(** [\s], and the characters removed by [trim] *)
Definition is_space (c : ascii) : bool :=
  match code c with
  | 9%N | 10%N | 11%N | 12%N | 13%N | 32%N => true
  | _ => false
  end.

(** line terminators: the characters [.] does not match *)
Definition is_newline (c : ascii) : bool :=
  match code c with
  | 10%N | 13%N => true
  | _ => false
  end.

Definition lower (c : ascii) : ascii :=
  if is_upper c then ascii_of_N (code c + 32) else c.

Definition upper (c : ascii) : ascii :=
  if is_lower c then ascii_of_N (code c - 32) else c.

Fixpoint smap (f : ascii -> ascii) (s : string) : string :=
  match s with
  | EmptyString => EmptyString
  | String c s' => String (f c) (smap f s')
  end.

Definition toLowerCase (s : string) : string := smap lower s.
Definition toUpperCase (s : string) : string := smap upper s.

Fixpoint startsWith (sub s : string) : bool :=
  match sub, s with
  | EmptyString, _ => true
  | String a sub', String b s' => Ascii.eqb a b && startsWith sub' s'
  | String _ _, EmptyString => false
  end.

(** [s.includes(sub)] *)
Fixpoint includes (sub s : string) : bool :=
  startsWith sub s ||
  match s with
  | EmptyString => false
  | String _ s' => includes sub s'
  end.

(** [s.endsWith(sub)] *)
Fixpoint endsWith (sub s : string) : bool :=
  String.eqb sub s ||
  match s with
  | EmptyString => false
  | String _ s' => endsWith sub s'
  end.

(** [s.indexOf(sub, from)]; [None] is -1.  [i] is the index of the head
    of [s] in the original string. *)
Fixpoint indexOf_at (sub s : string) (from i : nat) : option nat :=
  if (from <=? i)%nat && startsWith sub s then Some i
  else match s with
       | EmptyString => None
       | String _ s' => indexOf_at sub s' from (S i)
       end.

Definition indexOf (sub s : string) (from : nat) : option nat :=
  indexOf_at sub s from 0.

(** [s.lastIndexOf(sub)], -1 when [sub] does not occur *)
Fixpoint lastIndexOf_at (sub s : string) (i last : Z) : Z :=
  let last' := if startsWith sub s then i else last in
  match s with
  | EmptyString => last'
  | String _ s' => lastIndexOf_at sub s' (i + 1) last'
  end.

Definition lastIndexOf (sub s : string) : Z := lastIndexOf_at sub s 0 (-1).

Fixpoint drop (n : nat) (s : string) : string :=
  match n, s with
  | O, _ => s
  | S n', String _ s' => drop n' s'
  | S _, EmptyString => EmptyString
  end.

Fixpoint take (n : nat) (s : string) : string :=
  match n, s with
  | S n', String c s' => String c (take n' s')
  | _, _ => EmptyString
  end.

(** [s.replace(pat, by)] with a string pattern: the first occurrence only *)
Fixpoint replaceFirst (pat by_ s : string) : string :=
  if startsWith pat s then by_ +:+ drop (String.length pat) s
  else match s with
       | EmptyString => EmptyString
       | String c s' => String c (replaceFirst pat by_ s')
       end.

(** [s.replace(/c/g, '')] for a one-character pattern *)
Fixpoint removeAll (c : ascii) (s : string) : string :=
  match s with
  | EmptyString => EmptyString
  | String a s' => if Ascii.eqb a c then removeAll c s' else String a (removeAll c s')
  end.

Fixpoint trimStart (s : string) : string :=
  match s with
  | String c s' => if is_space c then trimStart s' else s
  | EmptyString => EmptyString
  end.

(** drops the trailing white space; the result of the recursive call is
    empty exactly when the rest of the string is blank *)
Fixpoint trimEnd (s : string) : string :=
  match s with
  | EmptyString => EmptyString
  | String c s' =>
      match trimEnd s' with
      | EmptyString => if is_space c then EmptyString else String c EmptyString
      | t => String c t
      end
  end.

Definition trim (s : string) : string := trimEnd (trimStart s).

(** [s.split(sep)] for a separator that is one character of a class: never
    the empty list *)
Fixpoint splitOn (sep : ascii -> bool) (s : string) : list string :=
  match s with
  | EmptyString => [EmptyString]
  | String c s' =>
      if sep c then EmptyString :: splitOn sep s'
      else match splitOn sep s' with
           | [] => [String c EmptyString]
           | w :: ws => String c w :: ws
           end
  end.

(** [s.split('\n')] *)
Definition lines (s : string) : list string := splitOn (Ascii.eqb "010") s.

(** [s.split(/\s+/)]: maximal runs of white space separate the parts; a
    leading or trailing run leaves an empty first or last part. *)
Fixpoint splitSpaces_go (s : string) (in_gap : bool) : list string :=
  match s with
  | EmptyString => [EmptyString]
  | String c s' =>
      if is_space c then
        if in_gap then splitSpaces_go s' true
        else EmptyString :: splitSpaces_go s' true
      else match splitSpaces_go s' false with
           | [] => [String c EmptyString]
           | w :: ws => String c w :: ws
           end
  end.

Definition splitSpaces (s : string) : list string := splitSpaces_go s false.

(** [s.padStart(2, '0')] *)
Definition padStart2 (s : string) : string :=
  match String.length s with
  | 0%nat => "00"
  | 1%nat => "0" +:+ s
  | _ => s
  end.

(** ** Built-ins of the host language: numbers *)

Definition prec : Z := 53.
Definition emax : Z := 1024.

Abbreviation number := spec_float.

Definition NaN : number := S754_nan.
Definition zero : number := S754_zero false.

(** The binary64 value nearest to [m * 10^e] (ties to even), negated when
    [neg]. *)
Definition of_decimal (neg : bool) (m : N) (e : Z) : number :=
  match m with
  | N0 => S754_zero neg
  | Npos p =>
      if 0 <=? e then binary_round prec emax neg (p * Z.to_pos (10 ^ e)) 0
      else SFdiv prec emax (S754_finite neg p 0)
                           (S754_finite false (Z.to_pos (10 ^ (- e))) 0)
  end.

Definition of_nat (n : nat) : number := of_decimal false (N.of_nat n) 0.

Definition neg (x : number) : number := SFopp x.
Definition abs (x : number) : number := SFabs x.
Definition lt (x y : number) : bool := SFltb x y.
Definition gt (x y : number) : bool := SFltb y x.
Definition num_eqb (x y : number) : bool := SFeqb x y.

(** truthiness of a number: [0], [-0] and [NaN] are falsy *)
Definition truthy (x : number) : bool :=
  match x with
  | S754_zero _ | S754_nan => false
  | _ => true
  end.

Definition digit_val (c : ascii) : N := (code c - 48)%N.

Fixpoint span (p : ascii -> bool) (s : string) : string * string :=
  match s with
  | String c s' =>
      if p c then let '(a, b) := span p s' in (String c a, b)
      else (EmptyString, s)
  | EmptyString => (EmptyString, EmptyString)
  end.

Fixpoint digits_val (s : string) (acc : N) : N :=
  match s with
  | EmptyString => acc
  | String c s' => digits_val s' (acc * 10 + digit_val c)%N
  end.

Definition read_sign (s : string) : bool * string :=
  match s with
  | String "-" s' => (true, s')
  | String "+" s' => (false, s')
  | _ => (false, s)
  end.

(** the exponent part [e[+-]digits] of a decimal literal, 0 when absent
    or incomplete *)
Definition read_exponent (s : string) : Z :=
  match s with
  | String c s' =>
      if Ascii.eqb c "e" || Ascii.eqb c "E" then
        let '(sg, s'') := read_sign s' in
        let '(ds, _) := span is_digit s'' in
        match ds with
        | EmptyString => 0
        | _ => let v := Z.of_N (digits_val ds 0) in if sg then - v else v
        end
      else 0
  | EmptyString => 0
  end.

(** [parseFloat(s)]: leading white space is skipped and the longest prefix
    that is a decimal literal is read; [NaN] when there is none. *)
Definition parseFloat (s : string) : number :=
  let '(sg, s1) := read_sign (trimStart s) in
  if startsWith "Infinity" s1 then S754_infinity sg
  else
    let '(ip, s2) := span is_digit s1 in
    let '(fp, s3) :=
      match s2 with
      | String "." s2' => span is_digit s2'
      | _ => (EmptyString, s2)
      end in
    match ip, fp with
    | EmptyString, EmptyString => NaN
    | _, _ =>
        of_decimal sg (digits_val (ip +:+ fp) 0)
                   (read_exponent s3 - Z.of_nat (String.length fp))
    end.

End Js.

(** ** Regular expressions

    The patterns of the extractor are kept as syntax trees.  [run] is the
    backtracking matcher of the language definition: a pattern is matched
    against the text at a cursor and hands every end state, in priority
    order, to a continuation that matches the rest of the pattern. *)

Module Regex.

Inductive re : Type :=
| Eps
| Chr (p : ascii -> bool)                        (* one character of a class *)
| Seq (r1 r2 : re)
| Alt (r1 r2 : re)                               (* r1|r2, r1 tried first *)
| Rep (min : nat) (max : option nat) (greedy : bool) (r : re)
| Grp (i : nat) (r : re)                         (* i-th capturing group *)
| WordB                                          (* \b *)
| Bol (multiline : bool)                         (* ^ *)
| Eol (multiline : bool)                         (* $ *)
| NotAhead (r : re).                             (* (?!r) *)

(** A matcher state: the index of the cursor, the character before it, the
    text from it on, and the spans of the groups captured so far (the most
    recent binding of a group first). *)
Record mstate := MState {
  pos : nat;
  prev : option ascii;
  rest : string;
  caps : list (nat * (nat * nat))
}.

Definition next (s : mstate) : option ascii :=
  match rest s with
  | String c _ => Some c
  | EmptyString => None
  end.

Definition is_word_at (o : option ascii) : bool :=
  match o with
  | Some c => Js.is_word c
  | None => false
  end.

Definition is_newline_at (o : option ascii) : bool :=
  match o with
  | Some c => Js.is_newline c
  | None => false
  end.

Fixpoint groups (r : re) : list nat :=
  match r with
  | Seq r1 r2 | Alt r1 r2 => groups r1 ++ groups r2
  | Rep _ _ _ r1 | NotAhead r1 => groups r1
  | Grp i r1 => i :: groups r1
  | _ => []
  end.

Definition clear_caps (gs : list nat) (s : mstate) : mstate :=
  match gs with
  | [] => s
  | _ => MState (pos s) (prev s) (rest s)
                (filter (fun b => negb (existsb (Nat.eqb (fst b)) gs)) (caps s))
  end.

Definition set_cap (i from : nat) (s : mstate) : mstate :=
  MState (pos s) (prev s) (rest s) ((i, (from, pos s)) :: caps s).

Definition orelse {A} (x : option A) (y : unit -> option A) : option A :=
  match x with
  | Some a => Some a
  | None => y tt
  end.

(** The repetition [r{min,max}] (greedy or lazy) of a pattern whose matcher
    is [m] and whose groups are [gs].  An iteration that consumes nothing
    once [min] is reached is rejected, so [min] plus the length of the
    remaining text bounds the number of iterations: [fuel] is one more. *)
Fixpoint rep_loop (m : (mstate -> option mstate) -> mstate -> option mstate)
    (gs : list nat) (greedy : bool) (k : mstate -> option mstate)
    (fuel min : nat) (max : option nat) (s : mstate) {struct fuel}
  : option mstate :=
  match fuel with
  | O => None
  | S fuel' =>
      match max with
      | Some O => k s
      | _ =>
          let again (_ : unit) :=
            m (fun s' =>
                 if (min =? 0)%nat && (pos s' =? pos s)%nat then None
                 else rep_loop m gs greedy k fuel' (Nat.pred min)
                               (option_map Nat.pred max) s')
              (clear_caps gs s) in
          if (0 <? min)%nat then again tt
          else if greedy then orelse (again tt) (fun _ => k s)
          else orelse (k s) again
      end
  end.

Fixpoint run (r : re) (k : mstate -> option mstate) (s : mstate) {struct r}
  : option mstate :=
  match r with
  | Eps => k s
  | Chr p =>
      match rest s with
      | String c t => if p c then k (MState (S (pos s)) (Some c) t (caps s)) else None
      | EmptyString => None
      end
  | Seq r1 r2 => run r1 (run r2 k) s
  | Alt r1 r2 => orelse (run r1 k s) (fun _ => run r2 k s)
  | Grp i r1 => run r1 (fun s' => k (set_cap i (pos s) s')) s
  | WordB => if xorb (is_word_at (prev s)) (is_word_at (next s)) then k s else None
  | Bol ml =>
      match prev s with
      | None => k s
      | Some c => if ml && Js.is_newline c then k s else None
      end
  | Eol ml =>
      match next s with
      | None => k s
      | Some c => if ml && Js.is_newline c then k s else None
      end
  | NotAhead r1 =>
      match run r1 Some s with
      | Some _ => None
      | None => k s
      end
  | Rep min max greedy r1 =>
      rep_loop (run r1) (groups r1) greedy k
               (S (min + String.length (rest s))) min max s
  end.

(** The outcome of a successful match: where it starts and the state at
    its end. *)
Record found := Found { f_index : nat; f_end : mstate }.

(** [exec] with [lastIndex = 0], and [String.prototype.match] without the
    [g] flag: the leftmost match.  The scan starts at the cursor
    [(i, prev, rest)]. *)
Fixpoint exec_at (r : re) (i : nat) (prev : option ascii) (rest : string)
  : option found :=
  match run r Some (MState i prev rest []) with
  | Some e => Some (Found i e)
  | None =>
      match rest with
      | EmptyString => None
      | String c t => exec_at r (S i) (Some c) t
      end
  end.

Definition exec (r : re) (text : string) : option found :=
  exec_at r 0 None text.

Definition test (r : re) (text : string) : bool :=
  match exec r text with
  | Some _ => true
  | None => false
  end.

Definition substr (from to : nat) (text : string) : string :=
  Js.take (to - from) (Js.drop from text).

(** [m[0]] *)
Definition whole (text : string) (m : found) : string :=
  substr (f_index m) (pos (f_end m)) text.

Fixpoint lookup_cap (i : nat) (cs : list (nat * (nat * nat))) : option (nat * nat) :=
  match cs with
  | [] => None
  | (j, span) :: cs' => if (i =? j)%nat then Some span else lookup_cap i cs'
  end.

(** [m[i]]; [None] stands for [undefined] (the group took no part). *)
Definition group (i : nat) (text : string) (m : found) : option string :=
  match lookup_cap i (caps (f_end m)) with
  | Some (a, b) => Some (substr a b text)
  | None => None
  end.

(** [m[i]] for a group that takes part in every match of its pattern *)
Definition group_str (i : nat) (text : string) (m : found) : string :=
  match group i text m with
  | Some g => g
  | None => EmptyString
  end.

(** [text.match(r)] for a pattern with the [g] flag: the texts of the
    successive matches, each scan resuming where the previous match ended
    (one character further after an empty match); [[]] stands for [null]. *)
Fixpoint matchAll_from (r : re) (fuel : nat) (text : string)
    (i : nat) (prev : option ascii) (rest : string) : list string :=
  match fuel with
  | O => []
  | S fuel' =>
      match exec_at r i prev rest with
      | None => []
      | Some m =>
          let e := f_end m in
          whole text m ::
          (if (pos e =? f_index m)%nat then
             match Regex.rest e with
             | EmptyString => []
             | String c t => matchAll_from r fuel' text (S (pos e)) (Some c) t
             end
           else matchAll_from r fuel' text (pos e) (Regex.prev e) (Regex.rest e))
      end
  end.

Definition matchAll (r : re) (text : string) : list string :=
  matchAll_from r (S (String.length text)) text 0 None text.

(** [text.replace(r, '')] for a pattern without the [g] flag *)
Definition removeFirst (r : re) (text : string) : string :=
  match exec r text with
  | Some m => Js.take (f_index m) text +:+ Js.drop (pos (f_end m)) text
  | None => text
  end.

(** *** Building blocks, named after the concrete syntax *)

Definition lit (c : ascii) : re := Chr (Ascii.eqb c).
(** a letter under the [i] flag *)
Definition liti (c : ascii) : re := Chr (fun x => Ascii.eqb (Js.lower x) (Js.lower c)).

Fixpoint str (s : string) : re :=
  match s with
  | EmptyString => Eps
  | String c EmptyString => lit c
  | String c s' => Seq (lit c) (str s')
  end.

Fixpoint stri (s : string) : re :=
  match s with
  | EmptyString => Eps
  | String c EmptyString => liti c
  | String c s' => Seq (liti c) (stri s')
  end.

Definition mem (c : ascii) (s : string) : bool := Js.includes (String c EmptyString) s.

Definition d : re := Chr Js.is_digit.                       (* \d, [0-9] *)
Definition sp : re := Chr Js.is_space.                      (* \s *)
Definition w : re := Chr Js.is_word.                        (* \w *)
Definition any : re := Chr (fun c => negb (Js.is_newline c)). (* . *)
Definition anything : re := Chr (fun _ => true).            (* [\s\S] *)
Definition AZ : re := Chr Js.is_upper.                      (* [A-Z] *)
Definition AZi : re := Chr (fun c => Js.is_upper c || Js.is_lower c). (* [A-Z] under i *)
Definition AZ09 : re := Chr (fun c => Js.is_upper c || Js.is_digit c). (* [A-Z0-9] *)
Definition AZ09i : re :=
  Chr (fun c => Js.is_upper c || Js.is_lower c || Js.is_digit c).      (* [A-Z0-9] under i *)
Definition sep : re := Chr (fun c => mem c ".,").           (* [.,] *)
Definition dsep : re := Chr (fun c => mem c "./").          (* [./] *)
Definition num : re := Chr (fun c => Js.is_digit c || mem c ".,"). (* [\d.,], [0-9.,] *)

Definition star (r : re) : re := Rep 0 None true r.         (* r* *)
Definition plus (r : re) : re := Rep 1 None true r.         (* r+ *)
Definition opt (r : re) : re := Rep 0 (Some 1%nat) true r.  (* r? *)
Definition starL (r : re) : re := Rep 0 None false r.       (* r*? *)
Definition plusL (r : re) : re := Rep 1 None false r.       (* r+? *)
Definition times (n : nat) (r : re) : re := Rep n (Some n) true r.        (* r{n} *)
Definition range (m n : nat) (r : re) : re := Rep m (Some n) true r.      (* r{m,n} *)
Definition rangeL (m n : nat) (r : re) : re := Rep m (Some n) false r.    (* r{m,n}? *)
Definition atleast (m : nat) (r : re) : re := Rep m None true r.          (* r{m,} *)

Fixpoint seq (rs : list re) : re :=
  match rs with
  | [] => Eps
  | [r] => r
  | r :: rs' => Seq r (seq rs')
  end.

Fixpoint alt (rs : list re) : re :=
  match rs with
  | [] => NotAhead Eps
  | [r] => r
  | r :: rs' => Alt r (alt rs')
  end.

End Regex.

(** ** parseAmount *)

(** [None] is the [null] returned for an empty (falsy) argument. *)
Definition parseAmount (amountStr : string) : option Js.number :=
  match amountStr with
  | EmptyString => None
  | _ =>
      let isNegative := Js.endsWith "-" amountStr in
      let cleanAmount := Js.replaceFirst "-" "" amountStr in
      let cleanAmount :=
        if Js.includes "," cleanAmount
           && (Js.lastIndexOf "." cleanAmount <? Js.lastIndexOf "," cleanAmount)
        then Js.replaceFirst "," "." (Js.removeAll "." cleanAmount)
        else Js.removeAll "," cleanAmount in
      let amount := Js.parseFloat cleanAmount in
      Some (if isNegative then Js.neg amount else amount)
  end.

(** ** Values and records *)

Inductive jsval : Type :=
| VNull
| VBool (b : bool)
| VNum (x : Js.number)
| VStr (s : string).

(** an object literal: its own properties *)
Abbreviation record := (gmap string jsval).

Definition strOrNull (o : option string) : jsval :=
  match o with
  | Some s => VStr s
  | None => VNull
  end.

Definition numOrNull (o : option Js.number) : jsval :=
  match o with
  | Some x => VNum x
  | None => VNull
  end.

(** [{...a, ...b}]: the properties of [b] override those of [a] *)
Definition spread (a b : record) : record := b ∪ a.

(** [x || 0] for a number or [null] *)
Definition orZero (o : option Js.number) : Js.number :=
  match o with
  | Some x => if Js.truthy x then x else Js.zero
  | None => Js.zero
  end.

(** [s || dflt] for a string or [undefined] *)
Definition orStr (o : option string) (dflt : string) : string :=
  match o with
  | Some EmptyString | None => dflt
  | Some s => s
  end.

Definition one : Js.number := Js.of_nat 1.

(** [Array.prototype.sort] with a comparator: a stable sort, [x] staying
    before [y] unless [compare x y > 0]. *)
Section Sort.
Context {A : Type} (compare : A -> A -> Z).

Fixpoint insert_sorted (x : A) (l : list A) : list A :=
  match l with
  | [] => [x]
  | y :: l' => if compare x y <=? 0 then x :: l else y :: insert_sorted x l'
  end.

Fixpoint sort (l : list A) : list A :=
  match l with
  | [] => []
  | x :: l' => insert_sorted x (sort l')
  end.

End Sort.

(** [Array.prototype.findIndex], the callback receiving the element and
    its index; -1 when no element qualifies *)
Fixpoint findIndex_from (p : string -> Z -> bool) (l : list string) (i : Z) : Z :=
  match l with
  | [] => -1
  | x :: l' => if p x i then i else findIndex_from p l' (i + 1)
  end.

Definition findIndex (p : string -> Z -> bool) (l : list string) : Z :=
  findIndex_from p l 0.

(** [parts[i]]: [None] is [undefined] *)
Definition at_index (parts : list string) (i : Z) : option string :=
  if i <? 0 then None else parts !! Z.to_nat i.

Import Regex.

(** ** extractServicePeriodFromPage *)

(** [/\b(JAN|FEB|MAR|APR|MAY|JUN|JUL|AUG|SEP|OCT|NOV|DEC)\s+(\d{4})\b/i] *)
Definition monthPattern : re :=
  seq [WordB;
       Grp 1 (alt [stri "JAN"; stri "FEB"; stri "MAR"; stri "APR"; stri "MAY";
                   stri "JUN"; stri "JUL"; stri "AUG"; stri "SEP"; stri "OCT";
                   stri "NOV"; stri "DEC"]);
       plus sp; Grp 2 (times 4 d); WordB].

Definition monthMap : gmap string string :=
  list_to_map
    [("JAN", "January"); ("FEB", "February"); ("MAR", "March");
     ("APR", "April"); ("MAY", "May"); ("JUN", "June");
     ("JUL", "July"); ("AUG", "August"); ("SEP", "September");
     ("OCT", "October"); ("NOV", "November"); ("DEC", "December")].

Definition monthNames : list string :=
  [""; "January"; "February"; "March"; "April"; "May"; "June";
   "July"; "August"; "September"; "October"; "November"; "December"].

(** [/Service.*?Period.*?:?\s*(\d{1,2})[./](\d{4})/i] *)
Definition fallbackPattern1 : re :=
  seq [stri "Service"; starL any; stri "Period"; starL any; opt (lit ":");
       star sp; Grp 1 (range 1 2 d); dsep; Grp 2 (times 4 d)].

(** [/\b(\d{1,2})[./](\d{4})\b/] *)
Definition fallbackPattern2 : re :=
  seq [WordB; Grp 1 (range 1 2 d); dsep; Grp 2 (times 4 d); WordB].

Definition fallbackPatterns : list re := [fallbackPattern1; fallbackPattern2].

(** [parseInt(s, 10)] on a string of digits *)
Definition parseInt (s : string) : nat := N.to_nat (Js.digits_val s 0).

(** the template literal [`${a} ${b}`]; an [undefined] first part prints
    as the word [undefined] *)
Definition spaced (a : option string) (b : string) : string :=
  match a with
  | Some a' => a' +:+ " " +:+ b
  | None => "undefined " +:+ b
  end.

(** the body of the loop over [fallbackPatterns]: [Some] is the value
    returned from inside the loop *)
Definition fallbackPeriod (pageText : string) (pattern : re) : option string :=
  match exec pattern pageText with
  | Some fallbackMatch =>
      let month := parseInt (group_str 1 pageText fallbackMatch) in
      let year := group_str 2 pageText fallbackMatch in
      if (1 <=? month)%nat && (month <=? 12)%nat
      then Some (spaced (monthNames !! month) year)
      else None
  | None => None
  end.

Fixpoint firstSome {A B} (f : A -> option B) (l : list A) : option B :=
  match l with
  | [] => None
  | x :: l' =>
      match f x with
      | Some y => Some y
      | None => firstSome f l'
      end
  end.

Definition extractServicePeriodFromPage (pageText : string) : string :=
  match exec monthPattern pageText with
  | Some m =>
      let monthAbbr := Js.toUpperCase (group_str 1 pageText m) in
      let year := group_str 2 pageText m in
      spaced (monthMap !! monthAbbr) year
  | None =>
      match firstSome (fallbackPeriod pageText) fallbackPatterns with
      | Some servicePeriod => servicePeriod
      | None => "Unknown Period"
      end
  end.

(** ** extractField *)

Inductive fieldType : Type :=
| F_projectId | F_invoiceNumber | F_customerId | F_dateOfInvoice | F_currency
| F_vat | F_serviceProvisionPeriod.

(** [\d{1,2}[./]\d{1,2}[./]\d{4}] *)
Definition dateToken : re :=
  seq [range 1 2 d; dsep; range 1 2 d; dsep; times 4 d].

(** [\d{1,2}[./]\d{4}(?:\s*-\s*\d{1,2}[./]\d{4})?]; [[0-9][0-9]?] reads the
    same month digits as [\d{1,2}] *)
Definition periodToken : re :=
  seq [range 1 2 d; dsep; times 4 d;
       opt (seq [star sp; lit "-"; star sp; range 1 2 d; dsep; times 4 d])].

Definition periodToken' : re :=
  seq [d; opt d; dsep; times 4 d;
       opt (seq [star sp; lit "-"; star sp; d; opt d; dsep; times 4 d])].

Definition patterns (f : fieldType) : list re :=
  match f with
  | F_projectId =>
      [Grp 1 (seq [times 2 AZ; times 2 d; str "-PRO"; times 7 d]);
       Grp 1 (seq [str "PRO"; times 7 d]);
       Grp 1 (seq [times 2 AZ; str "-PRO"; times 7 d])]
  | F_invoiceNumber =>
      [seq [stri "Invoice"; plus sp; stri "No"; opt (lit "."); star sp;
            opt (lit ":"); star sp; Grp 1 (plus d)];
       seq [stri "Credit"; plus sp; stri "Note"; plus sp; stri "No";
            opt (lit "."); star sp; opt (lit ":"); star sp; Grp 1 (plus d)];
       seq [stri "Invoice"; plus sp; stri "Number"; star sp; opt (lit ":");
            star sp; Grp 1 (plus d)]]
  | F_customerId =>
      [seq [stri "Customer"; plus sp; stri "ID"; star sp; opt (lit ":");
            star sp; Grp 1 (plus d)];
       seq [stri "Client"; plus sp; stri "ID"; star sp; opt (lit ":");
            star sp; Grp 1 (plus d)]]
  | F_dateOfInvoice =>
      [seq [stri "Date"; star sp; opt (lit ":"); star sp; Grp 1 dateToken];
       seq [stri "Invoice"; plus sp; stri "Date"; star sp; opt (lit ":");
            star sp; Grp 1 dateToken]]
  | F_currency =>
      [seq [stri "Currency"; star sp; opt (lit ":"); star sp; Grp 1 (times 3 AZi)];
       Grp 1 (alt [str "EUR"; str "USD"; str "GBP"])]
  | F_vat =>
      [seq [stri "VAT"; star sp; stri "ID"; star sp; opt (lit ":"); star sp;
            Grp 1 (plus AZ09i)];
       seq [stri "BTW"; star sp; opt (lit ":"); star sp; Grp 1 (plus AZ09i)]]
  | F_serviceProvisionPeriod =>
      [seq [stri "Service"; plus sp; stri "Provision"; plus sp; stri "Period";
            star sp; opt (lit ":"); star sp; Grp 1 periodToken];
       seq [stri "Period"; star sp; opt (lit ":"); star sp; Grp 1 periodToken];
       Grp 1 (seq [range 3 9 AZi; plus sp; times 4 d]);
       seq [stri "Service"; starL any; stri "Period"; starL any; opt (lit ":");
            star sp; Grp 1 periodToken'];
       seq [stri "Provision"; starL any; stri "Period"; starL any; opt (lit ":");
            star sp; Grp 1 periodToken']]
  end.

(** [None] is the [null] returned when no pattern matches; the group 1 of
    these patterns takes part in every match. *)
Definition extractField (text : string) (f : fieldType) : option string :=
  firstSome (fun pattern =>
               match exec pattern text with
               | Some m => Some (group_str 1 text m)
               | None => None
               end) (patterns f).

(** ** extractMonthFromDate *)

Definition months : gmap string string :=
  list_to_map
    [("01", "January"); ("02", "February"); ("03", "March"); ("04", "April");
     ("05", "May"); ("06", "June"); ("07", "July"); ("08", "August");
     ("09", "September"); ("10", "October"); ("11", "November");
     ("12", "December")].

Definition extractMonthFromDate (dateStr : option string) : option string :=
  match dateStr with
  | None | Some EmptyString => None
  | Some dateStr =>
      let parts := Js.splitOn (fun c => mem c "./-") dateStr in
      match parts with
      | _ :: p1 :: _ :: _ => months !! Js.padStart2 p1
      | _ => None
      end
  end.

(** ** detectCreditNote *)

Definition creditIndicators : list string :=
  ["credit note"; "creditnote"; "credit memo"; "refund";
   "return"; "adjustment"; "reversal"].

Definition detectCreditNote (text : string) : bool :=
  let textLower := Js.toLowerCase text in
  existsb (fun indicator => Js.includes indicator textLower) creditIndicators.

(** ** classifyCostType *)

Definition classifyCostType (description : string) : string :=
  let descLower := Js.toLowerCase description in
  if Js.includes "application" descLower || Js.includes "infrastructure" descLower
  then "Internal"
  else if Js.includes "external" descLower || Js.includes "other" descLower
  then "External"
  else if Js.includes "consultant" descLower || Js.includes "service" descLower
          || Js.includes "support" descLower
  then "External"
  else "Internal".

(** ** extractInvoiceTotal *)

(** [/\b(Total|Subtotal.*\(Net\)|Subtotal)\b/i] *)
Definition totalLine : re :=
  seq [WordB;
       Grp 1 (alt [stri "Total";
                   seq [stri "Subtotal"; star any; lit "("; stri "Net"; lit ")"];
                   stri "Subtotal"]);
       WordB].

(** [/Position.*Total/i] *)
Definition positionTotalHeader : re := seq [stri "Position"; star any; stri "Total"].

(** [/VAT\s+[0-9.,]+%/i] *)
Definition vatLine : re := seq [stri "VAT"; plus sp; plus num; lit "%"].

(** [/\b(Total|Subtotal.*?\(Net\)?)\b/i] *)
Definition totalWord : re :=
  seq [WordB;
       Grp 1 (alt [stri "Total";
                   seq [stri "Subtotal"; starL any; lit "("; stri "Net"; opt (lit ")")]]);
       WordB].

(** [/\bTotal\b/i] and [/Subtotal/i] *)
Definition mainTotalWord : re := seq [WordB; stri "Total"; WordB].
Definition subtotalWord : re := stri "Subtotal".

(** [/([0-9]{1,3}(?:[.,][0-9]{3})*[.,][0-9]{2}[-]?)/g] *)
Definition amountToken : re :=
  Grp 1 (seq [range 1 3 d; star (seq [sep; times 3 d]); sep; times 2 d; opt (lit "-")]).

(** [[0-9.,]+[-]?] in a group, and [[0-9.,]{4,}[-]?] in a group *)
Definition looseAmount : re := Grp 1 (seq [plus num; opt (lit "-")]).
Definition looseAmount4 : re := Grp 1 (seq [atleast 4 num; opt (lit "-")]).

Definition totalPatterns : list re :=
  [seq [stri "Total"; plus sp; looseAmount];
   seq [stri "Total"; star sp; opt (lit ":"); star sp; looseAmount];
   seq [stri "Subtotal"; plus sp; looseAmount];
   seq [stri "Grand"; plus sp; stri "Total"; plus sp; looseAmount];
   seq [stri "Subtotal"; star sp; lit "("; stri "Net"; lit ")"; plus sp; looseAmount];
   seq [plus w; plus sp; plus d; plus sp; stri "Subtotal"; star sp; lit "(";
        stri "Net"; lit ")"; plus sp; looseAmount];
   seq [stri "Total"; rangeL 0 50 anything; looseAmount4];
   seq [stri "Subtotal"; rangeL 0 50 anything; looseAmount4]].

Record potentialTotal := PotentialTotal {
  pt_amount : Js.number;
  pt_type : string;
  pt_line : string;
  pt_priority : Z
}.

(** the amounts of the line that start within 50 characters after the
    total word: the one of largest magnitude above 1 *)
Definition bestSameLine (line : string) (totalWordEnd : nat)
    (sameLineMatch : list string) : option Js.number :=
  fold_left
    (fun bestAmount amountStr =>
       match Js.indexOf amountStr line totalWordEnd with
       | Some amountIndex =>
           if (amountIndex - totalWordEnd <? 50)%nat then
             match parseAmount amountStr with
             | Some amount =>
                 if Js.gt (Js.abs amount) one
                    && Js.gt (Js.abs amount) (Js.abs (orZero bestAmount))
                 then Some amount else bestAmount
             | None => bestAmount
             end
           else bestAmount
       | None => bestAmount
       end)
    sameLineMatch None.

(** the largest amount of a following line, when its magnitude is above 1 *)
Definition largestOfLine (checkLine : string) : option Js.number :=
  match matchAll amountToken checkLine with
  | [] => None
  | amountMatch =>
      let largestAmount :=
        fold_left
          (fun largestAmount amountStr =>
             match parseAmount amountStr with
             | Some amount =>
                 if Js.gt (Js.abs amount) (Js.abs (orZero largestAmount))
                 then Some amount else largestAmount
             | None => largestAmount
             end)
          amountMatch None in
      match largestAmount with
      | Some a => if Js.gt (Js.abs a) one then Some a else None
      | None => None
      end
  end.

(** the search of the next lines: the first one, VAT lines skipped, that
    holds a qualifying amount *)
Definition nextLineTotal (line : string) (isMainTotal : bool)
    (following : list string) : option potentialTotal :=
  firstSome
    (fun checkLine =>
       if test vatLine checkLine then None
       else match largestOfLine checkLine with
            | Some largestAmount =>
                Some (PotentialTotal largestAmount
                        (if isMainTotal then "Total" else "Subtotal")
                        (Js.trim line +:+ " -> " +:+ Js.trim checkLine)
                        (if isMainTotal then 1 else 2))
            | None => None
            end)
    following.

(** one turn of the loop over the lines of the page: [following] holds the
    lines [i+1 .. min(i+3, lines.length) - 1] *)
Definition scanTotalLine (potentialTotals : list potentialTotal)
    (line : string) (following : list string) : list potentialTotal :=
  if test totalLine line && negb (test positionTotalHeader line) then
    if test vatLine line then potentialTotals
    else
      let totalWordMatch := exec totalWord line in
      let isMainTotal := test mainTotalWord line && negb (test subtotalWord line) in
      let sameLineMatch := matchAll amountToken line in
      let potentialTotals :=
        match sameLineMatch, totalWordMatch with
        | _ :: _, Some m =>
            let word := whole line m in
            let totalWordEnd :=
              match Js.indexOf word line 0 with
              | Some totalWordIndex => (totalWordIndex + String.length word)%nat
              | None => (String.length word - 1)%nat
              end in
            match bestSameLine line totalWordEnd sameLineMatch with
            | Some bestAmount =>
                potentialTotals ++
                [PotentialTotal bestAmount
                   (if isMainTotal then "Total" else "Subtotal")
                   (Js.trim line)
                   (if isMainTotal then 1 else 2)]
            | None => potentialTotals
            end
        | _, _ => potentialTotals
        end in
      if match sameLineMatch with [] => true | _ => false end
         || negb (existsb (fun t => String.eqb (pt_line t) (Js.trim line)) potentialTotals)
      then
        match nextLineTotal line isMainTotal following with
        | Some t => potentialTotals ++ [t]
        | None => potentialTotals
        end
      else potentialTotals
  else potentialTotals.

Fixpoint scanTotalLines (potentialTotals : list potentialTotal)
    (lines : list string) : list potentialTotal :=
  match lines with
  | [] => potentialTotals
  | line :: lines' =>
      scanTotalLines (scanTotalLine potentialTotals line (take 2 lines')) lines'
  end.

(** the potential totals of a page, sorted by priority *)
Definition potentialTotalsOf (pageText : string) : list potentialTotal :=
  sort (fun a b =>
          if negb (pt_priority a =? pt_priority b)
          then pt_priority a - pt_priority b else 0)
       (scanTotalLines [] (Js.lines pageText)).

(** the body of the loop over [totalPatterns] *)
Definition fallbackTotal (pageText : string) (pattern : re) : option Js.number :=
  match last (matchAll pattern pageText) with
  | Some lastMatch =>
      match exec looseAmount lastMatch with
      | Some amountMatch =>
          match parseAmount (group_str 1 lastMatch amountMatch) with
          | Some amount =>
              if negb (Js.num_eqb amount Js.zero) then Some amount else None
          | None => None
          end
      | None => None
      end
  | None => None
  end.

Definition extractInvoiceTotal (pageText : string) : option Js.number :=
  match potentialTotalsOf pageText with
  | t :: _ => Some (pt_amount t)
  | [] => firstSome (fallbackTotal pageText) totalPatterns
  end.

(** ** extractLineItems *)

(** [/\b(Subtotal|Total)\b/i] *)
Definition boundaryWord : re :=
  seq [WordB; Grp 1 (alt [stri "Subtotal"; stri "Total"]); WordB].

(** [\d+[.,]?\d*%\([A-Z0-9]+\)], the VAT anchor *)
Definition vatToken : re :=
  seq [plus d; opt sep; star d; lit "%"; lit "("; plus AZ09; lit ")"].

(** [\d+[.,]?\d*] *)
Definition bareNumber : re := seq [plus d; opt sep; star d].

(** the pattern of Strategy 1, with the [g] flag; its eight groups are, in
    order and each separated from the next by [\s+]: [\d{4}], [\d{6}],
    [.+?], [bareNumber], [[A-Z]+], [vatToken], [[\d.,]+] and [[\d.,]+-?] *)
Definition structuredPattern : re :=
  seq [Grp 1 (times 4 d); plus sp; Grp 2 (times 6 d); plus sp; Grp 3 (plusL any);
       plus sp; Grp 4 bareNumber; plus sp; Grp 5 (plus AZ); plus sp;
       Grp 6 vatToken; plus sp; Grp 7 (plus num); plus sp;
       Grp 8 (seq [plus num; opt (lit "-")])].

(** [/^\d{4}$/], [/^[\d.,]+-?$/] and [/^\d+[.,]?\d*$/], the token shapes *)
Definition positionShape : re := seq [Bol false; times 4 d; Eol false].
Definition amountShape : re := seq [Bol false; plus num; opt (lit "-"); Eol false].
Definition numberShape : re := seq [Bol false; bareNumber; Eol false].

(** [/(\d{4})\s+.*?(\d+[.,]?\d*%\([A-Z0-9]+\)).*?([\d.,]+-?)$/] *)
Definition simplePattern : re :=
  seq [Grp 1 (times 4 d); plus sp; starL any; Grp 2 vatToken; starL any;
       Grp 3 (seq [plus num; opt (lit "-")]); Eol false].

(** [/\d{4}\s+(\d{6})/], [/^\d{4}\s+(\d{6}\s+)?/] and [/\s+\d+[.,]?\d*.*$/] *)
Definition materialPattern : re := seq [times 4 d; plus sp; Grp 1 (times 6 d)].
Definition leadingCodes : re :=
  seq [Bol false; times 4 d; plus sp; opt (Grp 1 (seq [times 6 d; plus sp]))].
Definition trailingNumbers : re := seq [plus sp; bareNumber; star any; Eol false].

Definition mkItem (position material positionDescription : string)
    (positionQuantity : Js.number) (unit vat : string)
    (unitPrice positionTotal : jsval) (typeCost : string) : record :=
  list_to_map
    [("position", VStr position); ("material", VStr material);
     ("positionDescription", VStr positionDescription);
     ("positionQuantity", VNum positionQuantity); ("unit", VStr unit);
     ("vat", VStr vat); ("unitPrice", unitPrice);
     ("positionTotal", positionTotal); ("typeCost", VStr typeCost)].

(** Step 1: the lines before the first Subtotal/Total boundary *)
Fixpoint lineItemSection (lines : list string) : list string :=
  match lines with
  | [] => []
  | line :: lines' =>
      if test boundaryWord line && negb (test positionTotalHeader line) then []
      else line :: lineItemSection lines'
  end.

(** Step 2: the candidate lines, anchored on the VAT pattern *)
Definition candidateLines (pageText : string) : list string :=
  filter (fun line =>
            let trimmed := Js.trim line in
            bool_decide (20 < String.length trimmed)%nat && test vatToken trimmed)
         (lineItemSection (Js.lines pageText)).

(** Step 3: Strategy 1, one candidate line *)
Definition structuredItem (line : string) : list record :=
  match exec structuredPattern line with
  | Some m =>
      let g i := group_str i line m in
      let positionTotal := parseAmount (g 8%nat) in
      match positionTotal with
      | Some _ =>
          [mkItem (g 1%nat) (g 2%nat) (Js.trim (g 3%nat))
                  (Js.parseFloat (Js.replaceFirst "," "." (g 4%nat)))
                  (g 5%nat) (g 6%nat)
                  (numOrNull (parseAmount (g 7%nat))) (numOrNull positionTotal)
                  (classifyCostType (g 3%nat))]
      | None => []
      end
  | None => []
  end.

(** Step 4: the loop that separates description and quantity; [tokens]
    are [parts[posIndex + 2 .. vatIndex - 3]] *)
Fixpoint scanDescription (tokens : list string) (description : string)
  : string * Js.number :=
  match tokens with
  | [] => (description, one)
  | part :: tokens' =>
      if test numberShape part && negb (Js.includes part description)
      then (description, Js.parseFloat (Js.replaceFirst "," "." part))
      else scanDescription tokens' (description +:+ part +:+ " ")
  end.

(** the elements [l[from .. to - 1]] *)
Definition slice (from to : Z) (l : list string) : list string :=
  take (Z.to_nat (to - from)) (drop (Z.to_nat from) l).

(** Step 4: Strategy 2, one candidate line *)
Definition flexibleItem (line : string) : list record :=
  let parts := Js.splitSpaces (Js.trim line) in
  let posIndex := findIndex (fun p _ => test positionShape p) parts in
  if 0 <=? posIndex then
    let vatIndex := findIndex (fun p _ => test vatToken p) parts in
    let amountIndex :=
      findIndex (fun p i => (vatIndex <? i) && test amountShape p) parts in
    if (posIndex <? vatIndex) && (vatIndex <? amountIndex) then
      let material := orStr (at_index parts (posIndex + 1)) "" in
      let '(description, quantity) :=
        scanDescription (slice (posIndex + 2) (vatIndex - 2) parts) "" in
      let positionTotal :=
        match at_index parts amountIndex with
        | Some p => parseAmount p
        | None => None
        end in
      match positionTotal with
      | Some _ =>
          [mkItem (orStr (at_index parts posIndex) "")
                  material
                  (orStr (Some (Js.trim description)) "Unknown Service")
                  quantity
                  (orStr (at_index parts (vatIndex - 1)) "PU")
                  (orStr (at_index parts vatIndex) "")
                  (VNum (orZero match at_index parts (vatIndex + 1) with
                                | Some p => parseAmount p
                                | None => None
                                end))
                  (numOrNull positionTotal)
                  (classifyCostType description)]
      | None => []
      end
    else []
  else [].

(** Step 5: Strategy 3, one candidate line *)
Definition simpleItem (line : string) : list record :=
  match exec simplePattern line with
  | Some simpleMatch =>
      let position := group_str 1 line simpleMatch in
      let vat := group_str 2 line simpleMatch in
      match parseAmount (group_str 3 line simpleMatch) with
      | Some total =>
          let material :=
            match exec materialPattern line with
            | Some materialMatch => group_str 1 line materialMatch
            | None => ""
            end in
          let description := removeFirst leadingCodes line in
          let description := Js.trim (removeFirst trailingNumbers description) in
          [mkItem position material (orStr (Some description) "Service Item")
                  one "PU" vat (VNum total) (VNum total)
                  (classifyCostType description)]
      | None => []
      end
  | None => []
  end.

Definition isEmpty {A} (l : list A) : bool :=
  match l with
  | [] => true
  | _ => false
  end.

(** the three strategies, each run over all the candidate lines *)
Definition strategy1 (candidateLines : list string) : list record :=
  concat (map structuredItem candidateLines).
Definition strategy2 (candidateLines : list string) : list record :=
  concat (map flexibleItem candidateLines).
Definition strategy3 (candidateLines : list string) : list record :=
  concat (map simpleItem candidateLines).

Definition extractLineItems (pageText : string) (pageNumber : nat) : list record :=
  let candidateLines := candidateLines pageText in
  let lineItems := strategy1 candidateLines in
  let lineItems :=
    if isEmpty lineItems then strategy2 candidateLines else lineItems in
  let lineItems :=
    if isEmpty lineItems then strategy3 candidateLines else lineItems in
  lineItems.

(** ** extractInvoiceData *)

Record pageTotal := PageTotal {
  c_amount : Js.number;
  c_pageNumber : nat;
  c_pageText : string
}.

Record totalCandidate := TotalCandidate {
  c_candidate : pageTotal;
  c_isMainTotal : bool;
  c_isSubtotalOnly : bool;
  c_priority : Z
}.

(** [/.*Total.*$/im] and [/\bTotal\b(?!.*Subtotal)/i] *)
Definition firstTotalLine : re := seq [star any; stri "Total"; star any; Eol true].
Definition totalNotSubtotal : re :=
  seq [WordB; stri "Total"; WordB; NotAhead (seq [star any; stri "Subtotal"])].

Definition classifyCandidate (candidate : pageTotal) : totalCandidate :=
  let pageText := c_pageText candidate in
  let hasMainTotal :=
    test mainTotalWord pageText
    && negb (test subtotalWord
               match exec firstTotalLine pageText with
               | Some m => whole pageText m
               | None => ""
               end) in
  let hasSubtotalOnly :=
    test subtotalWord pageText && negb (test totalNotSubtotal pageText) in
  TotalCandidate candidate hasMainTotal hasSubtotalOnly
    (if hasMainTotal then 1 else if hasSubtotalOnly then 3 else 2).

(** lower priority number first, then the later page *)
Definition compareCandidates (a b : totalCandidate) : Z :=
  if negb (c_priority a =? c_priority b) then c_priority a - c_priority b
  else Z.of_nat (c_pageNumber (c_candidate b)) - Z.of_nat (c_pageNumber (c_candidate a)).

Definition baseInvoiceInfo (fullText fileName : string) : record :=
  list_to_map
    [("fileName", VStr fileName);
     ("projectId", strOrNull (extractField fullText F_projectId));
     ("invoiceNumber", strOrNull (extractField fullText F_invoiceNumber));
     ("customerId", strOrNull (extractField fullText F_customerId));
     ("dateOfInvoice", strOrNull (extractField fullText F_dateOfInvoice));
     ("monthOfInvoice",
      strOrNull (extractMonthFromDate (extractField fullText F_dateOfInvoice)));
     ("currency", strOrNull (extractField fullText F_currency));
     ("vat", strOrNull (extractField fullText F_vat));
     ("creditNote", VBool (detectCreditNote fullText))].

(** the pages with their numbers, [pageIndex + 1] *)
Definition numbered (pageTexts : list string) : list (nat * string) :=
  imap (fun pageIndex pageText => (S pageIndex, pageText)) pageTexts.

Definition allPageTotals (pageTexts : list string) : list pageTotal :=
  omap (fun '(pageNumber, pageText) =>
          match extractInvoiceTotal pageText with
          | Some pageTotal => Some (PageTotal pageTotal pageNumber pageText)
          | None => None
          end)
       (numbered pageTexts).

(** the object pushed for one line item of a page *)
Definition pageLineItem (base : record) (pageServicePeriod : string)
    (pageNumber : nat) (item : record) : record :=
  <["extractedInvoiceTotal" := VNull]>
    (<["pageNumber" := VNum (Js.of_nat pageNumber)]>
       (spread (<["serviceProvisionPeriod" := VStr pageServicePeriod]> base) item)).

Definition pageLineItems (base : record) (pageTexts : list string) : list record :=
  concat (map (fun '(pageNumber, pageText) =>
                 map (pageLineItem base (extractServicePeriodFromPage pageText) pageNumber)
                     (extractLineItems pageText pageNumber))
              (numbered pageTexts)).

(** the total chosen among the pages, [null] when no page has one *)
Definition chooseTotal (allPageTotals : list pageTotal) : option Js.number :=
  match sort compareCandidates (map classifyCandidate allPageTotals) with
  | best :: _ => Some (c_amount (c_candidate best))
  | [] => None
  end.

Definition extractInvoiceData (fullText : string) (pageTexts : list string)
    (fileName : string) : list record :=
  let base := baseInvoiceInfo fullText fileName in
  let lineItems := pageLineItems base pageTexts in
  let extractedInvoiceTotal := chooseTotal (allPageTotals pageTexts) in
  let lineItems :=
    map (fun item => <["extractedInvoiceTotal" := numOrNull extractedInvoiceTotal]> item)
        lineItems in
  if isEmpty lineItems
  then [<["extractedInvoiceTotal" := numOrNull extractedInvoiceTotal]> base]
  else lineItems.

(** the text handed over by [extractDataFromPDF]: every page followed by a
    line break *)
Definition fullTextOf (pageTexts : list string) : string :=
  fold_left (fun fullText pageText => fullText +:+ pageText +:+ "
") pageTexts "".

(** the extraction of a document from its page texts and file name *)
Definition extractDocument (pageTexts : list string) (fileName : string)
  : list record :=
  extractInvoiceData (fullTextOf pageTexts) pageTexts fileName.


(** * The other functions of the file

    The helpers of the extractor that the pipeline does not call, and the
    common utilities (i2e-common.js) that come with it. *)

(** ** More built-ins of the host language *)

(** [s.replace(/[class]/g, by)] for a class of characters *)
Definition replaceClass (p : ascii -> bool) (by_ : ascii) (s : string) : string :=
  Js.smap (fun c => if p c then by_ else c) s.

(** [s.replace(/[class]/g, '')] for a class of characters *)
Fixpoint removeClass (p : ascii -> bool) (s : string) : string :=
  match s with
  | EmptyString => EmptyString
  | String c s' => if p c then removeClass p s' else String c (removeClass p s')
  end.

(** [n.toString()] for a natural number: its decimal digits *)
Fixpoint toString_go (fuel n : nat) (acc : string) : string :=
  let acc' := String (ascii_of_nat (48 + n mod 10)) acc in
  match fuel with
  | O => acc'
  | S fuel' => if (n <? 10)%nat then acc' else toString_go fuel' (n / 10) acc'
  end.

Definition toString (n : nat) : string := toString_go n n "".

(** [parseInt(s, 10)]: the white space is skipped, a sign is read, then
    the digits; [None] is [NaN], and so is the outcome for [undefined] *)
Definition parseInt10 (s : option string) : option Z :=
  match s with
  | None => None
  | Some s =>
      let '(sg, s1) := Js.read_sign (Js.trimStart s) in
      let '(ds, _) := Js.span Js.is_digit s1 in
      match ds with
      | EmptyString => None
      | _ => let v := Z.of_N (Js.digits_val ds 0) in Some (if sg then - v else v)
      end
  end.

(** ** normalizeServicePeriod *)

(** the entries of [monthMap], in the order of the object literal *)
Definition monthMapEntries : list (string * string) :=
  [("JAN", "January"); ("FEB", "February"); ("MAR", "March"); ("APR", "April");
   ("MAY", "May"); ("JUN", "June"); ("JUL", "July"); ("AUG", "August");
   ("SEP", "September"); ("OCT", "October"); ("NOV", "November");
   ("DEC", "December")].

Definition normalizeServicePeriod (periodStr : string) : string :=
  match List.find (fun '(abbr, _) => Js.includes abbr (Js.toUpperCase periodStr))
                  monthMapEntries with
  | Some (_, fullName) => fullName
  | None => periodStr
  end.

(** ** extractDescription *)

(** [/^\d/] *)
Definition leadingDigit : re := seq [Bol false; d].

(** the loop over [parts[i]], from the first token it reads *)
Fixpoint extractDescription_loop (parts : list string) (desc : string) : string :=
  match parts with
  | [] => desc
  | part :: parts' =>
      if test leadingDigit part && (2 <? String.length part)%nat then desc
      else extractDescription_loop parts' (desc +:+ part +:+ " ")
  end.

Definition extractDescription (parts : list string) (startIndex : nat) : string :=
  Js.trim (extractDescription_loop (drop (startIndex + 2) parts) "").

(** ** extractQuantity *)

(** the body of the loop: [Some] is the value returned from inside it *)
Definition extractQuantity_at (parts : list string) (i : nat) : option Z :=
  match parseInt10 (parts !! i) with
  | Some num => if (0 <? num) && (num <? 1000) then Some num else None
  | None => None
  end.

Definition extractQuantity (parts : list string) (startIndex endIndex : nat) : Z :=
  match firstSome (extractQuantity_at parts)
                  (List.seq (startIndex + 2) (endIndex - (startIndex + 2))) with
  | Some num => num
  | None => 1
  end.

(** ** makeCSSClass, as the extractor defines it *)

(** [[^a-zA-Z0-9_-]] *)
Definition notCssSafe (c : ascii) : bool :=
  negb (Js.is_lower c || Js.is_upper c || Js.is_digit c || mem c "_-").

Definition makeCSSClass (str : string) : string := replaceClass notCssSafe "_" str.

(** ** The common utilities *)

Module Common.

(** *** standardizeWBS *)

(** [/-EXN$/] *)
Definition exnSuffix : re := seq [str "-EXN"; Eol false].

(** [[A-Z]{2,4}\d{7}] *)
Definition projectCode : re := seq [range 2 4 AZ; times 7 d].

(** [/([A-Z]{2,4}\d{7})$/] *)
Definition projectSuffix : re := seq [Grp 1 projectCode; Eol false].

(** An argument that is not a string, or is the empty one, gives the empty
    string. *)
Definition standardizeWBS (wbsCode : jsval) : string :=
  match wbsCode with
  | VStr EmptyString => ""
  | VStr wbsCode =>
      let standardized := Js.toUpperCase (Js.trim (removeFirst exnSuffix wbsCode)) in
      match exec projectSuffix standardized with
      | Some projectMatch => group_str 1 standardized projectMatch
      | None => standardized
      end
  | _ => ""
  end.

(** *** isValidWBS *)

(** [/^[A-Z]{2}\d{2}-[A-Z]{3}\d{7}$/] *)
Definition fullWbsRegex : re :=
  seq [Bol false; times 2 AZ; times 2 d; lit "-"; times 3 AZ; times 7 d; Eol false].

(** [/^[A-Z]{3}\d{7}$/] *)
Definition rtcProjectRegex : re := seq [Bol false; times 3 AZ; times 7 d; Eol false].

Definition isValidWBS (wbsCode : jsval) : bool :=
  match wbsCode with
  | VStr EmptyString => false
  | VStr _ =>
      let standardized := standardizeWBS wbsCode in
      test fullWbsRegex standardized || test rtcProjectRegex standardized
  | _ => false
  end.

(** *** makeCSSClass *)

Definition makeCSSClass (str : jsval) : string :=
  match str with
  | VStr EmptyString => "unknown"
  | VStr str => Js.toLowerCase (replaceClass notCssSafe "_" str)
  | _ => "unknown"
  end.

(** *** parseInvoiceMonth *)

Definition monthNames : list string :=
  ["January"; "February"; "March"; "April"; "May"; "June";
   "July"; "August"; "September"; "October"; "November"; "December"].

(** [/\d{4}/] *)
Definition yearPattern : re := times 4 d.

(** [/(\d{1,2})\/(\d{4})/] *)
Definition mmYyyyPattern : re := seq [Grp 1 (range 1 2 d); lit "/"; Grp 2 (times 4 d)].

(** [/(\d{4})-(\d{1,2})/] *)
Definition yyyyMmPattern : re := seq [Grp 1 (times 4 d); lit "-"; Grp 2 (range 1 2 d)].

(** the loop over the month names, from the name of index [i]: [Some] is
    the value returned from inside the loop *)
Fixpoint monthYear (monthString : string) (names : list string) (i : nat)
  : option string :=
  match names with
  | [] => None
  | name :: names' =>
      if Js.includes name monthString then
        match exec yearPattern monthString with
        | Some m =>
            let year := whole monthString m in
            let monthNum := Js.padStart2 (toString (i + 1)) in
            Some (year +:+ "-" +:+ monthNum)
        | None => monthYear monthString names' (S i)
        end
      else monthYear monthString names' (S i)
  end.

Definition parseInvoiceMonth (monthString : jsval) : string :=
  match monthString with
  | VStr EmptyString => ""
  | VStr monthString =>
      match monthYear monthString monthNames 0 with
      | Some standardized => standardized
      | None =>
          match exec mmYyyyPattern monthString with
          | Some mmYyyyMatch =>
              let month := Js.padStart2 (group_str 1 monthString mmYyyyMatch) in
              let year := group_str 2 monthString mmYyyyMatch in
              year +:+ "-" +:+ month
          | None =>
              match exec yyyyMmPattern monthString with
              | Some yyyyMmMatch =>
                  let year := group_str 1 monthString yyyyMmMatch in
                  let month := Js.padStart2 (group_str 2 monthString yyyyMmMatch) in
                  year +:+ "-" +:+ month
              | None => monthString
              end
          end
      end
  | _ => ""
  end.

(** *** parseCurrencyValue *)

(** [[€$£¥₹]|\s]: a currency sign or a white space; the dollar is the
    currency sign of the character range of the embedding *)
Definition currencySignOrSpace (c : ascii) : bool := mem c "$" || Js.is_space c.

(** [/,\d{3}$/] *)
Definition thousandsSuffix : re := seq [lit ","; times 3 d; Eol false].

Definition parseCurrencyValue (currencyString : jsval) : Js.number :=
  match currencyString with
  | VStr EmptyString => Js.zero
  | VStr currencyString =>
      let cleanStr := removeClass currencySignOrSpace currencyString in
      let cleanStr :=
        if Js.includes "," cleanStr && Js.includes "." cleanStr
        then Js.replaceFirst "," "." (Js.removeAll "." cleanStr)
        else if Js.includes "," cleanStr
        then if test thousandsSuffix cleanStr
             then Js.replaceFirst "," "" cleanStr
             else Js.replaceFirst "," "." cleanStr
        else cleanStr in
      let numValue := Js.parseFloat cleanStr in
      match numValue with
      | S754_nan => Js.zero
      | _ => numValue
      end
  | _ => Js.zero
  end.

(** *** isValidEmail *)

(** [[^\s@]] *)
Definition notSpaceNorAt : re := Chr (fun c => negb (Js.is_space c || Ascii.eqb c "@")).

(** [/^[^\s@]+@[^\s@]+\.[^\s@]+$/] *)
Definition emailRegex : re :=
  seq [Bol false; plus notSpaceNorAt; lit "@"; plus notSpaceNorAt; lit ".";
       plus notSpaceNorAt; Eol false].

Definition isValidEmail (email : jsval) : bool :=
  match email with
  | VStr EmptyString => false
  | VStr email => test emailRegex email
  | _ => false
  end.

(** *** clearStorageByPrefix *)

(** [localStorage]: a store of strings under string keys *)
Abbreviation storage := (gmap string string).

(** the keys [localStorage.key(0)], [localStorage.key(1)], ... *)
Definition keys (localStorage : storage) : list string := (map_to_list localStorage).*1.

(** The count of the deleted entries, and the store that is left. *)
Definition clearStorageByPrefix (prefix : string) (localStorage : storage)
  : nat * storage :=
  let keysToDelete :=
    List.filter (fun key => negb (String.eqb key "") && Js.startsWith prefix key)
                (keys localStorage) in
  foldl (fun '(deletedCount, localStorage) key =>
           (S deletedCount, delete key localStorage))
        (O, localStorage) keysToDelete.

(** *** normalizeExcelFieldNames *)

Definition fieldMap : list (string * list string) :=
  [("serviceProvisionPeriod",
    ["service provision period"; "service_provision_period";
     "serviceprovisionperiod"; "month of invoice"]);
   ("weekStartsOn", ["week starts on"; "week_starts_on"; "weekstartson"]);
   ("user", ["user"; "username"; "employee"; "name"]);
   ("costEuro", ["cost €"; "cost"; "value"; "amount"]);
   ("total", ["total"; "hours"; "quantity"]);
   ("projectType", ["project type"; "project_type"; "type"]);
   ("resourceManager", ["resource manager"; "manager"; "rm"]);
   ("wbsElement", ["wbs element id"; "wbs"; "wbs_element"]);
   ("projectName", ["project name"; "project"; "project_name"]);
   ("jobTitle", ["job title"; "role"; "position"; "title"])].

(** [s.replace(/[^a-z0-9]/g, '')] *)
Definition alphanumeric (s : string) : string :=
  removeClass (fun c => negb (Js.is_lower c || Js.is_digit c)) s.

Section Rows.

(** The values of the cells, and which of them are truthy. *)
Context {V : Type} (truthy : V -> bool).

(** [availableFields.find(...)] for one variation of a name *)
Definition matchingField (availableFields : list string) (variation : string)
  : option string :=
  List.find (fun field =>
               String.eqb (alphanumeric (Js.toLowerCase field)) (alphanumeric variation))
            availableFields.

(** the loop over the variations of a name: [Some] is the value the name
    is set to *)
Fixpoint firstVariation (rawRow : gmap string V) (availableFields : list string)
    (variations : list string) : option V :=
  match variations with
  | [] => None
  | variation :: variations' =>
      match matchingField availableFields variation with
      | Some field =>
          match (if String.eqb field "" then None else rawRow !! field) with
          | Some value =>
              if truthy value then Some value
              else firstVariation rawRow availableFields variations'
          | None => firstVariation rawRow availableFields variations'
          end
      | None => firstVariation rawRow availableFields variations'
      end
  end.

(** The row is given by its entries, in the order of [Object.keys]. *)
Definition normalizeExcelFieldNames (rawRow : list (string * V)) : gmap string V :=
  let availableFields := rawRow.*1 in
  let row : gmap string V := list_to_map rawRow in
  foldl (fun normalizedRow '(standardName, variations) =>
           match firstVariation row availableFields variations with
           | Some value => <[standardName := value]> normalizedRow
           | None => normalizedRow
           end)
        row fieldMap.

End Rows.

End Common.
(** * Notions used in the statements *)

(** ** Tokens *)

(** the character [c] does not occur in [s] *)
Definition absent (c : ascii) (s : string) : Prop := mem c s = false.

(** every character of [w] is in the class [p] *)
Fixpoint every (p : ascii -> bool) (w : string) : bool :=
  match w with
  | EmptyString => true
  | String c w' => p c && every p w'
  end.

(** [t] does not start with a character of the class [p] *)
Definition stops (p : ascii -> bool) (t : string) : Prop :=
  match t with
  | EmptyString => True
  | String c _ => p c = false
  end.

(** the token holds no digit *)
Definition digitless (s : string) : Prop :=
  every (fun c => negb (Js.is_digit c)) s = true.

(** a number that is not a finite value: [NaN] or an infinity *)
Definition notFinite (x : Js.number) : Prop :=
  x = Js.NaN \/ exists sign, x = S754_infinity sign.

(** ** Line items *)

(** a record built by [mkItem]: the nine fields of a line item *)
Definition isItem (r : record) : Prop :=
  exists position material positionDescription positionQuantity unit vat
         unitPrice positionTotal typeCost,
    r = mkItem position material positionDescription positionQuantity unit vat
               unitPrice positionTotal typeCost.

(** the fields set by the assembler on every line-item record *)
Definition assemblerFields : list string :=
  ["serviceProvisionPeriod"; "pageNumber"; "extractedInvoiceTotal"].

(** a document whose header carries a VAT identifier and whose only line
    item carries a VAT token *)
Definition vatCollisionPages : list string :=
  ["VAT ID: NL123456789B01
0010 123456 Consulting Services 5 PU 21%(V1) 100,00 500,00"].

(** the tokens of a candidate line, and the indices Strategy 2 computes *)
Definition tokensOf (line : string) : list string := Js.splitSpaces (Js.trim line).
Definition posIndexOf (parts : list string) : Z :=
  findIndex (fun p _ => test positionShape p) parts.
Definition vatIndexOf (parts : list string) : Z :=
  findIndex (fun p _ => test vatToken p) parts.

(** a line that Strategy 1 rejects (its material code has five digits) and
    Strategy 2 parses; the token before the VAT anchor is the number 5 *)
Definition fiveDigitMaterialLine : string :=
  "0010 12345 Consulting Services 5 21%(V1) 100,00 500,00".

(** ** The choice of the total *)








(** ** The meaning of patterns

    [steps r s s'] describes the end states [s'] that the pattern [r] can
    reach from the state [s]; [lang r w] is the language of [r], the
    assertions read as the empty word. *)

Fixpoint iter_rel {S} (n : nat) (R : S -> S -> Prop) (s s' : S) : Prop :=
  match n with
  | O => s' = s
  | S n' => exists s1, R s s1 /\ iter_rel n' R s1 s'
  end.

(** [n] iterations are allowed by the bounds [{min,max}]: at most [max],
    and at least [min] unless [max] itself, when it is below [min], has
    been reached *)
Definition within (n : nat) (min : nat) (max : option nat) : Prop :=
  ((min <= n)%nat \/ max = Some n) /\ forall m, max = Some m -> (n <= m)%nat.

Fixpoint steps (r : re) (s s' : mstate) : Prop :=
  match r with
  | Eps => s' = s
  | Chr p =>
      exists c t, rest s = String c t /\ p c = true /\
                  s' = MState (S (pos s)) (Some c) t (caps s)
  | Seq r1 r2 => exists s1, steps r1 s s1 /\ steps r2 s1 s'
  | Alt r1 r2 => steps r1 s s' \/ steps r2 s s'
  | Grp i r1 => exists s1, steps r1 s s1 /\ s' = set_cap i (pos s) s1
  | Rep min max _ r1 =>
      exists n, within n min max /\
        iter_rel n (fun a b => steps r1 (clear_caps (groups r1) a) b) s s'
  | NotAhead r1 => run r1 Some s = None /\ s' = s
  | WordB | Bol _ | Eol _ => run r Some s = Some s /\ s' = s
  end.

Fixpoint iter_lang (n : nat) (L : string -> Prop) (w : string) : Prop :=
  match n with
  | O => w = ""
  | S n' => exists u v, w = u +:+ v /\ L u /\ iter_lang n' L v
  end.

Fixpoint lang (r : re) (w : string) : Prop :=
  match r with
  | Chr p => exists c, w = String c "" /\ p c = true
  | Seq r1 r2 => exists u v, w = u +:+ v /\ lang r1 u /\ lang r2 v
  | Alt r1 r2 => lang r1 w \/ lang r2 w
  | Grp _ r1 => lang r1 w
  | Rep min max _ r1 => exists n, within n min max /\ iter_lang n (lang r1) w
  | Eps | NotAhead _ | WordB | Bol _ | Eol _ => w = ""
  end.

(** [line] holds a token of the pattern [r] *)
Definition holds (r : re) (line : string) : Prop :=
  exists pre token post, line = pre +:+ token +:+ post /\ lang r token.

(** the cursor of [s'] is that of [s] moved over the word [w] *)
Definition moved (w : string) (s s' : mstate) : Prop :=
  rest s = w +:+ rest s' /\ pos s' = (pos s + String.length w)%nat.

(** the state [s] is a position in [text]: what comes before its cursor
    and what is left make up the text *)
Definition at_text (text : string) (s : mstate) : Prop :=
  exists pre, text = pre +:+ rest s /\ pos s = String.length pre.

(** the last character of [w], or [d] when [w] is empty *)
Fixpoint last_char (w : string) (d : option ascii) : option ascii :=
  match w with
  | EmptyString => d
  | String c w' => last_char w' (Some c)
  end.

(** the state reached from [s] once the word [w] is consumed, [t] being
    what is left of the text *)
Definition after (w t : string) (s : mstate) : mstate :=
  MState (pos s + String.length w) (last_char w (prev s)) t (caps s).

(** ** The date of the invoice *)

(** [\s*:?\s*], what may stand between the word Date and the date *)
Definition dateGap : re := seq [star sp; opt (lit ":"); star sp].

(** [Date\s*:?\s*(\d{1,2}[./]\d{1,2}[./]\d{4})], the first date pattern,
    which also ends the second one *)
Definition datePattern : re :=
  seq [stri "Date"; star sp; opt (lit ":"); star sp; Grp 1 dateToken].

(** [text] holds the date token [date] right after the word Date (in any
    letter case), white space and at most one colon between them *)
Definition prefixedDate (text date : string) : Prop :=
  exists pre word gap post,
    text = pre +:+ word +:+ gap +:+ date +:+ post /\
    Js.toLowerCase word = "date" /\ lang dateGap gap /\ lang dateToken date.


(** ** Matching, whatever the groups hold *)

(** two states at the same cursor: they differ in the spans of the groups
    only *)
Definition same_cursor (a b : mstate) : Prop :=
  pos a = pos b /\ prev a = prev b /\ rest a = rest b.

(** the continuation [k2] succeeds wherever [k1] does, whatever the groups
    hold *)
Definition follows (k1 k2 : mstate -> option mstate) : Prop :=
  forall a b, same_cursor a b -> is_Some (k1 a) -> is_Some (k2 b).

(** a pattern without assertions: its matches depend on the characters it
    consumes only *)
Fixpoint plain (r : re) : bool :=
  match r with
  | Eps | Chr _ => true
  | Seq r1 r2 | Alt r1 r2 => plain r1 && plain r2
  | Rep _ _ _ r1 | Grp _ r1 => plain r1
  | WordB | Bol _ | Eol _ | NotAhead _ => false
  end.

(** ** Classes of characters *)

(** [[a-zA-Z0-9_-]], the characters of a class name *)
Definition cssSafe (c : ascii) : bool :=
  Js.is_lower c || Js.is_upper c || Js.is_digit c || mem c "_-".

(** [[a-z0-9_-]] *)
Definition cssSafeLower (c : ascii) : bool :=
  Js.is_lower c || Js.is_digit c || mem c "_-".

(** the word has no character of the class [p] *)
Definition free_of (p : ascii -> bool) (w : string) : Prop :=
  every (fun c => negb (p c)) w = true.

(** a letter, in either case *)
Definition is_letter (c : ascii) : bool := Js.is_upper c || Js.is_lower c.

(** the keys that [clearStorageByPrefix] deletes *)
Definition cleared (prefix key : string) : bool :=
  negb (String.eqb key "") && Js.startsWith prefix key.

(** the names that [normalizeExcelFieldNames] sets *)
Definition standardNames : list string := Common.fieldMap.*1.

(** the value [value] of the field [field] of the row is what the
    standard name [name] is set to: the value is truthy, and the name of
    the field, once in lower case and without its other signs, is one of
    the variations of [name] *)
Definition setFrom {V} (truthy : V -> bool) (row : gmap string V)
    (name : string) (value : V) : Prop :=
  truthy value = true /\
  exists field variations variation,
    field <> "" /\ row !! field = Some value /\
    (name, variations) ∈ Common.fieldMap /\ variation ∈ variations /\
    Common.alphanumeric (Js.toLowerCase field) = Common.alphanumeric variation.

(** ** Addresses *)

(** [[^\s@]] *)
Definition partChar (c : ascii) : bool := negb (Js.is_space c || Ascii.eqb c "@").

(** a part of an address: not empty, without white space and without at
    sign (a part may hold dots) *)
Definition emailPart (w : string) : Prop := w <> "" /\ every partChar w = true.

(** ** Project codes *)

(** [[A-Z]{3}\d{7}], the code of a project: three capital letters and
    seven digits *)
Definition rtcCode : re := seq [times 3 AZ; times 7 d].

(** [[A-Z]{2}\d{2}-[A-Z]{3}\d{7}], the full format *)
Definition fullWbsCode : re :=
  seq [times 2 AZ; times 2 d; lit "-"; times 3 AZ; times 7 d].

(** the last character of the word is a letter *)
Definition endsWithLetter (w : string) : bool :=
  match last_char w None with
  | Some c => is_letter c
  | None => false
  end.

(** ** Periods *)

(** a run of digits of the given length *)
Definition digits (n : nat) (w : string) : Prop :=
  String.length w = n /\ every Js.is_digit w = true.

(** the number of a month, one or two digits *)
Definition monthDigits (w : string) : Prop :=
  (1 <= String.length w <= 2)%nat /\ every Js.is_digit w = true.

(** ** Amounts *)

(** a run of digits *)
Definition digitString (w : string) : Prop := every Js.is_digit w = true.

(** ** The group of a pattern *)

(** the pattern of the group [i] of [r], when the group stands on the
    spine of [r], among the patterns that [r] puts in sequence *)
Fixpoint grp (i : nat) (r : re) : option re :=
  match r with
  | Grp j body => if (i =? j)%nat then Some body else None
  | Seq r1 r2 => if existsb (Nat.eqb i) (groups r2) then grp i r2 else grp i r1
  | _ => None
  end.

(** ** The values of the header fields *)

(** [v] is a part of [text] *)
Definition partOf (v text : string) : Prop :=
  exists pre post, text = pre +:+ v +:+ post.

(** what the value of a header field looks like *)
Definition fieldShape (f : fieldType) (v : string) : Prop :=
  match f with
  | F_projectId =>
      exists pre code, v = pre +:+ "PRO" +:+ code /\ digits 7 code
  | F_invoiceNumber | F_customerId => v <> "" /\ digitString v
  | F_dateOfInvoice => lang dateToken v
  | F_currency => String.length v = 3%nat /\ every is_letter v = true
  | F_vat =>
      v <> "" /\ every (fun c => is_letter c || Js.is_digit c) v = true
  | F_serviceProvisionPeriod =>
      exists pre year, v = pre +:+ year /\ pre <> "" /\ digits 4 year
  end.

(** ** The lines of a page *)

(** the line is a boundary of the line items: it holds the word Total or
    Subtotal, and is not the heading of the Position Total column *)
Definition isBoundary (line : string) : bool :=
  test boundaryWord line && negb (test positionTotalHeader line).

(** the line break *)
Definition newline : ascii := "010".

(** ** The records of a page *)

(** the records [rs] are those of the page [pageText], of number
    [pageNumber]: one for each line item of the page, with the number of
    the page and the service period of the page *)
Definition recordsOfPage (page : nat * string) (rs : list record) : Prop :=
  let '(pageNumber, pageText) := page in
  length rs = length (extractLineItems pageText pageNumber) /\
  forall r, r ∈ rs ->
    r !! "pageNumber" = Some (VNum (Js.of_nat pageNumber)) /\
    r !! "serviceProvisionPeriod"
    = Some (VStr (extractServicePeriodFromPage pageText)).

(** ** The line items *)

(** a line item in good order: a position of four digits, a VAT token
    and a total that is a number *)
Definition wellFormedItem (item : record) : Prop :=
  exists position vat total,
    item !! "position" = Some (VStr position) /\ digits 4 position /\
    item !! "vat" = Some (VStr vat) /\ holds vatToken vat /\
    item !! "positionTotal" = Some (VNum total).

(** ** The totals of a page *)

(** the candidates of the scan of the lines of a page, in the order of
    the lines *)
Definition scannedTotals (pageText : string) : list potentialTotal :=
  scanTotalLines [] (Js.lines pageText).

(** a candidate in good order: an amount of magnitude above 1, of
    priority 1 and type Total, or of priority 2 and type Subtotal *)
Definition soundTotal (t : potentialTotal) : Prop :=
  Js.gt (Js.abs (pt_amount t)) one = true /\
  ((pt_priority t = 1 /\ pt_type t = "Total") \/
   (pt_priority t = 2 /\ pt_type t = "Subtotal")).

(** the candidate comes from a line with the word Total and without the
    word Subtotal *)
Definition isTotal (t : potentialTotal) : bool := pt_priority t =? 1.

(** ** Words of a text *)

(** no word ends where [pre] ends: [pre] is empty, or its last character is
    no letter, digit or underscore *)
Definition wordStart (pre : string) : Prop :=
  is_word_at (last_char pre None) = false.

(** no word starts where [post] starts *)
Definition wordEnd (post : string) : Prop := stops Js.is_word post.

(** ** The kinds of pages, for the choice of the total *)






(** ** The markers of a service period *)

(** the abbreviations of the months, with the names they stand for *)
Definition abbreviations : list (string * string) :=
  [("JAN", "January"); ("FEB", "February"); ("MAR", "March");
   ("APR", "April"); ("MAY", "May"); ("JUN", "June");
   ("JUL", "July"); ("AUG", "August"); ("SEP", "September");
   ("OCT", "October"); ("NOV", "November"); ("DEC", "December")].

(** the names of the months, by number *)
Definition nameOfMonth (month : nat) : option string :=
  match month with
  | O => None
  | S i => abbreviations.*2 !! i
  end.

(** a month marker of [text]: after [pre] come the abbreviation [abbr] of
    a month, in any letter case, the white space [gap] and the year
    [year] of four digits, before [post]; the marker is a whole word *)
Definition monthMarker (text pre abbr gap year post : string) : Prop :=
  text = pre +:+ abbr +:+ gap +:+ year +:+ post /\
  Js.toUpperCase abbr ∈ abbreviations.*1 /\
  gap <> "" /\ every Js.is_space gap = true /\ digits 4 year /\
  wordStart pre /\ wordEnd post.

(** a month marker starts at the index [n] of [text] *)
Definition monthMarkerAt (text : string) (n : nat) : Prop :=
  exists pre abbr gap year post,
    monthMarker text pre abbr gap year post /\ String.length pre = n.

(** a numeric token: a month of one or two digits, a point or a slash,
    and a year of four digits *)
Definition numericToken (month : string) (separator : ascii) (year : string)
  : Prop :=
  monthDigits month /\ mem separator "./" = true /\ digits 4 year.

(** the numeric token stands in [text], between [pre] and [post] *)
Definition tokenIn (text pre month : string) (separator : ascii)
    (year post : string) : Prop :=
  text = pre +:+ month +:+ String separator (year +:+ post) /\
  numericToken month separator year.

(** a bare token of [text]: a numeric token that is a whole word *)
Definition bareToken (text pre month : string) (separator : ascii)
    (year post : string) : Prop :=
  tokenIn text pre month separator year post /\ wordStart pre /\ wordEnd post.

(** a bare token starts at the index [n] of [text] *)
Definition bareTokenAt (text : string) (n : nat) : Prop :=
  exists pre month separator year post,
    bareToken text pre month separator year post /\ String.length pre = n.

(** [w] holds no line break *)
Definition oneLine (w : string) : Prop :=
  every (fun c => negb (Js.is_newline c)) w = true.

(** a labelled token of [text]: the words Service and Period, in any letter
    case and on one line, then the numeric token, on the line of Period or
    after white space *)
Definition labelledToken (text month : string) (separator : ascii)
    (year : string) : Prop :=
  exists pre service a period b gap post,
    text = pre +:+ service +:+ a +:+ period +:+ b +:+ gap +:+
           month +:+ String separator (year +:+ post) /\
    Js.toLowerCase service = "service" /\ oneLine a /\
    Js.toLowerCase period = "period" /\ oneLine b /\
    every Js.is_space gap = true /\ numericToken month separator year.
(** * Properties *)

(** ** Strings *)

Lemma app_cons c a b : String c a +:+ b = String c (a +:+ b).
Proof. reflexivity. Qed.

Lemma app_nil_l s : "" +:+ s = s.
Proof. reflexivity. Qed.

Lemma app_nil_r s : s +:+ "" = s.
Proof. induction s as [|c s IH]; [reflexivity|]. rewrite app_cons. by f_equal. Qed.

Lemma app_assoc a b c : (a +:+ b) +:+ c = a +:+ b +:+ c.
Proof.
  induction a as [|x a IH]; [reflexivity|].
  rewrite !app_cons. by f_equal.
Qed.

Lemma length_app a b : String.length (a +:+ b) = (String.length a + String.length b)%nat.
Proof.
  induction a as [|x a IH]; [reflexivity|].
  rewrite app_cons. simpl. by f_equal.
Qed.

Lemma smap_app f a b : Js.smap f (a +:+ b) = Js.smap f a +:+ Js.smap f b.
Proof.
  induction a as [|x a IH]; [reflexivity|].
  rewrite app_cons. simpl. rewrite app_cons. by f_equal.
Qed.

Lemma startsWith_spec sub s :
  Js.startsWith sub s = true <-> exists r, s = sub +:+ r.
Proof.
  revert s. induction sub as [|a sub IH]; intros s; simpl.
  - split; [intros _; by exists s | done].
  - destruct s as [|b s].
    + split; [done | intros [r Hr]; by rewrite app_cons in Hr].
    + rewrite andb_true_iff, Ascii.eqb_eq, IH. split.
      * intros [-> [r ->]]. by exists r.
      * intros [r Hr]. rewrite app_cons in Hr. injection Hr as -> ->. eauto.
Qed.

Lemma includes_spec sub s :
  Js.includes sub s = true <-> exists a b, s = a +:+ sub +:+ b.
Proof.
  induction s as [|c s IH]; simpl; rewrite orb_true_iff, startsWith_spec.
  - split.
    + intros [[r Hr] | ?]; [|done]. exists "", r. by rewrite app_nil_l.
    + intros ([|x a] & b & Hab); [left | by rewrite app_cons in Hab].
      exists b. by rewrite app_nil_l in Hab.
  - rewrite IH. split.
    + intros [[r Hr] | (a & b & ->)].
      * exists "", r. by rewrite app_nil_l.
      * exists (String c a), b. by rewrite app_cons.
    + intros ([|x a] & b & Hab).
      * left. exists b. by rewrite app_nil_l in Hab.
      * right. rewrite app_cons in Hab. injection Hab as -> ->. eauto.
Qed.

(** Text added around a string keeps the occurrences of a substring. *)
Lemma includes_context sub p t s :
  Js.includes sub t = true -> Js.includes sub (p +:+ t +:+ s) = true.
Proof.
  rewrite !includes_spec. intros (a & b & ->).
  exists (p +:+ a), (b +:+ s). by rewrite !app_assoc.
Qed.

(** ** detectCreditNote *)

(** C10.  The credit-note detector is monotone under text extension: when
    it answers true on a text [t], it answers true on every text
    [p + t + s] obtained by adding text before and after [t]. *)
Theorem detectCreditNote_monotone (p t s : string) :
  detectCreditNote t = true -> detectCreditNote (p +:+ t +:+ s) = true.
Proof.
  unfold detectCreditNote. rewrite !existsb_exists.
  intros (indicator & Hin & Hinc). exists indicator. split; [done|].
  unfold Js.toLowerCase in *. rewrite !smap_app. by apply includes_context.
Qed.

Lemma detectCreditNote_monotone_witness :
  detectCreditNote "This is a Credit Note for order 123" = true /\
  detectCreditNote ("Page 1: " +:+ "This is a Credit Note for order 123" +:+ " (copy)") = true.
Proof.
  split; [reflexivity|].
  apply (detectCreditNote_monotone "Page 1: " "This is a Credit Note for order 123" " (copy)").
  reflexivity.
Defined.

(** ** parseAmount *)

Lemma mem_cons c x s : mem c (String x s) = Ascii.eqb c x || mem c s.
Proof. unfold mem. simpl. by rewrite andb_true_r. Qed.

Lemma mem_nil c : mem c "" = false.
Proof. reflexivity. Qed.

Lemma mem_app c a b : mem c (a +:+ b) = mem c a || mem c b.
Proof.
  induction a as [|x a IH]; [reflexivity|].
  rewrite app_cons, !mem_cons, IH. by rewrite orb_assoc.
Qed.

Lemma startsWith_char c x s :
  Js.startsWith (String c "") (String x s) = Ascii.eqb c x.
Proof. simpl. by rewrite andb_true_r. Qed.

Lemma replaceFirst_absent c by_ s :
  absent c s -> Js.replaceFirst (String c "") by_ s = s.
Proof.
  unfold absent. induction s as [|x s IH]; [done|].
  rewrite mem_cons, orb_false_iff. intros [Hx Hs].
  simpl. rewrite andb_true_r, Hx. f_equal. by apply IH.
Qed.

Lemma replaceFirst_char c by_ u r :
  absent c u ->
  Js.replaceFirst (String c "") by_ (u +:+ String c r) = u +:+ by_ +:+ r.
Proof.
  unfold absent. induction u as [|x u IH].
  - intros _. rewrite !app_nil_l. simpl. by rewrite Ascii.eqb_refl.
  - rewrite mem_cons, orb_false_iff. intros [Hx Hu].
    rewrite !app_cons. simpl. rewrite andb_true_r, Hx. f_equal. by apply IH.
Qed.

Lemma removeAll_absent c s : absent c s -> Js.removeAll c s = s.
Proof.
  unfold absent. induction s as [|x s IH]; [done|].
  rewrite mem_cons, orb_false_iff. intros [Hx Hs].
  simpl. rewrite Ascii.eqb_sym, Hx. f_equal. by apply IH.
Qed.

Lemma removeAll_app c a b :
  Js.removeAll c (a +:+ b) = Js.removeAll c a +:+ Js.removeAll c b.
Proof.
  induction a as [|x a IH]; [reflexivity|].
  rewrite app_cons. simpl. destruct (Ascii.eqb x c); [done|].
  rewrite app_cons. by f_equal.
Qed.

Lemma absent_removeAll c d s : absent c s -> absent c (Js.removeAll d s).
Proof.
  unfold absent. induction s as [|x s IH]; [done|].
  rewrite mem_cons, orb_false_iff. intros [Hx Hs]. simpl.
  destruct (Ascii.eqb x d); [by apply IH|].
  rewrite mem_cons, Hx. by apply IH.
Qed.

Lemma endsWith_absent c s : absent c s -> Js.endsWith (String c "") s = false.
Proof.
  unfold absent. induction s as [|x s IH]; [done|].
  rewrite mem_cons, orb_false_iff. intros [Hx Hs].
  simpl. rewrite (IH Hs), orb_false_r.
  destruct s; simpl; [by rewrite Hx | by destruct (Ascii.eqb c x)].
Qed.

Lemma endsWith_app_char c u : Js.endsWith (String c "") (u +:+ String c "") = true.
Proof.
  induction u as [|x u IH].
  - simpl. by rewrite Ascii.eqb_refl.
  - rewrite app_cons. simpl. rewrite IH. apply orb_true_r.
Qed.

Lemma mem_includes c s : Js.includes (String c "") s = mem c s.
Proof. reflexivity. Qed.

(** The last occurrence of a character. *)
Lemma lastIndexOf_at_absent c s i last :
  absent c s -> Js.lastIndexOf_at (String c "") s i last = last.
Proof.
  unfold absent. revert i last. induction s as [|x s IH]; intros i last; [done|].
  rewrite mem_cons, orb_false_iff. intros [Hx Hs].
  simpl. rewrite andb_true_r, Hx. by apply IH.
Qed.

Lemma lastIndexOf_at_last c u r i last :
  absent c r ->
  Js.lastIndexOf_at (String c "") (u +:+ String c r) i last
  = i + Z.of_nat (String.length u).
Proof.
  intros Hr. revert i last. induction u as [|x u IH]; intros i last.
  - rewrite app_nil_l. simpl. rewrite Ascii.eqb_refl. simpl.
    rewrite lastIndexOf_at_absent by done. lia.
  - rewrite app_cons.
    change (Js.lastIndexOf_at (String c "") (String x (u +:+ String c r)) i last)
      with (Js.lastIndexOf_at (String c "") (u +:+ String c r) (i + 1)
              (if Js.startsWith (String c "") (String x (u +:+ String c r))
               then i else last)).
    rewrite IH. simpl String.length. lia.
Qed.

Lemma lastIndexOf_at_before c d u r i last :
  absent c r -> Ascii.eqb c d = false -> last < i + Z.of_nat (String.length u) ->
  Js.lastIndexOf_at (String c "") (u +:+ String d r) i last
  < i + Z.of_nat (String.length u).
Proof.
  intros Hr Hd. revert i last. induction u as [|x u IH]; intros i last Hlast.
  - rewrite app_nil_l. simpl. rewrite andb_true_r, Hd.
    by rewrite lastIndexOf_at_absent.
  - rewrite app_cons.
    change (Js.lastIndexOf_at (String c "") (String x (u +:+ String d r)) i last)
      with (Js.lastIndexOf_at (String c "") (u +:+ String d r) (i + 1)
              (if Js.startsWith (String c "") (String x (u +:+ String d r))
               then i else last)).
    simpl String.length in *.
    replace (i + Z.of_nat (S (String.length u)))
      with (i + 1 + Z.of_nat (String.length u)) by lia.
    apply IH. destruct (Js.startsWith _ _); lia.
Qed.


(** A token without a minus sign is never read as negative. *)
Lemma parseAmount_unsigned t :
  t <> "" -> absent "-" t ->
  parseAmount t =
  Some (Js.parseFloat
          (if Js.includes "," t && (Js.lastIndexOf "." t <? Js.lastIndexOf "," t)
           then Js.replaceFirst "," "." (Js.removeAll "." t)
           else Js.removeAll "," t)).
Proof.
  intros Hne Hminus. unfold parseAmount. destruct t as [|c t]; [done|].
  by rewrite (endsWith_absent _ _ Hminus), (replaceFirst_absent _ _ _ Hminus).
Qed.

Lemma parseAmount_trailing_minus t :
  t <> "" -> absent "-" t ->
  parseAmount (t +:+ "-") = Js.neg <$> parseAmount t.
Proof.
  intros Hne Hminus. rewrite (parseAmount_unsigned t Hne Hminus).
  unfold parseAmount. destruct t as [|c t]; [done|].
  rewrite app_cons, <- app_cons.
  rewrite endsWith_app_char, (replaceFirst_char _ _ _ _ Hminus).
  by rewrite app_nil_l, app_nil_r.
Qed.

(** A comma after the last point is the decimal separator: it becomes the
    decimal point and the points before it are dropped. *)
Lemma parseAmount_decimal_comma u c :
  absent "-" u -> absent "," u -> absent "-" c -> absent "," c -> absent "." c ->
  parseAmount (u +:+ "," +:+ c)
  = Some (Js.parseFloat (Js.removeAll "." u +:+ "." +:+ c)).
Proof.
  intros Hu1 Hu2 Hc1 Hc2 Hc3.
  change (u +:+ "," +:+ c) with (u +:+ String "," c).
  rewrite parseAmount_unsigned.
  - unfold Js.lastIndexOf. rewrite mem_includes, mem_app, mem_cons. simpl.
    rewrite lastIndexOf_at_last by done.
    pose proof (lastIndexOf_at_before "." "," u c 0 (-1) Hc3 eq_refl) as Hlt.
    destruct (Z.ltb_spec (Js.lastIndexOf_at "." (u +:+ String "," c) 0 (-1))
                (0 + Z.of_nat (String.length u))) as [_|Hge]; [|lia].
    rewrite orb_true_r. simpl.
    rewrite removeAll_app. change (Js.removeAll "." (String "," c))
      with (String "," (Js.removeAll "." c)).
    rewrite (removeAll_absent _ _ Hc3).
    rewrite replaceFirst_char by (by apply absent_removeAll). done.
  - by destruct u.
  - unfold absent in *. by rewrite mem_app, mem_cons, Hu1, Hc1.
Qed.

(** A point after the last comma is the decimal separator: it is kept and
    the commas are dropped. *)
Lemma parseAmount_decimal_point u c :
  absent "-" u -> absent "-" c -> absent "," c -> absent "." c ->
  parseAmount (u +:+ "." +:+ c)
  = Some (Js.parseFloat (Js.removeAll "," u +:+ "." +:+ c)).
Proof.
  intros Hu1 Hc1 Hc2 Hc3.
  change (u +:+ "." +:+ c) with (u +:+ String "." c).
  rewrite parseAmount_unsigned.
  - unfold Js.lastIndexOf.
    rewrite (lastIndexOf_at_last "." u c) by done.
    pose proof (lastIndexOf_at_before "," "." u c 0 (-1) Hc2 eq_refl) as Hlt.
    destruct (Z.ltb_spec (0 + Z.of_nat (String.length u))
                (Js.lastIndexOf_at "," (u +:+ String "." c) 0 (-1))) as [Hge|_]; [lia|].
    rewrite andb_false_r.
    rewrite removeAll_app. change (Js.removeAll "," (String "." c))
      with (String "." (Js.removeAll "," c)).
    by rewrite (removeAll_absent _ _ Hc2).
  - by destruct u.
  - unfold absent in *. by rewrite mem_app, mem_cons, Hu1, Hc1.
Qed.

(** C3.  [parseAmount] reads "1.234,56" as 1234.56, "1234,56-" and
    "1.234,56-" as -1234.56 and "50" as 50; a trailing minus sign negates
    the amount; and when a token holds both a point and a comma, the kind
    of separator that occurs last is the decimal point (a comma is turned
    into a point) while every occurrence of the other kind is removed. *)
Theorem parseAmount_european_format :
  parseAmount "1.234,56" = Some (Js.of_decimal false 123456 (-2)) /\
  parseAmount "1234,56-" = Some (Js.neg (Js.of_decimal false 123456 (-2))) /\
  parseAmount "1.234,56-" = Some (Js.neg (Js.of_decimal false 123456 (-2))) /\
  parseAmount "50" = Some (Js.of_decimal false 50 0) /\
  (forall t, t <> "" -> absent "-" t ->
     parseAmount (t +:+ "-") = Js.neg <$> parseAmount t) /\
  (forall t, absent "-" t ->
     Js.includes "," t = true -> Js.includes "." t = true ->
     (Js.lastIndexOf "." t < Js.lastIndexOf "," t ->
      parseAmount t
      = Some (Js.parseFloat (Js.replaceFirst "," "." (Js.removeAll "." t)))) /\
     (Js.lastIndexOf "," t < Js.lastIndexOf "." t ->
      parseAmount t = Some (Js.parseFloat (Js.removeAll "," t)))).
Proof.
  split; [by vm_compute|]. split; [by vm_compute|].
  split; [by vm_compute|]. split; [by vm_compute|].
  split; [apply parseAmount_trailing_minus|].
  intros t Hminus Hcomma Hpoint.
  assert (t <> "") as Hne by (by destruct t).
  rewrite (parseAmount_unsigned t Hne Hminus), Hcomma. simpl. split; intros Hlt.
  - by destruct (Z.ltb_spec (Js.lastIndexOf "." t) (Js.lastIndexOf "," t)); [|lia].
  - by destruct (Z.ltb_spec (Js.lastIndexOf "." t) (Js.lastIndexOf "," t)); [lia|].
Qed.

(** The binary64 values behind the decimal literals of the statement. *)
Lemma binary64_1234_56 :
  Js.of_decimal false 123456 (-2) = S754_finite false 5429652300748554 (-42) /\
  Js.of_decimal false 50 0 = S754_finite false 7036874417766400 (-47).
Proof. by vm_compute. Qed.

(** [parseAmount] answers [null] on the empty token only. *)
Lemma parseAmount_null_iff s : parseAmount s = None <-> s = "".
Proof. destruct s; simpl; split; congruence. Qed.

(** ** Lists *)

Lemma isEmpty_true {A} (l : list A) : isEmpty l = true <-> l = [].
Proof. by destruct l. Qed.

Lemma isEmpty_false {A} (l : list A) : isEmpty l = false <-> l <> [].
Proof. by destruct l. Qed.

Lemma head_elem_of {A} (d : A) (l : list A) :
  isEmpty l = false -> default d (head l) ∈ l.
Proof. destruct l; [done|]. intros _. left. Qed.

(** ** extractInvoiceData: the assembled records *)

Lemma elem_of_numbered (pageTexts : list string) n t :
  (n, t) ∈ numbered pageTexts <-> exists i, n = S i /\ pageTexts !! i = Some t.
Proof.
  unfold numbered. rewrite elem_of_lookup_imap. split.
  - intros (i & y & [= -> ->] & Hi). eauto.
  - intros (i & -> & Hi). eauto.
Qed.

Lemma elem_of_map {A B} (f : A -> B) (l : list A) y :
  y ∈ map f l <-> exists x, y = f x /\ x ∈ l.
Proof.
  rewrite list_elem_of_In, in_map_iff. split.
  - intros (x & <- & Hx). exists x. by rewrite list_elem_of_In.
  - intros (x & -> & Hx). exists x. by rewrite <- list_elem_of_In.
Qed.

Lemma elem_of_concat_map {A B} (f : A -> list B) (l : list A) y :
  y ∈ concat (map f l) <-> exists x, x ∈ l /\ y ∈ f x.
Proof.
  rewrite list_elem_of_In, in_concat. split.
  - intros (ys & (x & <- & Hx)%in_map_iff & Hy). exists x.
    by rewrite !list_elem_of_In.
  - intros (x & Hx & Hy). exists (f x). rewrite !list_elem_of_In in *.
    split; [by apply in_map | done].
Qed.

Lemma elem_of_pageLineItems base (pageTexts : list string) r :
  r ∈ pageLineItems base pageTexts <->
  exists i pageText item,
    pageTexts !! i = Some pageText /\
    item ∈ extractLineItems pageText (S i) /\
    r = pageLineItem base (extractServicePeriodFromPage pageText) (S i) item.
Proof.
  unfold pageLineItems. rewrite elem_of_concat_map. split.
  - intros ([n t] & Hnt & Hr). apply elem_of_numbered in Hnt as (i & -> & Hi).
    apply elem_of_map in Hr as (item & -> & Hitem). by exists i, t, item.
  - intros (i & t & item & Hi & Hitem & ->). exists (S i, t). split.
    + apply elem_of_numbered. eauto.
    + apply elem_of_map. eauto.
Qed.

Lemma pageLineItems_nil base (pageTexts : list string) :
  (forall i t, pageTexts !! i = Some t -> extractLineItems t (S i) = []) ->
  pageLineItems base pageTexts = [].
Proof.
  intros Hnone. destruct (pageLineItems base pageTexts) as [|r l] eqn:E; [done|].
  assert (r ∈ pageLineItems base pageTexts) as Hr by (rewrite E; left).
  apply elem_of_pageLineItems in Hr as (i & t & item & Hi & Hitem & _).
  rewrite (Hnone i t Hi) in Hitem. by apply elem_of_nil in Hitem.
Qed.

(** The shape of the result: the single header-only record, or the line
    items of the pages with the chosen total stamped on each. *)
Lemma extractInvoiceData_shape fullText (pageTexts : list string) fileName :
  let base := baseInvoiceInfo fullText fileName in
  let total := numOrNull (chooseTotal (allPageTotals pageTexts)) in
  extractInvoiceData fullText pageTexts fileName =
  match pageLineItems base pageTexts with
  | [] => [<["extractedInvoiceTotal" := total]> base]
  | items => map (fun item => <["extractedInvoiceTotal" := total]> item) items
  end.
Proof. unfold extractInvoiceData. by destruct (pageLineItems _ _). Qed.

(** C2.  The result of the pipeline on a list of page texts and a file
    name: when no page yields a line item it is exactly one record, the
    header with the resolved total; otherwise it is the list of the line
    items of the pages; and in both cases every record carries the same
    [extractedInvoiceTotal], the total resolved across the pages. *)
Theorem assembled_records_share_total (pageTexts : list string) (fileName : string) :
  let header := baseInvoiceInfo (fullTextOf pageTexts) fileName in
  let total := numOrNull (chooseTotal (allPageTotals pageTexts)) in
  let out := extractDocument pageTexts fileName in
  ((forall i t, pageTexts !! i = Some t -> extractLineItems t (S i) = []) ->
   out = [<["extractedInvoiceTotal" := total]> header]) /\
  (pageLineItems header pageTexts <> [] ->
   length out = length (pageLineItems header pageTexts)) /\
  (forall r, r ∈ out -> r !! "extractedInvoiceTotal" = Some total).
Proof.
  intros header total out. unfold out, extractDocument.
  rewrite extractInvoiceData_shape. fold header total.
  split; [|split].
  - intros Hnone. by rewrite pageLineItems_nil.
  - destruct (pageLineItems header pageTexts); [done|]. intros _.
    by rewrite length_map.
  - intros r. destruct (pageLineItems header pageTexts) as [|item items].
    + intros ->%list_elem_of_singleton. apply lookup_insert_eq.
    + intros (item' & -> & _)%elem_of_map. apply lookup_insert_eq.
Qed.

(** ** extractInvoiceData: the merge of header and line item *)

Lemma structuredItem_isItem line : Forall isItem (structuredItem line).
Proof.
  unfold structuredItem. destruct (exec structuredPattern line); [|done].
  destruct (parseAmount _); [|done].
  repeat constructor. unfold isItem. by repeat eexists.
Qed.

Lemma flexibleItem_isItem line : Forall isItem (flexibleItem line).
Proof.
  unfold flexibleItem.
  destruct (0 <=? _); [|done]. destruct (_ && _); [|done].
  destruct (scanDescription _ _) as [description quantity].
  destruct (match at_index _ _ with Some p => parseAmount p | None => None end);
    [|done].
  repeat constructor. unfold isItem. by repeat eexists.
Qed.

Lemma simpleItem_isItem line : Forall isItem (simpleItem line).
Proof.
  unfold simpleItem.
  destruct (exec simplePattern line); [|done].
  destruct (parseAmount _); [|done].
  repeat constructor. unfold isItem. by repeat eexists.
Qed.

Lemma Forall_concat_map {A B} (P : B -> Prop) (f : A -> list B) (l : list A) :
  (forall x, Forall P (f x)) -> Forall P (concat (map f l)).
Proof.
  intros Hf. apply Forall_forall. intros y (x & _ & Hy)%elem_of_concat_map.
  by eapply Forall_forall in Hy.
Qed.

Lemma extractLineItems_isItem pageText pageNumber :
  Forall isItem (extractLineItems pageText pageNumber).
Proof.
  unfold extractLineItems, strategy1, strategy2, strategy3.
  repeat case_match;
    auto using Forall_concat_map, structuredItem_isItem, flexibleItem_isItem,
               simpleItem_isItem.
Qed.

Lemma mkItem_dom p m d q u v up pt tc :
  dom (mkItem p m d q u v up pt tc) =
  list_to_set (C := gset string)
    ["position"; "material"; "positionDescription"; "positionQuantity"; "unit";
     "vat"; "unitPrice"; "positionTotal"; "typeCost"].
Proof. unfold mkItem. by rewrite dom_list_to_map_L. Qed.

Lemma mkItem_lookup_vat p m d q u v up pt tc :
  mkItem p m d q u v up pt tc !! "vat" = Some (VStr v).
Proof. unfold mkItem. simpl. by simplify_map_eq. Qed.

Lemma baseInvoiceInfo_dom fullText fileName :
  dom (baseInvoiceInfo fullText fileName) =
  list_to_set (C := gset string)
    ["fileName"; "projectId"; "invoiceNumber"; "customerId"; "dateOfInvoice";
     "monthOfInvoice"; "currency"; "vat"; "creditNote"].
Proof. unfold baseInvoiceInfo. by rewrite dom_list_to_map_L. Qed.

Lemma header_field_not_assembler fullText fileName k :
  is_Some (baseInvoiceInfo fullText fileName !! k) -> k ∉ assemblerFields.
Proof.
  intros Hk%elem_of_dom. rewrite baseInvoiceInfo_dom in Hk.
  apply elem_of_list_to_set in Hk.
  repeat (apply elem_of_cons in Hk as [-> | Hk]; [compute_done|]).
  by apply elem_of_nil in Hk.
Qed.

Lemma not_assembler_field k :
  k ∉ assemblerFields ->
  "serviceProvisionPeriod" <> k /\ "pageNumber" <> k /\ "extractedInvoiceTotal" <> k.
Proof.
  unfold assemblerFields. rewrite !not_elem_of_cons.
  intros (? & ? & ? & _). by repeat split.
Qed.

(** The fields of a line-item record: the line item's own fields first,
    then the header's, the assembler's three fields apart. *)
Lemma pageLineItem_lookup base period n item k :
  k ∉ assemblerFields ->
  pageLineItem base period n item !! k =
  match item !! k with
  | Some v => Some v
  | None => base !! k
  end.
Proof.
  intros (Hk1 & Hk2 & Hk3)%not_assembler_field. unfold pageLineItem, spread.
  rewrite !lookup_insert_ne by done.
  rewrite lookup_union. destruct (item !! k) eqn:E; simpl.
  - by rewrite union_Some_l.
  - rewrite lookup_insert_ne by done. by destruct (base !! k).
Qed.

(** C4 as stated fails: the header of this document carries the VAT
    identifier NL123456789B01, its line item the VAT token 21%(V1), and
    the merged record carries the line item's value. *)
Lemma header_vat_is_overridden :
  baseInvoiceInfo (fullTextOf vatCollisionPages) "invoice.pdf" !! "vat"
  = Some (VStr "NL123456789B01") /\
  map (fun r : record => r !! "vat") (extractDocument vatCollisionPages "invoice.pdf")
  = [Some (VStr "21%(V1)")].
Proof. by vm_compute. Qed.

(** C4, amended.  When the assembler merges a line item with the header
    fields, the line item's fields take precedence on name collisions:
    every record of the result is either the header-only record or the
    merge of a line item of some page, and then every field present in
    both the header and the line item ([vat] is the one there is) carries
    the line item's value, the header's value being kept for the fields
    the line item does not have. *)
Theorem line_item_fields_take_precedence
    (pageTexts : list string) (fileName : string) (r : record) :
  let header := baseInvoiceInfo (fullTextOf pageTexts) fileName in
  let total := numOrNull (chooseTotal (allPageTotals pageTexts)) in
  r ∈ extractDocument pageTexts fileName ->
  r = <["extractedInvoiceTotal" := total]> header \/
  exists i pageText item,
    pageTexts !! i = Some pageText /\
    item ∈ extractLineItems pageText (S i) /\
    (forall k, is_Some (header !! k) -> is_Some (item !! k) -> r !! k = item !! k) /\
    (exists v, item !! "vat" = Some (VStr v) /\ r !! "vat" = Some (VStr v)) /\
    (forall k, item !! k = None -> k ∉ assemblerFields -> r !! k = header !! k).
Proof.
  intros header total. unfold extractDocument.
  rewrite extractInvoiceData_shape. fold header total.
  destruct (pageLineItems header pageTexts) as [|r0 items] eqn:E.
  { intros ->%list_elem_of_singleton. by left. }
  rewrite <- E. intros (r' & -> & Hr')%elem_of_map. right.
  apply elem_of_pageLineItems in Hr' as (i & t & item & Hi & Hitem & ->).
  exists i, t, item. split; [done|]. split; [done|].
  assert (forall k, k ∉ assemblerFields ->
            <["extractedInvoiceTotal" := total]>
              (pageLineItem header (extractServicePeriodFromPage t) (S i) item) !! k
            = match item !! k with Some v => Some v | None => header !! k end)
    as Hlookup.
  { intros k Hk. pose proof (not_assembler_field k Hk) as (_ & _ & Hk3).
    rewrite lookup_insert_ne by done. by apply pageLineItem_lookup. }
  split; [|split].
  - intros k Hheader [v Hv]. rewrite Hlookup, Hv; [done|].
    by eapply header_field_not_assembler.
  - pose proof (extractLineItems_isItem t (S i)) as Hall.
    eapply Forall_forall in Hall; [|done].
    destruct Hall as (p & m & d & q & u & v & up & pt & tc & ->).
    exists v. rewrite Hlookup by compute_done.
    by rewrite mkItem_lookup_vat.
  - intros k Hnone Hk. by rewrite Hlookup, Hnone.
Qed.

Lemma line_item_fields_take_precedence_witness :
  let r := default ∅ (head (extractDocument vatCollisionPages "invoice.pdf")) in
  r ∈ extractDocument vatCollisionPages "invoice.pdf" /\
  (r = <["extractedInvoiceTotal" :=
           numOrNull (chooseTotal (allPageTotals vatCollisionPages))]>
         (baseInvoiceInfo (fullTextOf vatCollisionPages) "invoice.pdf") \/
   exists i pageText item,
     vatCollisionPages !! i = Some pageText /\
     item ∈ extractLineItems pageText (S i) /\
     (forall k, is_Some (baseInvoiceInfo (fullTextOf vatCollisionPages) "invoice.pdf" !! k) ->
                is_Some (item !! k) -> r !! k = item !! k) /\
     (exists v, item !! "vat" = Some (VStr v) /\ r !! "vat" = Some (VStr v)) /\
     (forall k, item !! k = None -> k ∉ assemblerFields ->
                r !! k = baseInvoiceInfo (fullTextOf vatCollisionPages) "invoice.pdf" !! k)).
Proof.
  intros r.
  assert (r ∈ extractDocument vatCollisionPages "invoice.pdf") as Hr
    by (apply head_elem_of; vm_compute; reflexivity).
  split; [exact Hr|].
  exact (line_item_fields_take_precedence vatCollisionPages "invoice.pdf" r Hr).
Defined.

(** ** extractLineItems: Strategy 2 *)

Lemma findIndex_from_range p l i :
  findIndex_from p l i = -1 \/
  (i <= findIndex_from p l i < i + Z.of_nat (length l)).
Proof.
  revert i. induction l as [|x l IH]; intros i; simpl; [by left|].
  destruct (p x i); [right; lia|].
  destruct (IH (i + 1)) as [->|?]; [by left | right; lia].
Qed.

Lemma findIndex_from_found p l i :
  0 <= i -> i <= findIndex_from p l i ->
  exists x, l !! Z.to_nat (findIndex_from p l i - i) = Some x /\
            p x (findIndex_from p l i) = true.
Proof.
  revert i. induction l as [|x l IH]; intros i Hi; simpl; [lia|].
  destruct (p x i) eqn:Hp.
  - intros _. exists x. by rewrite Z.sub_diag.
  - intros Hle. destruct (findIndex_from_range p l (i + 1)) as [Hnone|Hrange].
    + rewrite Hnone in Hle. lia.
    + destruct (IH (i + 1)) as (y & Hy & Hpy); [lia..|].
      exists y. split; [|done].
      replace (Z.to_nat (findIndex_from p l (i + 1) - i))
        with (S (Z.to_nat (findIndex_from p l (i + 1) - (i + 1)))) by lia.
      done.
Qed.

Lemma findIndex_found p l :
  0 <= findIndex p l ->
  exists x, at_index l (findIndex p l) = Some x /\ p x (findIndex p l) = true.
Proof.
  intros Hi. destruct (findIndex_from_found p l 0) as (x & Hx & Hp); [done..|].
  exists x. split; [|done]. unfold at_index.
  destruct (Z.ltb_spec (findIndex p l) 0); [lia|].
  by rewrite Z.sub_0_r in Hx.
Qed.

Lemma findIndex_range p l :
  findIndex p l = -1 \/ (0 <= findIndex p l < Z.of_nat (length l)).
Proof. apply findIndex_from_range. Qed.

Lemma at_index_is_Some (parts : list string) i :
  0 <= i < Z.of_nat (length parts) -> is_Some (at_index parts i).
Proof.
  intros Hi. unfold at_index.
  destruct (Z.ltb_spec i 0); [lia|]. apply lookup_lt_is_Some. lia.
Qed.

Lemma elem_of_slice from to (l : list string) p :
  0 <= from -> p ∈ slice from to l ->
  exists i, from <= i < to /\ at_index l i = Some p.
Proof.
  intros Hfrom (j & Hj)%list_elem_of_lookup. unfold slice in Hj.
  apply lookup_take_Some in Hj as [Hj Hlt]. rewrite lookup_drop in Hj.
  exists (from + Z.of_nat j). split; [lia|].
  unfold at_index. destruct (Z.ltb_spec (from + Z.of_nat j) 0); [lia|].
  by replace (Z.to_nat (from + Z.of_nat j)) with (Z.to_nat from + j)%nat by lia.
Qed.

(** The quantity found by the scan is the default 1 or the value of one of
    the scanned tokens, a bare number. *)
Lemma scanDescription_quantity tokens description :
  (scanDescription tokens description).2 = one \/
  exists p, p ∈ tokens /\ test numberShape p = true /\
    (scanDescription tokens description).2
    = Js.parseFloat (Js.replaceFirst "," "." p).
Proof.
  revert description. induction tokens as [|part tokens IH]; intros description;
    simpl; [by left|].
  destruct (test numberShape part) eqn:Hshape; simpl.
  - destruct (Js.includes part description); simpl.
    + destruct (IH (description +:+ part +:+ " ")) as [?|(p & ? & ? & ?)];
        [by left|]. right. exists p. by rewrite elem_of_cons; auto.
    + right. exists part. split; [left|]. done.
  - destruct (IH (description +:+ part +:+ " ")) as [?|(p & ? & ? & ?)];
      [by left|]. right. exists p. by rewrite elem_of_cons; auto.
Qed.

Lemma mkItem_lookup_unitPrice p m d q u v up pt tc :
  mkItem p m d q u v up pt tc !! "unitPrice" = Some up.
Proof. unfold mkItem. simpl. by simplify_map_eq. Qed.

Lemma mkItem_lookup_positionQuantity p m d q u v up pt tc :
  mkItem p m d q u v up pt tc !! "positionQuantity" = Some (VNum q).
Proof. unfold mkItem. simpl. by simplify_map_eq. Qed.

(** C5 as stated fails: on this line, parsed by Strategy 2, the token just
    before the VAT anchor reads 5 while the unit price of the item is 100,
    the value of the token just after the anchor. *)
Lemma unitPrice_is_not_the_token_before_the_anchor :
  let parts := tokensOf fiveDigitMaterialLine in
  candidateLines fiveDigitMaterialLine = [fiveDigitMaterialLine] /\
  strategy1 [fiveDigitMaterialLine] = [] /\
  (at_index parts (vatIndexOf parts - 1) ≫= parseAmount)
  = Some (Js.of_decimal false 5 0) /\
  map (fun r : record => r !! "unitPrice") (extractLineItems fiveDigitMaterialLine 1)
  = [Some (VNum (Js.of_decimal false 100 0))].
Proof. by vm_compute. Qed.

(** On the same line the number 5 stands between the material code and
    the VAT anchor, and the quantity of the item is the default 1: the
    scan for the quantity stops two tokens before the anchor. *)
Lemma quantity_next_to_the_anchor_is_not_read :
  let parts := tokensOf fiveDigitMaterialLine in
  at_index parts (vatIndexOf parts - 1) = Some "5" /\
  map (fun r : record => r !! "positionQuantity")
      (extractLineItems fiveDigitMaterialLine 1)
  = [Some (VNum one)].
Proof. by vm_compute. Qed.

(** C5, amended.  For every item that Strategy 2 produces from a line,
    whose [vat] is the first token holding a VAT anchor, [unitPrice] is
    the parsed value of the token immediately after the VAT-anchor token
    (that token exists), 0 standing in when the value is not a number or
    is zero; and [positionQuantity] is 1 when none of the
    tokens between the material code and the VAT anchor is a bare number,
    any other quantity being the value of a bare-number token between
    them. *)
Theorem flexibleItem_unitPrice_and_quantity (line : string) (item : record) :
  let parts := tokensOf line in
  let posIndex := posIndexOf parts in
  let vatIndex := vatIndexOf parts in
  item ∈ flexibleItem line ->
  (exists anchor, at_index parts vatIndex = Some anchor /\
     test vatToken anchor = true /\ item !! "vat" = Some (VStr anchor)) /\
  is_Some (at_index parts (vatIndex + 1)) /\
  item !! "unitPrice"
  = Some (VNum (orZero (at_index parts (vatIndex + 1) ≫= parseAmount))) /\
  (exists q, item !! "positionQuantity" = Some (VNum q) /\
     (q = one \/
      exists i p, posIndex + 1 < i < vatIndex /\ at_index parts i = Some p /\
        test numberShape p = true /\
        q = Js.parseFloat (Js.replaceFirst "," "." p))) /\
  ((forall i p, posIndex + 1 < i < vatIndex -> at_index parts i = Some p ->
      test numberShape p = false) ->
   item !! "positionQuantity" = Some (VNum one)).
Proof.
  intros parts posIndex vatIndex. unfold flexibleItem.
  fold (tokensOf line). fold parts. fold (posIndexOf parts). fold posIndex.
  fold (vatIndexOf parts). fold vatIndex.
  set (amountIndex := findIndex _ parts).
  destruct (Z.leb_spec 0 posIndex) as [Hpos|]; [|by intros ?%elem_of_nil].
  destruct (Z.ltb_spec posIndex vatIndex) as [Hvat|]; [|by intros ?%elem_of_nil].
  destruct (Z.ltb_spec vatIndex amountIndex) as [Hamount|]; simpl;
    [|by intros ?%elem_of_nil].
  pose proof (scanDescription_quantity (slice (posIndex + 2) (vatIndex - 2) parts) "")
    as Hq.
  destruct (scanDescription _ _) as [description quantity]. simpl in Hq.
  destruct (match at_index parts amountIndex with
            | Some p => parseAmount p | None => None end) as [positionTotal|];
    [|by intros ?%elem_of_nil].
  intros ->%list_elem_of_singleton.
  rewrite mkItem_lookup_unitPrice, mkItem_lookup_positionQuantity,
    mkItem_lookup_vat.
  assert (quantity = one \/
          exists i p, posIndex + 1 < i < vatIndex /\ at_index parts i = Some p /\
            test numberShape p = true /\
            quantity = Js.parseFloat (Js.replaceFirst "," "." p)) as Hq'.
  { destruct Hq as [->|(p & Hp & Hshape & ->)]; [by left|right].
    apply elem_of_slice in Hp as (i & Hi & Hip); [|lia].
    exists i, p. repeat split; (done || lia). }
  split; [|split; [|split; [|split]]].
  - destruct (findIndex_found (fun p _ => test vatToken p) parts)
      as (anchor & Hanchor & Htest); [fold (vatIndexOf parts); fold vatIndex; lia|].
    fold (vatIndexOf parts) in Hanchor. fold vatIndex in Hanchor.
    exists anchor. rewrite Hanchor. repeat split; [done|].
    destruct anchor; [by vm_compute in Htest|done].
  - apply at_index_is_Some.
    assert (amountIndex = -1 \/ 0 <= amountIndex < Z.of_nat (length parts))
      as [?|?] by apply findIndex_range; lia.
  - by destruct (at_index parts (vatIndex + 1)).
  - by exists quantity.
  - intros Hnone. destruct Hq' as [->|(i & p & Hi & Hip & Hshape & _)]; [done|].
    by rewrite (Hnone i p Hi Hip) in Hshape.
Qed.

Lemma flexibleItem_unitPrice_and_quantity_witness :
  let item := default ∅ (head (flexibleItem fiveDigitMaterialLine)) in
  let parts := tokensOf fiveDigitMaterialLine in
  item ∈ flexibleItem fiveDigitMaterialLine /\
  item !! "unitPrice"
  = Some (VNum (orZero (at_index parts (vatIndexOf parts + 1) ≫= parseAmount))).
Proof.
  intros item parts.
  assert (item ∈ flexibleItem fiveDigitMaterialLine) as Hitem
    by (apply head_elem_of; vm_compute; reflexivity).
  split; [exact Hitem|].
  exact (proj1 (proj2 (proj2
           (flexibleItem_unitPrice_and_quantity fiveDigitMaterialLine item Hitem)))).
Defined.

(** ** extractServicePeriodFromPage *)

(** The three rules, in order. *)
Lemma extractServicePeriodFromPage_rules pageText :
  extractServicePeriodFromPage pageText =
  match exec monthPattern pageText with
  | Some m =>
      spaced (monthMap !! Js.toUpperCase (group_str 1 pageText m))
             (group_str 2 pageText m)
  | None =>
      match fallbackPeriod pageText fallbackPattern1 with
      | Some servicePeriod => servicePeriod
      | None =>
          match fallbackPeriod pageText fallbackPattern2 with
          | Some servicePeriod => servicePeriod
          | None => "Unknown Period"
          end
      end
  end.
Proof.
  unfold extractServicePeriodFromPage, fallbackPatterns.
  destruct (exec monthPattern pageText); [done|]. cbn [firstSome].
  destruct (fallbackPeriod pageText fallbackPattern1); [done|].
  by destruct (fallbackPeriod pageText fallbackPattern2).
Qed.

(** A fallback pattern yields a period only for a month from 1 to 12. *)
Lemma fallbackPeriod_Some pageText pattern servicePeriod :
  fallbackPeriod pageText pattern = Some servicePeriod <->
  exists m name,
    exec pattern pageText = Some m /\
    (1 <= parseInt (group_str 1 pageText m) <= 12)%nat /\
    monthNames !! parseInt (group_str 1 pageText m) = Some name /\
    servicePeriod = name +:+ " " +:+ group_str 2 pageText m.
Proof.
  unfold fallbackPeriod. split.
  - destruct (exec pattern pageText) as [m|]; [|done].
    destruct (Nat.leb_spec 1 (parseInt (group_str 1 pageText m))); [|done].
    destruct (Nat.leb_spec (parseInt (group_str 1 pageText m)) 12); [|done].
    simpl. intros [= <-].
    destruct (lookup_lt_is_Some_2 monthNames (parseInt (group_str 1 pageText m)))
      as [name Hname]; [simpl; lia|].
    exists m, name. by rewrite Hname.
  - intros (m & name & -> & [H1 H2] & Hname & ->).
    destruct (Nat.leb_spec 1 (parseInt (group_str 1 pageText m))); [|lia].
    destruct (Nat.leb_spec (parseInt (group_str 1 pageText m)) 12); [|lia].
    simpl. by rewrite Hname.
Qed.

(** C8 as stated fails: this text contains "JAN 2024", and the period
    returned is that of the first month found, February 2023. *)
Lemma first_month_wins :
  Js.includes "JAN 2024" "FEB 2023 JAN 2024" = true /\
  extractServicePeriodFromPage "FEB 2023 JAN 2024" = "February 2023".
Proof. by vm_compute. Qed.

(** ** Sorting with a comparator *)

Section SortFacts.
Context {A : Type} (compare : A -> A -> Z).
Hypothesis compare_total : forall a b, compare a b <= 0 \/ compare b a <= 0.
Hypothesis compare_trans :
  forall a b c, compare a b <= 0 -> compare b c <= 0 -> compare a c <= 0.

Lemma head_insert_sorted x l :
  head (insert_sorted compare x l) =
  match head l with
  | None => Some x
  | Some y => if compare x y <=? 0 then Some x else Some y
  end.
Proof. destruct l as [|y l]; simpl; [done|]. by destruct (compare x y <=? 0). Qed.


End SortFacts.

(** ** extractInvoiceData: the choice of the total *)







(** ** The matcher is sound for the meaning of patterns *)

Lemma orelse_Some {A} (x : option A) (y : unit -> option A) a :
  orelse x y = Some a -> x = Some a \/ (x = None /\ y tt = Some a).
Proof. destruct x; simpl; intros; simplify_eq; auto. Qed.

Lemma rep_loop_sound m gs greedy k (P : mstate -> mstate -> Prop) :
  (forall k s e, m k s = Some e -> exists s', P s s' /\ k s' = Some e) ->
  forall fuel min max s e,
    rep_loop m gs greedy k fuel min max s = Some e ->
    exists n s', within n min max /\
      iter_rel n (fun a b => P (clear_caps gs a) b) s s' /\ k s' = Some e.
Proof.
  intros Hm. induction fuel as [|fuel IH]; intros min max s e; [done|].
  assert (forall e',
    m (fun s' =>
         if (min =? 0)%nat && (pos s' =? pos s)%nat then None
         else rep_loop m gs greedy k fuel (Nat.pred min) (option_map Nat.pred max) s')
      (clear_caps gs s) = Some e' ->
    max <> Some O ->
    exists n s', within n min max /\
      iter_rel n (fun a b => P (clear_caps gs a) b) s s' /\ k s' = Some e')
    as Hagain.
  { intros e' He' Hmax. apply Hm in He' as (s1 & Hs1 & He').
    destruct ((min =? 0)%nat && (pos s1 =? pos s)%nat); [done|].
    apply IH in He' as (n & s' & [Hmin Hbound] & Hiter & Hk).
    exists (S n), s'. split; [|split; [|done]].
    - split.
      + destruct Hmin as [Hmin|Hmin]; [left; lia|right].
        destruct max as [[|b]|]; simplify_eq/=; done.
      + intros b ->. destruct b as [|b]; [done|].
        specialize (Hbound b eq_refl). lia.
    - simpl. eauto. }
  assert (forall e', k s = Some e' -> (min = 0)%nat \/ max = Some O ->
          exists n s', within n min max /\
            iter_rel n (fun a b => P (clear_caps gs a) b) s s' /\ k s' = Some e')
    as Hstop.
  { intros e' Hk Hzero. exists O, s. split; [|done]. split; [|intros; lia].
    destruct Hzero as [->| ->]; [left; lia | by right]. }
  simpl. destruct max as [[|b]|].
  - intros Hk. apply Hstop; auto.
  - destruct (Nat.ltb_spec 0 min); [intros H'; by apply Hagain|].
    destruct greedy.
    + intros [H'|[_ H']]%orelse_Some; [by apply Hagain | apply Hstop; [done|lia]].
    + intros [H'|[_ H']]%orelse_Some; [apply Hstop; [done|lia] | by apply Hagain].
  - destruct (Nat.ltb_spec 0 min); [intros H'; by apply Hagain|].
    destruct greedy.
    + intros [H'|[_ H']]%orelse_Some; [by apply Hagain | apply Hstop; [done|lia]].
    + intros [H'|[_ H']]%orelse_Some; [apply Hstop; [done|lia] | by apply Hagain].
Qed.

(** Every state the matcher hands to its continuation is one that the
    pattern reaches. *)
Lemma run_sound r : forall k s e,
  run r k s = Some e -> exists s', steps r s s' /\ k s' = Some e.
Proof.
  induction r as [|p|r1 IH1 r2 IH2|r1 IH1 r2 IH2|min max greedy r1 IH1|i r1 IH1
                  | |ml|ml|r1 IH1]; intros k s e; cbn [run steps].
  - eauto.
  - destruct (rest s) as [|c t] eqn:E; [done|].
    destruct (p c) eqn:Hp; [|done]. intros Hk. eexists. split; [|done]. eauto.
  - intros (s1 & H1 & H)%IH1. apply IH2 in H as (s2 & H2 & H). eauto.
  - intros [H|[_ H]]%orelse_Some.
    + apply IH1 in H as (s' & ? & ?). eauto.
    + apply IH2 in H as (s' & ? & ?). eauto.
  - intros H. eapply rep_loop_sound in H as (n & s' & ? & ? & ?); [|exact IH1].
    eauto.
  - intros (s1 & H1 & H)%IH1. eauto.
  - destruct (xorb _ _); [|done]. eauto.
  - destruct (prev s) as [c|]; [|by eauto].
    destruct (ml && Js.is_newline c); [|done]. eauto.
  - destruct (next s) as [c|]; [|by eauto].
    destruct (ml && Js.is_newline c); [|done]. eauto.
  - destruct (run r1 Some s); [done|]. eauto.
Qed.

Lemma exec_at_sound r i prev rest f :
  exec_at r i prev rest = Some f ->
  exists k prev',
    (k <= String.length rest)%nat /\ f_index f = (i + k)%nat /\
    steps r (MState (i + k) prev' (Js.drop k rest) []) (f_end f).
Proof.
  revert i prev. induction rest as [|c t IH]; intros i prev; simpl.
  - destruct (run r Some _) as [e|] eqn:E; [|done]. intros [= <-].
    apply run_sound in E as (s' & Hs' & [= <-]).
    exists O, prev. rewrite Nat.add_0_r. by repeat split.
  - destruct (run r Some _) as [e|] eqn:E.
    + intros [= <-]. apply run_sound in E as (s' & Hs' & [= <-]).
      exists O, prev. rewrite Nat.add_0_r. repeat split; [lia|done].
    + intros (k & prev' & Hk & Hindex & Hsteps)%IH.
      exists (S k), prev'. rewrite <- Nat.add_succ_comm. repeat split; [lia|done..].
Qed.

Lemma exec_sound r text f :
  exec r text = Some f ->
  exists prev,
    (f_index f <= String.length text)%nat /\
    steps r (MState (f_index f) prev (Js.drop (f_index f) text) []) (f_end f).
Proof.
  intros (k & prev & Hk & Hindex & Hsteps)%exec_at_sound.
  simpl in *. subst. eauto.
Qed.

(** ** From end states to words *)

Lemma moved_refl s : moved "" s s.
Proof. split; [done | simpl; lia]. Qed.

Lemma moved_trans u v s s1 s' :
  moved u s s1 -> moved v s1 s' -> moved (u +:+ v) s s'.
Proof.
  intros [Hr1 Hp1] [Hr2 Hp2]. split.
  - by rewrite Hr1, Hr2, app_assoc.
  - rewrite length_app. lia.
Qed.

Lemma moved_clear_caps w gs s s' : moved w (clear_caps gs s) s' -> moved w s s'.
Proof. by destruct gs. Qed.

Lemma iter_steps_lang r1 gs
    (IH : forall s s', steps r1 s s' -> exists w, moved w s s' /\ lang r1 w) n :
  forall s s',
    iter_rel n (fun a b => steps r1 (clear_caps gs a) b) s s' ->
    exists w, moved w s s' /\ iter_lang n (lang r1) w.
Proof.
  induction n as [|n IHn]; intros s s'; simpl.
  - intros ->. exists "". split; [apply moved_refl | done].
  - intros (s1 & (u & Hu%moved_clear_caps & Hlu)%IH & (v & Hv & Hlv)%IHn).
    exists (u +:+ v). split; [by eapply moved_trans|]. by exists u, v.
Qed.

(** A pattern moves the cursor over a word of its language. *)
Lemma steps_lang r : forall s s',
  steps r s s' -> exists w, moved w s s' /\ lang r w.
Proof.
  induction r as [|p|r1 IH1 r2 IH2|r1 IH1 r2 IH2|min max greedy r1 IH1|i r1 IH1
                  | |ml|ml|r1 IH1]; intros s s'; cbn [steps lang].
  - intros ->. exists "". split; [apply moved_refl | done].
  - intros (c & t & Hrest & Hp & ->). exists (String c "").
    split; [|by exists c]. split; simpl; [done|lia].
  - intros (s1 & (u & Hu & Hlu)%IH1 & (v & Hv & Hlv)%IH2).
    exists (u +:+ v). split; [by eapply moved_trans|]. by exists u, v.
  - intros [(w & ? & ?)%IH1|(w & ? & ?)%IH2]; exists w; auto.
  - intros (n & Hn & (w & Hw & Hlw)%(iter_steps_lang r1 _ IH1)).
    exists w. split; [done|]. by exists n.
  - intros (s1 & (w & Hw & Hlw)%IH1 & ->). by exists w.
  - intros [_ ->]. exists "". split; [apply moved_refl | done].
  - intros [_ ->]. exists "". split; [apply moved_refl | done].
  - intros [_ ->]. exists "". split; [apply moved_refl | done].
  - intros [_ ->]. exists "". split; [apply moved_refl | done].
Qed.

Lemma steps_Seq r1 r2 s e :
  steps (Seq r1 r2) s e ->
  exists w s1, moved w s s1 /\ lang r1 w /\ steps r2 s1 e.
Proof. intros (s1 & (w & ? & ?)%steps_lang & ?). by exists w, s1. Qed.

(** A group records the span of the word it matched. *)
Lemma steps_Grp i r1 s e :
  steps (Grp i r1) s e ->
  exists w, moved w s e /\ lang r1 w /\
            lookup_cap i (caps e) = Some (pos s, pos e).
Proof.
  intros (s1 & (w & Hw & Hlw)%steps_lang & ->). exists w.
  repeat split; [apply Hw..|done|]. simpl. by rewrite Nat.eqb_refl.
Qed.

Lemma at_text_moved text w s s' :
  at_text text s -> moved w s s' ->
  exists pre, text = pre +:+ w +:+ rest s' /\ pos s = String.length pre /\
              at_text text s'.
Proof.
  intros (pre & Htext & Hpos) [Hrest Hpos']. exists pre.
  split; [by rewrite <- Hrest|]. split; [done|].
  exists (pre +:+ w). rewrite app_assoc, length_app.
  split; [by rewrite Htext, Hrest | lia].
Qed.

Lemma drop_app_length u v : Js.drop (String.length u) (u +:+ v) = v.
Proof. induction u as [|c u IH]; [done|]. by rewrite app_cons. Qed.

Lemma take_app_length u v : Js.take (String.length u) (u +:+ v) = u.
Proof.
  induction u as [|c u IH]; [by destruct v|]. rewrite app_cons. simpl. by f_equal.
Qed.

Lemma take_drop n s : Js.take n s +:+ Js.drop n s = s.
Proof.
  revert s. induction n as [|n IH]; intros [|c s]; simpl; try done.
  rewrite app_cons. by f_equal.
Qed.

Lemma length_take n s : (n <= String.length s)%nat -> String.length (Js.take n s) = n.
Proof.
  revert s. induction n as [|n IH]; intros [|c s]; simpl; try done; try lia.
  intros ?. f_equal. apply IH. lia.
Qed.

Lemma substr_middle u v w :
  substr (String.length u) (String.length u + String.length v) (u +:+ v +:+ w) = v.
Proof.
  unfold substr. rewrite drop_app_length.
  replace (String.length u + String.length v - String.length u)%nat
    with (String.length v) by lia.
  apply take_app_length.
Qed.

Lemma exec_at_text r text f :
  exec r text = Some f ->
  exists s, at_text text s /\ steps r s (f_end f).
Proof.
  intros (prev & Hlen & Hsteps)%exec_sound. eexists. split; [|exact Hsteps].
  exists (Js.take (f_index f) text). simpl.
  by rewrite take_drop, length_take.
Qed.

(** ** The matcher finds the greedy match of a repeated class *)

Lemma after_nil t s : rest s = t -> after "" t s = s.
Proof. destruct s. unfold after. simpl. intros ->. by rewrite Nat.add_0_r. Qed.

Lemma after_cons c w t i pv r cs :
  after w t (MState (S i) (Some c) r cs) = after (String c w) t (MState i pv (String c r) cs).
Proof. unfold after. simpl. f_equal. lia. Qed.

Lemma after_app u v t s : after v t (after u (v +:+ t) s) = after (u +:+ v) t s.
Proof.
  unfold after. simpl. rewrite length_app. f_equal; [lia|].
  generalize (prev s). induction u as [|c u IH]; intros pv; [done|].
  rewrite app_cons. simpl. apply IH.
Qed.

Lemma rep_class_greedy p m k e w
    (Hm : forall k s, m k s = run (Chr p) k s) : forall t fuel min max s,
  rest s = w +:+ t -> every p w = true ->
  (min <= String.length w)%nat ->
  (max = Some (String.length w) \/
   ((forall m, max = Some m -> (String.length w < m)%nat) /\ stops p t)) ->
  (String.length w < fuel)%nat ->
  k (after w t s) = Some e ->
  rep_loop m [] true k fuel min max s = Some e.
Proof.
  induction w as [|c w IH]; intros t fuel min max s Hrest Hw Hmin Hmax Hfuel Hk.
  - rewrite app_nil_l in Hrest. rewrite after_nil in Hk by done.
    destruct fuel as [|fuel]; [simpl in Hfuel; lia|].
    assert (min = 0)%nat as -> by (simpl in Hmin; lia).
    cbn [rep_loop]. destruct Hmax as [->|[Hbound Hstop]]; [done|].
    destruct max as [[|b]|]; [by specialize (Hbound _ eq_refl); simpl in Hbound; lia|..];
      rewrite Hm; cbn [run clear_caps Nat.ltb Nat.leb]; rewrite Hrest;
      (destruct t as [|x t]; simpl in Hstop; [|rewrite Hstop]); by simpl.
  - rewrite app_cons in Hrest. simpl in Hw. apply andb_prop in Hw as [Hc Hw].
    destruct fuel as [|fuel]; [lia|]. simpl in Hfuel, Hmin.
    assert (rep_loop m [] true k fuel (Nat.pred min)
              (option_map Nat.pred max)
              (MState (S (pos s)) (Some c) (w +:+ t) (caps s)) = Some e) as Hnext.
    { apply (IH t); simpl; [done|done|lia| |lia|].
      - destruct Hmax as [->|[Hbound Hstop]]; [by left|right].
        split; [|done]. intros b Hb. destruct max as [[|b']|]; simplify_eq/=.
        + specialize (Hbound _ eq_refl). lia.
        + specialize (Hbound _ eq_refl). lia.
      - destruct s as [i pv r cs]. simpl in *. subst r.
        by rewrite after_cons with (pv := pv). }
    assert (max <> Some O) as Hmax0.
    { destruct Hmax as [->|[Hbound _]]; [done|].
      intros ->. specialize (Hbound _ eq_refl). lia. }
    cbn [rep_loop]. destruct max as [[|b]|]; [done|..];
      rewrite Hm; cbn [run clear_caps]; rewrite Hrest, Hc;
      cbn [pos]; rewrite (proj2 (Nat.eqb_neq (S (pos s)) (pos s))) by lia;
      rewrite andb_false_r, Hnext; by destruct (0 <? min)%nat.
Qed.

Lemma run_class_greedy p min max k e w t s :
  rest s = w +:+ t -> every p w = true ->
  (min <= String.length w)%nat ->
  (max = Some (String.length w) \/
   ((forall m, max = Some m -> (String.length w < m)%nat) /\ stops p t)) ->
  k (after w t s) = Some e ->
  run (Rep min max true (Chr p)) k s = Some e.
Proof.
  intros Hrest Hw Hmin Hmax Hk. cbn [run groups].
  apply (rep_class_greedy p (run (Chr p)) k e w (fun _ _ => eq_refl) t); try done.
  rewrite Hrest, length_app. lia.
Qed.

Lemma run_class_greedy_is_Some p min max k w t s :
  rest s = w +:+ t -> every p w = true ->
  (min <= String.length w)%nat ->
  (max = Some (String.length w) \/
   ((forall m, max = Some m -> (String.length w < m)%nat) /\ stops p t)) ->
  is_Some (k (after w t s)) ->
  is_Some (run (Rep min max true (Chr p)) k s).
Proof.
  intros Hrest Hw Hmin Hmax [e He]. exists e. by eapply run_class_greedy.
Qed.

Lemma run_Chr_is_Some p k c t s :
  rest s = String c t -> p c = true ->
  is_Some (k (MState (S (pos s)) (Some c) t (caps s))) ->
  is_Some (run (Chr p) k s).
Proof. intros Hrest Hp Hk. cbn [run]. by rewrite Hrest, Hp. Qed.

(** The words of a repeated class. *)
Lemma iter_lang_class p n w :
  iter_lang n (lang (Chr p)) w -> every p w = true /\ String.length w = n.
Proof.
  revert w. induction n as [|n IH]; intros w; simpl; [by intros ->|].
  intros (u & v & -> & (c & -> & Hc) & [Hv <-]%IH).
  rewrite app_cons, app_nil_l. simpl. by rewrite Hc, Hv.
Qed.

Lemma lang_class_rep p min max greedy w :
  lang (Rep min max greedy (Chr p)) w ->
  every p w = true /\ within (String.length w) min max.
Proof. intros (n & Hn & [Hw <-]%iter_lang_class). done. Qed.

Lemma every_app p u v : every p (u +:+ v) = every p u && every p v.
Proof.
  induction u as [|c u IH]; [done|]. rewrite app_cons. simpl.
  by rewrite IH, andb_assoc.
Qed.

Lemma stops_app_every p q u t :
  every q u = true -> (forall c, q c = true -> p c = false) ->
  stops p t -> stops p (u +:+ t).
Proof.
  destruct u as [|c u]; [done|]. simpl. intros [Hc _]%andb_prop Hpq _. auto.
Qed.

Lemma digit_not_space c : Js.is_digit c = true -> Js.is_space c = false.
Proof. destruct c as [[] [] [] [] [] [] [] []]; by vm_compute. Qed.

Lemma digit_not_colon c : Js.is_digit c = true -> Ascii.eqb ":" c = false.
Proof. destruct c as [[] [] [] [] [] [] [] []]; by vm_compute. Qed.

Lemma space_not_colon c : Js.is_space c = true -> Ascii.eqb ":" c = false.
Proof. destruct c as [[] [] [] [] [] [] [] []]; by vm_compute. Qed.

Lemma colon_not_space c : Ascii.eqb ":" c = true -> Js.is_space c = false.
Proof. intros <-%Ascii.eqb_eq. by vm_compute. Qed.

Lemma dsep_not_digit c : mem c "./" = true -> Js.is_digit c = false.
Proof. destruct c as [[] [] [] [] [] [] [] []]; by vm_compute. Qed.


(** ** extractField: the date of the invoice *)

Lemma lang_stri_Date w : lang (stri "Date") w -> Js.toLowerCase w = "date".
Proof.
  cbn [stri lang liti].
  intros (? & ? & -> & (c1 & -> & H1) & ? & ? & -> & (c2 & -> & H2)
          & ? & ? & -> & (c3 & -> & H3) & c4 & -> & H4).
  apply Ascii.eqb_eq in H1, H2, H3, H4.
  unfold Js.toLowerCase. rewrite !app_cons, !app_nil_l. cbn [Js.smap].
  by rewrite H1, H2, H3, H4.
Qed.

(** Where the pattern [datePattern] matches, the text holds a date after
    the word Date, and the group 1 is that date. *)
Lemma datePattern_sound text s e :
  at_text text s -> steps datePattern s e ->
  exists date,
    prefixedDate text date /\
    exists a b, lookup_cap 1 (caps e) = Some (a, b) /\ substr a b text = date.
Proof.
  unfold datePattern. cbn [seq].
  intros Hs (word & s1 & Hword & Hlword & H)%steps_Seq.
  apply steps_Seq in H as (w1 & s2 & Hw1 & Hlw1 & H).
  apply steps_Seq in H as (w2 & s3 & Hw2 & Hlw2 & H).
  apply steps_Seq in H as (w3 & s4 & Hw3 & Hlw3 & H).
  apply steps_Grp in H as (date & Hdate & Hldate & Hcap).
  pose proof (moved_trans _ _ _ _ _ Hw1 (moved_trans _ _ _ _ _ Hw2 Hw3)) as Hgap.
  destruct (at_text_moved _ _ _ _ Hs Hword) as (pre & Htext1 & _ & Hs1).
  destruct (at_text_moved _ _ _ _ Hs1 Hgap) as (pre1 & Htext2 & _ & Hs4).
  destruct (at_text_moved _ _ _ _ Hs4 Hdate) as (pre4 & Htext4 & Hpos4 & _).
  exists date. split.
  - exists pre, word, (w1 +:+ w2 +:+ w3), (rest e).
    split; [|split; [by apply lang_stri_Date|split; [|done]]].
    + rewrite Htext1. do 2 f_equal. destruct Hgap as [-> _].
      by destruct Hdate as [-> _].
    + unfold dateGap. cbn [seq lang].
      exists w1, (w2 +:+ w3). split; [done|]. split; [done|].
      by exists w2, w3.
  - exists (pos s4), (pos e). split; [done|].
    destruct Hdate as [_ ->]. rewrite Hpos4, Htext4. apply substr_middle.
Qed.

Lemma group_str_cap i text m a b :
  lookup_cap i (caps (f_end m)) = Some (a, b) ->
  group_str i text m = substr a b text.
Proof. unfold group_str, group. by intros ->. Qed.

Lemma exec_datePattern_sound text m :
  exec datePattern text = Some m -> prefixedDate text (group_str 1 text m).
Proof.
  intros (s & Hs & Hsteps)%exec_at_text.
  destruct (datePattern_sound text s (f_end m) Hs Hsteps)
    as (date & Hdate & a & b & Hcap & Hsub).
  by rewrite (group_str_cap _ _ _ _ _ Hcap), Hsub.
Qed.

Lemma exec_invoiceDatePattern_sound text m :
  exec (Seq (stri "Invoice") (Seq (plus sp) datePattern)) text = Some m ->
  prefixedDate text (group_str 1 text m).
Proof.
  intros (s & Hs & Hsteps)%exec_at_text.
  apply steps_Seq in Hsteps as (w1 & s1 & Hw1 & _ & Hsteps).
  apply steps_Seq in Hsteps as (w2 & s2 & Hw2 & _ & Hsteps).
  destruct (at_text_moved _ _ _ _ Hs Hw1) as (? & _ & _ & Hs1).
  destruct (at_text_moved _ _ _ _ Hs1 Hw2) as (? & _ & _ & Hs2).
  destruct (datePattern_sound text s2 (f_end m) Hs2 Hsteps)
    as (date & Hdate & a & b & Hcap & Hsub).
  by rewrite (group_str_cap _ _ _ _ _ Hcap), Hsub.
Qed.

Lemma extractField_date_sound text date :
  extractField text F_dateOfInvoice = Some date -> prefixedDate text date.
Proof.
  unfold extractField. cbn [patterns firstSome].
  change (seq [stri "Date"; star sp; opt (lit ":"); star sp; Grp 1 dateToken])
    with datePattern.
  change (seq [stri "Invoice"; plus sp; stri "Date"; star sp; opt (lit ":");
               star sp; Grp 1 dateToken])
    with (Seq (stri "Invoice") (Seq (plus sp) datePattern)).
  destruct (exec datePattern text) as [m|] eqn:E1.
  { intros [= <-]. by apply exec_datePattern_sound. }
  destruct (exec (Seq _ _) text) as [m|] eqn:E2; [|done].
  intros [= <-]. by apply exec_invoiceDatePattern_sound.
Qed.

Lemma prefixedDate_includes text date :
  prefixedDate text date -> Js.includes "date" (Js.toLowerCase text) = true.
Proof.
  intros (pre & word & gap & post & -> & Hword & _).
  unfold Js.toLowerCase in *. rewrite !smap_app, Hword.
  apply includes_spec. eauto.
Qed.

Lemma within_bounded n min m :
  within n min (Some m) -> (min <= m)%nat -> (min <= n <= m)%nat.
Proof. intros [[?|[= ->]] Hle] ?; specialize (Hle _ eq_refl); lia. Qed.

(** A date token is consumed whole by [dateToken], whatever follows. *)
Lemma dateToken_complete k date post s :
  lang dateToken date -> rest s = date +:+ post ->
  (forall s', is_Some (k s')) ->
  is_Some (run dateToken k s).
Proof.
  unfold dateToken. cbn [seq lang].
  intros (a & ? & -> & [Ha Hna]%lang_class_rep
          & ? & ? & -> & (x & -> & Hx)
          & b & ? & -> & [Hb Hnb]%lang_class_rep
          & ? & yr & -> & (y & -> & Hy) & [Hyr Hnyr]%lang_class_rep) Hrest Hk.
  rewrite !app_assoc, !app_cons, !app_nil_l in Hrest.
  apply within_bounded in Hna as [Ha1 Ha2]; [|lia].
  apply within_bounded in Hnb as [Hb1 Hb2]; [|lia].
  apply within_bounded in Hnyr as [Hyr1 Hyr2]; [|lia].
  cbn [run]. fold (run (range 1 2 d)).
  change (is_Some (run (Rep 1 (Some 2%nat) true (Chr Js.is_digit))
            (run (Chr (fun c => mem c "./"))
               (run (Rep 1 (Some 2%nat) true (Chr Js.is_digit))
                  (run (Chr (fun c => mem c "./"))
                     (run (Rep 4 (Some 4%nat) true (Chr Js.is_digit)) k)))) s)).
  eapply run_class_greedy_is_Some; [exact Hrest|done|done| |].
  { destruct (decide (String.length a = 2)%nat) as [->|]; [by left|right].
    split; [intros ? [= <-]; lia|]. simpl. by apply dsep_not_digit. }
  eapply run_Chr_is_Some; [reflexivity|done|].
  eapply run_class_greedy_is_Some; [reflexivity|done|done| |].
  { destruct (decide (String.length b = 2)%nat) as [->|]; [by left|right].
    split; [intros ? [= <-]; lia|]. simpl. by apply dsep_not_digit. }
  eapply run_Chr_is_Some; [reflexivity|done|].
  eapply run_class_greedy_is_Some; [reflexivity|done|lia| |].
  { left. f_equal. lia. }
  apply Hk.
Qed.

Lemma dateToken_starts_with_digit date :
  lang dateToken date -> exists c r, date = String c r /\ Js.is_digit c = true.
Proof.
  unfold dateToken. cbn [seq lang].
  intros (a & r & -> & [Ha Hna]%lang_class_rep & _).
  apply within_bounded in Hna as [Ha1 _]; [|lia].
  destruct a as [|c a]; [simpl in Ha1; lia|].
  simpl in Ha. apply andb_prop in Ha as [Hc _].
  exists c, (a +:+ r). by rewrite app_cons.
Qed.

Lemma lang_opt_colon col : lang (opt (lit ":")) col -> col = "" \/ col = ":".
Proof.
  intros [Hcol Hn]%lang_class_rep.
  apply within_bounded in Hn as [_ Hn]; [|lia].
  destruct col as [|c [|c' col]]; [by left| |simpl in Hn; lia].
  right. cbn [every] in Hcol. rewrite andb_true_r in Hcol.
  by apply Ascii.eqb_eq in Hcol as <-.
Qed.

(** After the word Date: the gap and the date are consumed, whatever
    follows the date. *)
Lemma dateGap_complete k gap date post s :
  lang dateGap gap -> lang dateToken date ->
  rest s = gap +:+ date +:+ post ->
  (forall s', is_Some (k s')) ->
  is_Some (run (star sp)
             (run (opt (lit ":")) (run (star sp) (run (Grp 1 dateToken) k))) s).
Proof.
  unfold dateGap. cbn [seq lang].
  intros (u & ? & -> & [Hu _]%lang_class_rep
          & col & ws & -> & Hcol%lang_opt_colon & [Hws _]%lang_class_rep)
         Hdate Hrest Hk.
  destruct (dateToken_starts_with_digit date Hdate) as (c & r & Hc & Hdigit).
  assert (forall p, p c = false -> stops p (date +:+ post)) as Hstops.
  { intros p Hp. by rewrite Hc, app_cons. }
  assert (forall s3 ws', every Js.is_space ws' = true ->
            rest s3 = ws' +:+ date +:+ post ->
            is_Some (run (star sp) (run (Grp 1 dateToken) k) s3)) as K3.
  { intros s3 ws' Hws' Hrest3.
    eapply run_class_greedy_is_Some; [exact Hrest3|done|lia| |].
    { right. split; [done|]. by apply Hstops, digit_not_space. }
    cbn [run]. eapply dateToken_complete; [done|reflexivity|]. intros s'. apply Hk. }
  assert (forall s2 col' ws', col' = "" \/ col' = ":" ->
            every Js.is_space ws' = true ->
            rest s2 = col' +:+ ws' +:+ date +:+ post ->
            is_Some (run (opt (lit ":"))
                       (run (star sp) (run (Grp 1 dateToken) k)) s2)) as K2.
  { intros s2 col' ws' [->| ->] Hws' Hrest2.
    - eapply run_class_greedy_is_Some with (w := "");
        [exact Hrest2|done|simpl; lia| |].
      { right. split; [intros ? [= <-]; simpl; lia|].
        eapply stops_app_every; [exact Hws'|apply space_not_colon|].
        by apply Hstops, digit_not_colon. }
      by eapply K3.
    - eapply run_class_greedy_is_Some with (w := ":");
        [exact Hrest2|done|simpl; lia|by left|].
      by eapply K3. }
  rewrite !app_assoc in Hrest. destruct Hcol as [->| ->].
  - rewrite app_nil_l, <- app_assoc in Hrest.
    eapply run_class_greedy_is_Some; [exact Hrest| |lia| |].
    + by rewrite every_app, Hu, Hws.
    + right. split; [done|]. by apply Hstops, digit_not_space.
    + by eapply (K2 _ "" ""); [left|done|].
  - eapply run_class_greedy_is_Some; [exact Hrest|done|lia| |].
    + right. split; [done|]. by simpl.
    + by eapply (K2 _ ":" ws); [right|done|].
Qed.

Lemma run_liti_is_Some c c' k t s :
  Js.lower c' = Js.lower c -> rest s = String c' t ->
  (forall s', rest s' = t -> is_Some (k s')) ->
  is_Some (run (liti c) k s).
Proof.
  intros Hc Hrest Hk. eapply run_Chr_is_Some; [exact Hrest| |by apply Hk].
  by rewrite Hc, Ascii.eqb_refl.
Qed.

(** The pattern [datePattern] matches at a date prefixed by Date. *)
Lemma datePattern_complete word gap date post s :
  Js.toLowerCase word = "date" -> lang dateGap gap -> lang dateToken date ->
  rest s = word +:+ gap +:+ date +:+ post ->
  is_Some (run datePattern Some s).
Proof.
  intros Hword Hgap Hdate Hrest.
  destruct word as [|c1 [|c2 [|c3 [|c4 [|c5 word]]]]]; try done.
  injection Hword as H1 H2 H3 H4. rewrite !app_cons, app_nil_l in Hrest.
  unfold datePattern. cbn [seq stri run].
  eapply run_liti_is_Some; [exact H1|exact Hrest|]. intros s1 Hs1.
  eapply run_liti_is_Some; [exact H2|exact Hs1|]. intros s2 Hs2.
  eapply run_liti_is_Some; [exact H3|exact Hs2|]. intros s3 Hs3.
  eapply run_liti_is_Some; [exact H4|exact Hs3|]. intros s4 Hs4.
  by eapply dateGap_complete.
Qed.

(** A match at some position makes [exec] succeed (at that position or
    before). *)
Lemma exec_at_complete r pre : forall t i pv,
  is_Some (run r Some (MState (i + String.length pre) (last_char pre pv) t [])) ->
  is_Some (exec_at r i pv (pre +:+ t)).
Proof.
  induction pre as [|c pre IH]; intros t i pv.
  - rewrite app_nil_l. cbn [String.length last_char]. rewrite Nat.add_0_r.
    intros [e He]. destruct t; cbn [exec_at]; rewrite He; by eexists.
  - rewrite app_cons. cbn [String.length last_char exec_at]. intros Hrun.
    destruct (run r Some (MState i pv (String c (pre +:+ t)) []));
      [by eexists|].
    apply IH. by rewrite <- Nat.add_succ_comm in Hrun.
Qed.

Lemma exec_datePattern_complete text date :
  prefixedDate text date -> is_Some (exec datePattern text).
Proof.
  intros (pre & word & gap & post & -> & Hword & Hgap & Hdate).
  apply exec_at_complete. by eapply datePattern_complete.
Qed.

(** C6 as stated fails: this text is a date token and nothing else, and
    no date is resolved, the token not being preceded by the word Date. *)
Lemma bare_date_is_not_resolved :
  extractField "12.03.2024" F_dateOfInvoice = None /\
  extractField "Invoice of 12/03/2024" F_dateOfInvoice = None.
Proof. by vm_compute. Qed.

(** C6, amended.  The date of the invoice is resolved from a DD.MM.YYYY
    or DD/MM/YYYY token that follows the word Date (in any letter case,
    Invoice Date included), with nothing but white space and at most one
    colon between them, and only from such a token: the prefix is
    required.  A resolved date is such a token of the text; a date is
    resolved for every text that holds such a token, as on
    "Invoice Date: 12.03.2024" and "date 1/2/2023"; and the result is
    [null] when the text does not hold the word Date, whatever dates it
    holds. *)
Theorem dateOfInvoice_needs_Date_prefix (text : string) :
  (forall date, extractField text F_dateOfInvoice = Some date ->
     prefixedDate text date) /\
  ((exists date, prefixedDate text date) ->
   is_Some (extractField text F_dateOfInvoice)) /\
  (Js.includes "date" (Js.toLowerCase text) = false ->
   extractField text F_dateOfInvoice = None) /\
  extractField "Invoice Date: 12.03.2024" F_dateOfInvoice = Some "12.03.2024" /\
  extractField "date 1/2/2023" F_dateOfInvoice = Some "1/2/2023".
Proof.
  split; [|split; [|split; [|split; by vm_compute]]].
  - intros date. apply extractField_date_sound.
  - intros [date [m Hm]%exec_datePattern_complete].
    unfold extractField. cbn [patterns firstSome].
    change (seq [stri "Date"; star sp; opt (lit ":"); star sp; Grp 1 dateToken])
      with datePattern.
    rewrite Hm. by eexists.
  - intros Hno. destruct (extractField text F_dateOfInvoice) as [date|] eqn:E;
      [|done].
    apply extractField_date_sound, prefixedDate_includes in E. congruence.
Qed.

(** ** extractLineItems: the cascade of strategies *)

Lemma test_sound r text : test r text = true -> holds r text.
Proof.
  unfold test. destruct (exec r text) as [m|] eqn:E; [|done]. intros _.
  apply exec_at_text in E as (s & Hs & (w & Hw & Hlw)%steps_lang).
  destruct (at_text_moved _ _ _ _ Hs Hw) as (pre & -> & _).
  by exists pre, w, (rest (f_end m)).
Qed.

Lemma trimStart_spec s : exists a, s = a +:+ Js.trimStart s.
Proof.
  induction s as [|c s [a IH]]; simpl; [by exists ""|].
  destruct (Js.is_space c); [|by exists ""].
  exists (String c a). rewrite app_cons. by f_equal.
Qed.

Lemma trimEnd_spec s : exists b, s = Js.trimEnd s +:+ b.
Proof.
  induction s as [|c s [b IH]]; simpl; [by exists ""|].
  destruct (Js.trimEnd s) as [|x t].
  - rewrite app_nil_l in IH. subst b.
    destruct (Js.is_space c); [by exists (String c s) | by exists s].
  - exists b. rewrite app_cons. by f_equal.
Qed.

Lemma trim_spec s : exists a b, s = a +:+ Js.trim s +:+ b.
Proof.
  destruct (trimStart_spec s) as [a Ha].
  destruct (trimEnd_spec (Js.trimStart s)) as [b Hb].
  exists a, b. unfold Js.trim. by rewrite <- Hb.
Qed.

Lemma length_trim s : (String.length (Js.trim s) <= String.length s)%nat.
Proof.
  destruct (trim_spec s) as (a & b & Hs). rewrite Hs at 2.
  rewrite !length_app. lia.
Qed.

Lemma holds_trim r s : holds r (Js.trim s) -> holds r s.
Proof.
  intros (pre & token & post & Hs & Htoken).
  destruct (trim_spec s) as (a & b & ->). rewrite Hs.
  exists (a +:+ pre), token, (post +:+ b). by rewrite !app_assoc.
Qed.

(** A candidate line is a line of the section longer than 20 characters
    that holds a VAT-anchor token. *)
Lemma candidateLines_spec pageText line :
  line ∈ candidateLines pageText ->
  line ∈ lineItemSection (Js.lines pageText) /\
  (20 < String.length line)%nat /\ holds vatToken line.
Proof.
  unfold candidateLines. rewrite list_elem_of_filter.
  intros [[Hlen Hvat]%andb_prop_elim Hline]. split; [done|].
  apply bool_decide_unpack in Hlen. apply Is_true_eq_true in Hvat. split.
  - pose proof (length_trim line). lia.
  - by apply holds_trim, test_sound.
Qed.

(** C7.  The line-item parser runs its strategies in the order 1
    (structured), 2 (tokenized), 3 (loose): its result is that of the
    first strategy that produces an item for the page, a later strategy
    counting only when every earlier one produced nothing; and a page
    without candidate lines, in particular a page of which no line before
    the first Total/Subtotal boundary is longer than 20 characters and
    holds a VAT-anchor token, yields the empty list. *)
Theorem extractLineItems_cascade (pageText : string) (pageNumber : nat) :
  let lines := candidateLines pageText in
  (strategy1 lines <> [] ->
   extractLineItems pageText pageNumber = strategy1 lines) /\
  (strategy1 lines = [] -> strategy2 lines <> [] ->
   extractLineItems pageText pageNumber = strategy2 lines) /\
  (strategy1 lines = [] -> strategy2 lines = [] ->
   extractLineItems pageText pageNumber = strategy3 lines) /\
  (lines = [] -> extractLineItems pageText pageNumber = []) /\
  ((forall line, line ∈ lineItemSection (Js.lines pageText) ->
      ~ ((20 < String.length line)%nat /\ holds vatToken line)) ->
   extractLineItems pageText pageNumber = []).
Proof.
  intros lines. unfold extractLineItems. fold lines.
  assert (lines = [] ->
          (if isEmpty (if isEmpty (strategy1 lines) then strategy2 lines
                       else strategy1 lines)
           then strategy3 lines
           else if isEmpty (strategy1 lines) then strategy2 lines
                else strategy1 lines) = []) as Hnone by (by intros ->).
  repeat split.
  - intros H1%isEmpty_false. by rewrite !H1.
  - intros -> H2%isEmpty_false. simpl. by rewrite H2.
  - by intros -> ->.
  - done.
  - intros Hno. apply Hnone. destruct lines as [|line lines'] eqn:E; [done|].
    destruct (candidateLines_spec pageText line) as (Hline & Hlen & Hvat).
    { fold lines. rewrite E. left. }
    destruct (Hno line Hline). by split.
Qed.


(** ** parseAmount: tokens without digits *)

Lemma every_drop p n s : every p s = true -> every p (Js.drop n s) = true.
Proof.
  revert s. induction n as [|n IH]; intros [|c s]; simpl; try done.
  intros [_ Hs]%andb_prop. by apply IH.
Qed.

Lemma digitless_replaceFirst pat by_ s :
  digitless by_ -> digitless s -> digitless (Js.replaceFirst pat by_ s).
Proof.
  unfold digitless. intros Hby. induction s as [|c s IH]; simpl.
  - intros _. destruct (Js.startsWith pat ""); [|done].
    by rewrite every_app, Hby, every_drop.
  - intros Hs. destruct (Js.startsWith pat (String c s)).
    + by rewrite every_app, Hby, every_drop.
    + apply andb_prop in Hs as [Hc Hs]. simpl. by rewrite Hc, IH.
Qed.

Lemma digitless_removeAll c s : digitless s -> digitless (Js.removeAll c s).
Proof.
  unfold digitless. induction s as [|x s IH]; simpl; [done|].
  intros [Hx Hs]%andb_prop. destruct (Ascii.eqb x c); [by apply IH|].
  simpl. by rewrite Hx, IH.
Qed.

Lemma digitless_trimStart s : digitless s -> digitless (Js.trimStart s).
Proof.
  unfold digitless. induction s as [|c s IH]; simpl; [done|].
  intros Hs. destruct (Js.is_space c); [|done].
  apply andb_prop in Hs as [_ Hs]. by apply IH.
Qed.

Lemma span_digitless s : digitless s -> Js.span Js.is_digit s = ("", s).
Proof.
  unfold digitless. destruct s as [|c s]; simpl; [done|].
  intros [Hc _]%andb_prop. by destruct (Js.is_digit c).
Qed.

(** [parseFloat] reads no finite number from a string without digits. *)
Lemma parseFloat_digitless s : digitless s -> notFinite (Js.parseFloat s).
Proof.
  intros Hs%digitless_trimStart. unfold Js.parseFloat.
  assert (digitless (Js.read_sign (Js.trimStart s)).2) as Hs1.
  { unfold Js.read_sign. destruct (Js.trimStart s) as [|c t]; [done|].
    unfold digitless in Hs. simpl in Hs. apply andb_prop in Hs as [? Ht].
    destruct (Ascii.ascii_dec c "-") as [->|]; [done|].
    destruct (Ascii.ascii_dec c "+") as [->|]; [done|].
    assert ((if Ascii.eqb c "-" then true else Ascii.eqb c "+") = false) as Hneither.
    { rewrite (proj2 (Ascii.eqb_neq c "-")), (proj2 (Ascii.eqb_neq c "+")); done. }
    destruct c as [[] [] [] [] [] [] [] []]; simpl in *;
      try done; unfold digitless; simpl; by rewrite Ht. }
  destruct (Js.read_sign (Js.trimStart s)) as [sg s1]. simpl in Hs1.
  destruct (Js.startsWith "Infinity" s1); [right; by eexists|].
  rewrite (span_digitless s1 Hs1).
  destruct s1 as [|c t]; [by left|].
  unfold digitless in Hs1. simpl in Hs1. apply andb_prop in Hs1 as [_ Ht].
  destruct (Ascii.ascii_dec c ".") as [->|Hc].
  - rewrite (span_digitless t Ht). by left.
  - left. destruct c as [[] [] [] [] [] [] [] []]; try done.
Qed.

Lemma notFinite_neg x : notFinite x -> notFinite (Js.neg x).
Proof. intros [->|[sg ->]]; [by left | right; by eexists]. Qed.

(** C9 as stated fails: on the token "abc", which holds no digit, the
    result is the number [NaN] and not [null]. *)
Lemma parseAmount_abc_is_not_null :
  parseAmount "abc" = Some Js.NaN /\ parseAmount "abc" <> None.
Proof. by vm_compute. Qed.

(** C9, amended.  For every non-empty token that holds no digit (such as
    "abc" or ","), [parseAmount] returns a number that is not a finite
    value, [NaN] (or an infinity, for the word Infinity), and not the
    sentinel [null]; [null] is returned for the empty token, and for it
    only. *)
Theorem parseAmount_digit_free (s : string) :
  (s <> "" -> digitless s ->
   exists x, parseAmount s = Some x /\ notFinite x) /\
  (parseAmount s = None <-> s = "") /\
  parseAmount "abc" = Some Js.NaN /\
  parseAmount "," = Some Js.NaN /\
  parseAmount "Infinity" = Some (S754_infinity false).
Proof.
  split; [|split; [apply parseAmount_null_iff|by vm_compute]].
  intros Hne Hs. unfold parseAmount. destruct s as [|c s]; [done|].
  eexists. split; [done|].
  assert (digitless (Js.replaceFirst "-" "" (String c s))) as Hclean
    by (by apply digitless_replaceFirst).
  set (cleanAmount := Js.replaceFirst "-" "" (String c s)) in *.
  assert (notFinite (Js.parseFloat
            (if Js.includes "," cleanAmount
                && (Js.lastIndexOf "." cleanAmount <? Js.lastIndexOf "," cleanAmount)
             then Js.replaceFirst "," "." (Js.removeAll "." cleanAmount)
             else Js.removeAll "," cleanAmount))) as Hparsed.
  { apply parseFloat_digitless. destruct (_ && _).
    - apply digitless_replaceFirst; [done|]. by apply digitless_removeAll.
    - by apply digitless_removeAll. }
  destruct (Js.endsWith "-" (String c s)); [by apply notFinite_neg | done].
Qed.

Lemma parseAmount_digit_free_witness :
  "abc" <> "" /\ digitless "abc" /\
  exists x, parseAmount "abc" = Some x /\ notFinite x.
Proof.
  assert ("abc" <> "") as Hne by done.
  assert (digitless "abc") as Hs by reflexivity.
  split; [exact Hne|]. split; [exact Hs|].
  exact (proj1 (parseAmount_digit_free "abc") Hne Hs).
Defined.

(** The callers of [parseAmount] test its result against [null] only, so
    the [NaN] of a digit-free token goes through: here it becomes the
    total of a page. *)
Lemma digit_free_token_becomes_a_total :
  extractInvoiceTotal "Total ," = Some Js.NaN.
Proof. by vm_compute. Qed.

(** ** extractLineItems: one line for each strategy *)

(** The first line has the fixed layout and is parsed by Strategy 1; the
    second, with a material code of five digits, is left to Strategy 2;
    the third, whose amount is glued to a currency code, to Strategy 3. *)
Lemma strategies_in_turn :
  let line1 := "0010 123456 Consulting Services 5 PU 21%(V1) 100,00 500,00" in
  let line2 := "0010 12345 Consulting Services 5 PU 21%(V1) 100,00 500,00" in
  let line3 := "0010 Consulting Services 21%(V1) EUR500,00" in
  (isEmpty (strategy1 [line1]) = false) /\
  (strategy1 [line2] = [] /\ isEmpty (strategy2 [line2]) = false) /\
  (strategy1 [line3] = [] /\ strategy2 [line3] = [] /\
   isEmpty (strategy3 [line3]) = false /\
   map (fun r : record => r !! "positionTotal") (extractLineItems line3 1)
   = [Some (VNum (Js.of_decimal false 500 0))]).
Proof. by vm_compute. Qed.

(** * Further properties *)

(** ** The matcher finds every match

    The groups play no part in the success of a match (the patterns have
    no back-references), and the matcher succeeds whenever some end state
    of the pattern is accepted by the continuation. *)

Lemma same_cursor_refl s : same_cursor s s.
Proof. done. Qed.

Lemma same_cursor_sym a b : same_cursor a b -> same_cursor b a.
Proof. by intros (? & ? & ?). Qed.

Lemma same_cursor_trans a b c : same_cursor a b -> same_cursor b c -> same_cursor a c.
Proof. intros (? & ? & ?) (? & ? & ?). repeat split; congruence. Qed.

Lemma same_cursor_clear_caps gs s : same_cursor (clear_caps gs s) s.
Proof. by destruct gs. Qed.

Lemma same_cursor_set_cap i from s : same_cursor (set_cap i from s) s.
Proof. done. Qed.

Lemma follows_Some : follows Some Some.
Proof. intros a b _ _. by eexists. Qed.

Lemma is_Some_orelse {A} (x : option A) y :
  is_Some (orelse x y) <-> is_Some x \/ is_Some (y tt).
Proof.
  destruct x as [a|]; simpl.
  - split; [by left|]. intros _. by eexists.
  - split; [by right|]. by intros [[? [=]]|?].
Qed.

Lemma rep_loop_follows m gs greedy k1 k2 :
  (forall k1 k2 s1 s2, follows k1 k2 -> same_cursor s1 s2 ->
     is_Some (m k1 s1) -> is_Some (m k2 s2)) ->
  follows k1 k2 ->
  forall fuel min max s1 s2, same_cursor s1 s2 ->
    is_Some (rep_loop m gs greedy k1 fuel min max s1) ->
    is_Some (rep_loop m gs greedy k2 fuel min max s2).
Proof.
  intros Hm Hk. induction fuel as [|fuel IH]; intros min max s1 s2 Hs;
    cbn [rep_loop]; [done|].
  assert (is_Some (k1 s1) -> is_Some (k2 s2)) as Hstop by (by apply Hk).
  assert (is_Some
    (m (fun s' => if (min =? 0)%nat && (pos s' =? pos s1)%nat then None
                  else rep_loop m gs greedy k1 fuel (Nat.pred min)
                                (option_map Nat.pred max) s')
       (clear_caps gs s1)) ->
    is_Some
    (m (fun s' => if (min =? 0)%nat && (pos s' =? pos s2)%nat then None
                  else rep_loop m gs greedy k2 fuel (Nat.pred min)
                                (option_map Nat.pred max) s')
       (clear_caps gs s2))) as Hagain.
  { apply Hm.
    - intros a b Hab. destruct Hs as (<- & _). destruct (Hab) as (<- & _).
      destruct (_ && _); [by intros [? [=]]|]. by apply IH.
    - eapply same_cursor_trans; [apply same_cursor_clear_caps|].
      eapply same_cursor_trans; [exact Hs|].
      apply same_cursor_sym, same_cursor_clear_caps. }
  destruct max as [[|b]|]; [done|..]; destruct (0 <? min)%nat; try done;
    destruct greedy; rewrite !is_Some_orelse; tauto.
Qed.

Lemma run_follows r : forall k1 k2 s1 s2,
  follows k1 k2 -> same_cursor s1 s2 ->
  is_Some (run r k1 s1) -> is_Some (run r k2 s2).
Proof.
  induction r as [|p|r1 IH1 r2 IH2|r1 IH1 r2 IH2|min max greedy r1 IH1|i r1 IH1
                  | |ml|ml|r1 IH1]; intros k1 k2 s1 s2 Hk Hs; cbn [run].
  - by apply Hk.
  - destruct (Hs) as (Hpos & Hprev & Hrest). rewrite <- Hrest.
    destruct (rest s1) as [|c t]; [done|]. destruct (p c); [|done].
    apply Hk. by rewrite Hpos.
  - apply IH1; [|done]. intros a b Hab. by apply IH2.
  - rewrite !is_Some_orelse. intros [?|?]; [left; by eapply IH1|right; by eapply IH2].
  - destruct (Hs) as (_ & _ & <-). by apply rep_loop_follows.
  - apply IH1; [|done]. intros a b Hab. destruct Hs as (<- & _).
    apply Hk. eapply same_cursor_trans; [apply same_cursor_set_cap|].
    eapply same_cursor_trans; [exact Hab|].
    apply same_cursor_sym, same_cursor_set_cap.
  - destruct (Hs) as (_ & <- & Hrest). unfold next. rewrite <- Hrest.
    destruct (xorb _ _); [|done]. by apply Hk.
  - destruct (Hs) as (_ & <- & _). destruct (prev s1) as [c|]; [|by apply Hk].
    destruct (ml && Js.is_newline c); [|done]. by apply Hk.
  - destruct (Hs) as (_ & _ & Hrest). unfold next. rewrite <- Hrest.
    destruct (rest s1) as [|c t]; [by apply Hk|].
    destruct (ml && Js.is_newline c); [|done]. by apply Hk.
  - destruct (run r1 Some s1) as [e1|] eqn:E1; [by intros [? [=]]|].
    destruct (run r1 Some s2) as [e2|] eqn:E2; [|by apply Hk].
    assert (is_Some (run r1 Some s1)) as [? ?]; [|congruence].
    eapply IH1; [apply follows_Some|by apply same_cursor_sym|]. rewrite E2. by eexists.
Qed.

Lemma last_char_app u v d : last_char (u +:+ v) d = last_char v (last_char u d).
Proof.
  revert d. induction u as [|c u IH]; intros d; [done|].
  rewrite app_cons. simpl. apply IH.
Qed.

(** A pattern leaves behind it the last character it consumed. *)
Lemma steps_prev r : forall s s',
  steps r s s' -> exists w, moved w s s' /\ prev s' = last_char w (prev s).
Proof.
  induction r as [|p|r1 IH1 r2 IH2|r1 IH1 r2 IH2|min max greedy r1 IH1|i r1 IH1
                  | |ml|ml|r1 IH1]; intros s s'; cbn [steps].
  - intros ->. exists "". split; [apply moved_refl | done].
  - intros (c & t & Hrest & Hp & ->). exists (String c "").
    split; [|done]. split; simpl; [done|lia].
  - intros (s1 & (u & Hu & Hpu)%IH1 & (v & Hv & Hpv)%IH2).
    exists (u +:+ v). split; [by eapply moved_trans|].
    by rewrite last_char_app, <- Hpu.
  - intros [H|H]; [by apply IH1|by apply IH2].
  - intros (n & _ & Hiter). revert s Hiter.
    induction n as [|n IHn]; intros s; simpl.
    + intros ->. exists "". split; [apply moved_refl | done].
    + intros (s1 & (u & Hu & Hpu)%IH1 & (v & Hv & Hpv)%IHn).
      exists (u +:+ v). split.
      * eapply moved_trans; [|done]. by eapply moved_clear_caps.
      * rewrite last_char_app, Hpv, Hpu. by destruct (groups r1).
  - intros (s1 & (w & Hw & Hpw)%IH1 & ->). by exists w.
  - intros [_ ->]. exists "". split; [apply moved_refl | done].
  - intros [_ ->]. exists "". split; [apply moved_refl | done].
  - intros [_ ->]. exists "". split; [apply moved_refl | done].
  - intros [_ ->]. exists "". split; [apply moved_refl | done].
Qed.

Lemma steps_cursor r s s' :
  steps r s s' ->
  (String.length (rest s) = (pos s' - pos s) + String.length (rest s'))%nat /\
  (pos s <= pos s')%nat /\
  (pos s' = pos s -> same_cursor s' s).
Proof.
  intros (w & [Hrest Hpos] & Hprev)%steps_prev.
  rewrite Hrest, length_app. split; [lia|]. split; [lia|].
  intros Heq. destruct w as [|c w]; [|simpl in Hpos; lia].
  by repeat split.
Qed.

Lemma within_pred n min max :
  within (S n) min max -> within n (Nat.pred min) (option_map Nat.pred max).
Proof.
  intros [Hmin Hmax]. split.
  - destruct Hmin as [? | ->]; [left; lia|by right].
  - intros m Hm. destruct max as [b|]; [|done]. simplify_eq/=.
    specialize (Hmax _ eq_refl). lia.
Qed.

Lemma rep_loop_complete r1 greedy k
    (IH : forall k s s', follows k k -> steps r1 s s' -> is_Some (k s') ->
                         is_Some (run r1 k s)) :
  follows k k ->
  forall n s s' min max fuel,
    within n min max ->
    iter_rel n (fun a b => steps r1 (clear_caps (groups r1) a) b) s s' ->
    is_Some (k s') ->
    (min + String.length (rest s) < fuel)%nat ->
    is_Some (rep_loop (run r1) (groups r1) greedy k fuel min max s).
Proof.
  intros Hk. induction n as [|n IHn]; intros s s' min max fuel Hn Hiter Hs' Hfuel;
    (destruct fuel as [|fuel]; [lia|]); cbn [rep_loop]; simpl in Hiter.
  - subst s'. destruct max as [[|b]|]; [done|..];
      (destruct Hn as [[Hmin|[=]] _]; assert (min = 0)%nat as -> by lia);
      cbn [Nat.ltb Nat.leb]; destruct greedy; rewrite is_Some_orelse; auto.
  - destruct Hiter as (s1 & Hstep & Hiter).
    assert (max <> Some 0%nat) as Hmax.
    { intros ->. destruct Hn as [_ Hn]. specialize (Hn _ eq_refl). lia. }
    destruct (steps_cursor _ _ _ Hstep) as (Hlen & Hle & Hsame).
    assert (rest (clear_caps (groups r1) s) = rest s) as Erest
      by apply same_cursor_clear_caps.
    assert (pos (clear_caps (groups r1) s) = pos s) as Epos
      by apply same_cursor_clear_caps.
    rewrite Erest, Epos in *.
    destruct (decide (min = 0%nat /\ pos s1 = pos s)) as [[-> Hpos]|Hmove].
    + (* an iteration that consumes nothing is left out *)
      assert (is_Some (rep_loop (run r1) (groups r1) greedy k (S fuel) 0 max s1))
        as Hrest.
      { apply (IHn s1 s'); [|done|done|].
        - destruct Hn as [_ Hn]. split; [left; lia|].
          intros m Hm. specialize (Hn _ Hm). lia.
        - rewrite Hpos in Hlen. lia. }
      eapply (rep_loop_follows (run r1)) in Hrest;
        [exact Hrest|apply run_follows|done|].
      eapply same_cursor_trans; [by apply Hsame|apply same_cursor_clear_caps].
    + assert (is_Some
        (run r1 (fun s' => if (min =? 0)%nat && (pos s' =? pos s)%nat then None
                  else rep_loop (run r1) (groups r1) greedy k fuel (Nat.pred min)
                                (option_map Nat.pred max) s')
           (clear_caps (groups r1) s))) as Hagain.
      { apply (IH _ _ s1); [|done|].
        - intros a b Hab. destruct (Hab) as (<- & _).
          destruct (_ && _); [by intros [? [=]]|].
          by apply rep_loop_follows; [apply run_follows|..].
        - destruct ((min =? 0)%nat && (pos s1 =? pos s)%nat) eqn:E.
          { apply andb_prop in E as [?%Nat.eqb_eq ?%Nat.eqb_eq]. tauto. }
          apply (IHn s1 s'); [by apply within_pred|done|done|].
          destruct (decide (min = 0%nat)) as [->|?]; [|lia].
          assert (pos s1 <> pos s) by tauto. simpl. lia. }
      destruct max as [[|b]|]; [done|..]; destruct (0 <? min)%nat; try done;
        destruct greedy; rewrite is_Some_orelse; auto.
Qed.

(** The matcher succeeds as soon as the continuation accepts one of the
    end states of the pattern. *)
Lemma run_complete r : forall k s s',
  follows k k -> steps r s s' -> is_Some (k s') -> is_Some (run r k s).
Proof.
  induction r as [|p|r1 IH1 r2 IH2|r1 IH1 r2 IH2|min max greedy r1 IH1|i r1 IH1
                  | |ml|ml|r1 IH1]; intros k s s' Hk; cbn [run steps].
  - by intros ->.
  - intros (c & t & -> & -> & ->). done.
  - intros (s1 & H1 & H2) Hs'. apply (IH1 _ _ s1); [|done|by eapply IH2].
    intros a b Hab. by apply run_follows.
  - rewrite is_Some_orelse. intros [H|H] Hs'; [left; by eapply IH1|right; by eapply IH2].
  - intros (n & Hn & Hiter) Hs'.
    apply (rep_loop_complete r1 greedy k IH1 Hk n s s'); [done..|lia].
  - intros (s1 & H1 & ->) Hs'. apply (IH1 _ _ s1); [|done..].
    intros a b Hab. apply Hk.
    eapply same_cursor_trans; [apply same_cursor_set_cap|].
    eapply same_cursor_trans; [exact Hab|].
    apply same_cursor_sym, same_cursor_set_cap.
  - intros [H ->]. by destruct (xorb _ _).
  - intros [H ->]. destruct (prev s) as [c|]; [|done].
    by destruct (ml && Js.is_newline c).
  - intros [H ->]. destruct (next s) as [c|]; [|done].
    by destruct (ml && Js.is_newline c).
  - by intros [-> ->].
Qed.

(** ** From words to matches *)

Lemma same_cursor_after w t a b :
  same_cursor a b -> same_cursor (after w t a) (after w t b).
Proof. intros (Hpos & Hprev & _). unfold after, same_cursor. simpl. by rewrite Hpos, Hprev. Qed.

(** A pattern without assertions can consume any word of its language. *)
Lemma lang_steps r : plain r = true -> forall w s t,
  lang r w -> rest s = w +:+ t ->
  exists s', steps r s s' /\ same_cursor s' (after w t s).
Proof.
  induction r as [|p|r1 IH1 r2 IH2|r1 IH1 r2 IH2|min max greedy r1 IH1|i r1 IH1
                  | |ml|ml|r1 IH1]; cbn [plain]; intros Hplain w s t;
    cbn [lang steps]; try done.
  - intros -> Hrest. exists s. split; [done|]. by rewrite after_nil.
  - intros (c & -> & Hp) Hrest. eexists. split; [by exists c, t|].
    unfold after, same_cursor. simpl. split; [lia|done].
  - apply andb_prop in Hplain as [H1 H2].
    intros (u & v & -> & Hu & Hv) Hrest. rewrite app_assoc in Hrest.
    destruct (IH1 H1 u s (v +:+ t) Hu Hrest) as (s1 & Hs1 & Hc1).
    destruct (IH2 H2 v s1 t Hv) as (s2 & Hs2 & Hc2); [apply Hc1|].
    exists s2. split; [by exists s1|].
    eapply same_cursor_trans; [exact Hc2|]. rewrite <- after_app.
    by apply same_cursor_after.
  - apply andb_prop in Hplain as [H1 H2]. intros [Hw|Hw] Hrest.
    + destruct (IH1 H1 w s t Hw Hrest) as (s' & ? & ?). eauto.
    + destruct (IH2 H2 w s t Hw Hrest) as (s' & ? & ?). eauto.
  - intros (n & Hn & Hiter) Hrest.
    cut (exists s', iter_rel n (fun a b => steps r1 (clear_caps (groups r1) a) b) s s'
                    /\ same_cursor s' (after w t s)).
    { intros (s' & ? & ?). exists s'. split; [by exists n | done]. }
    clear Hn. revert w s Hiter Hrest.
    induction n as [|n IHn]; intros w s; simpl.
    + intros -> Hrest. exists s. split; [done|]. by rewrite after_nil.
    + intros (u & v & -> & Hu & Hv) Hrest. rewrite app_assoc in Hrest.
      destruct (IH1 Hplain u (clear_caps (groups r1) s) (v +:+ t) Hu)
        as (s1 & Hs1 & Hc1).
      { by rewrite (proj2 (proj2 (same_cursor_clear_caps _ s))). }
      destruct (IHn v s1 Hv) as (s2 & Hs2 & Hc2); [apply Hc1|].
      exists s2. split; [by exists s1|].
      eapply same_cursor_trans; [exact Hc2|]. rewrite <- after_app.
      apply same_cursor_after. eapply same_cursor_trans; [exact Hc1|].
      apply same_cursor_after, same_cursor_clear_caps.
  - intros Hw Hrest. destruct (IH1 Hplain w s t Hw Hrest) as (s1 & Hs1 & Hc1).
    eexists. split; [by exists s1|].
    eapply same_cursor_trans; [apply same_cursor_set_cap|done].
Qed.

(** The words of a repeated class, conversely. *)
Lemma every_iter_lang p w : every p w = true -> iter_lang (String.length w) (lang (Chr p)) w.
Proof.
  induction w as [|c w IH]; simpl; [done|]. intros [Hc Hw]%andb_prop.
  exists (String c ""), w. split; [done|]. split; [by exists c | auto].
Qed.

Lemma class_rep_lang p min max greedy w :
  every p w = true -> within (String.length w) min max ->
  lang (Rep min max greedy (Chr p)) w.
Proof. intros Hw Hn. exists (String.length w). split; [done|by apply every_iter_lang]. Qed.

(** ** The match [exec] returns is the leftmost one *)

Lemma exec_at_found r : forall txt i pv f,
  exec_at r i pv txt = Some f ->
  exists pre post,
    txt = pre +:+ post /\ f_index f = (i + String.length pre)%nat /\
    run r Some (MState (i + String.length pre) (last_char pre pv) post [])
    = Some (f_end f) /\
    forall pre' post', txt = pre' +:+ post' ->
      (String.length pre' < String.length pre)%nat ->
      run r Some (MState (i + String.length pre') (last_char pre' pv) post' [])
      = None.
Proof.
  induction txt as [|c t IH]; intros i pv f; cbn [exec_at].
  - destruct (run r Some _) as [e|] eqn:E; [|done]. intros [= <-].
    exists "", "". simpl. rewrite Nat.add_0_r. repeat split; [done|]. intros; lia.
  - destruct (run r Some _) as [e|] eqn:E.
    + intros [= <-]. exists "", (String c t). simpl. rewrite Nat.add_0_r.
      repeat split; [done|]. intros; lia.
    + intros (pre & post & -> & Hindex & Hrun & Hleft)%IH.
      exists (String c pre), post. rewrite app_cons. cbn [String.length last_char].
      rewrite <- Nat.add_succ_comm. repeat split; [done..|].
      intros [|c' pre'] post'.
      * rewrite app_nil_l. intros <- _. cbn [String.length last_char].
        by rewrite Nat.add_0_r.
      * rewrite app_cons. intros [= <- Ht] Hlen. cbn [String.length last_char] in *.
        rewrite <- Nat.add_succ_comm. apply Hleft; [done|lia].
Qed.

Lemma exec_found r text f :
  exec r text = Some f ->
  exists pre post,
    text = pre +:+ post /\ f_index f = String.length pre /\
    run r Some (MState (String.length pre) (last_char pre None) post [])
    = Some (f_end f) /\
    forall pre' post', text = pre' +:+ post' ->
      (String.length pre' < String.length pre)%nat ->
      run r Some (MState (String.length pre') (last_char pre' None) post' [])
      = None.
Proof. intros H. by apply exec_at_found in H. Qed.

Lemma run_Some_sound r s e :
  run r Some s = Some e -> steps r s e.
Proof. by intros (s' & Hs' & [= <-])%run_sound. Qed.

Lemma run_Some_complete r s s' :
  steps r s s' -> is_Some (run r Some s).
Proof. intros H. by eapply run_complete; [apply follows_Some|exact H|]. Qed.

(** A pattern without assertions is found exactly in the texts that hold
    one of its words. *)
Lemma test_plain r text : plain r = true -> (test r text = true <-> holds r text).
Proof.
  intros Hplain. split; [apply test_sound|].
  intros (pre & token & post & -> & Htoken). unfold test, exec.
  destruct (exec_at_complete r pre (token +:+ post) 0 None) as [f ->]; [|done].
  destruct (lang_steps r Hplain token
              (MState (String.length pre) (last_char pre None) (token +:+ post) [])
              post Htoken eq_refl) as (s' & Hs' & _).
  by eapply run_Some_complete.
Qed.

(** ** classifyCostType *)

(** X1.  A description that mentions Application or Infrastructure, in any
    letter case, is an internal cost, whatever else it mentions. *)
Theorem classifyCostType_internal_first (pre word post : string) :
  Js.toLowerCase word = "application" \/ Js.toLowerCase word = "infrastructure" ->
  classifyCostType (pre +:+ word +:+ post) = "Internal".
Proof.
  intros Hword. unfold classifyCostType, Js.toLowerCase in *.
  rewrite !smap_app.
  destruct Hword as [-> | ->].
  - by rewrite (includes_context "application") by by vm_compute.
  - rewrite (includes_context "infrastructure") by by vm_compute.
    by rewrite orb_true_r.
Qed.

Lemma classifyCostType_internal_first_witness :
  (Js.toLowerCase "APPLICATION" = "application" \/
   Js.toLowerCase "APPLICATION" = "infrastructure") /\
  classifyCostType ("External " +:+ "APPLICATION" +:+ " support") = "Internal".
Proof.
  assert (Js.toLowerCase "APPLICATION" = "application" \/
          Js.toLowerCase "APPLICATION" = "infrastructure") as Hword
    by (left; reflexivity).
  split; [exact Hword|].
  exact (classifyCostType_internal_first "External " "APPLICATION" " support" Hword).
Defined.

(** ** extractQuantity *)

Lemma firstSome_Some {A B} (f : A -> option B) l y :
  firstSome f l = Some y -> exists x, x ∈ l /\ f x = Some y.
Proof.
  induction l as [|x l IH]; simpl; [done|].
  destruct (f x) as [y'|] eqn:E.
  - intros [= ->]. exists x. split; [left|done].
  - intros (x' & ? & ?)%IH. exists x'. split; [by right|done].
Qed.

(** X2.  The quantity is a whole number from 1 to 999: 1 unless one of the
    tokens between the two indices reads as such a number. *)
Theorem extractQuantity_range (parts : list string) (startIndex endIndex : nat) :
  let quantity := extractQuantity parts startIndex endIndex in
  1 <= quantity <= 999 /\
  (quantity = 1 \/
   exists i, (startIndex + 2 <= i < endIndex)%nat /\
             parseInt10 (parts !! i) = Some quantity).
Proof.
  unfold extractQuantity.
  destruct (firstSome _ _) as [num|] eqn:E; [|by split; [lia|left]].
  apply firstSome_Some in E as (i & Hi & Hnum).
  apply elem_of_seq in Hi. unfold extractQuantity_at in Hnum.
  destruct (parseInt10 (parts !! i)) as [num'|] eqn:E'; [|done].
  destruct ((0 <? num') && (num' <? 1000)) eqn:Hrange; [|done].
  simplify_eq. apply andb_prop in Hrange as [?%Z.ltb_lt ?%Z.ltb_lt].
  split; [lia|]. right. exists i. split; [lia|done].
Qed.

(** ** makeCSSClass *)

Lemma length_smap f s : String.length (Js.smap f s) = String.length s.
Proof. induction s as [|c s IH]; simpl; [done|by rewrite IH]. Qed.

Lemma every_smap p f s :
  (forall c, p (f c) = true) -> every p (Js.smap f s) = true.
Proof. intros Hf. induction s as [|c s IH]; simpl; [done|]. by rewrite Hf, IH. Qed.

Lemma smap_id f s :
  every (fun c => Ascii.eqb (f c) c) s = true -> Js.smap f s = s.
Proof.
  induction s as [|c s IH]; simpl; [done|].
  intros [->%Ascii.eqb_eq Hs]%andb_prop. by rewrite IH.
Qed.

Lemma every_impl (p q : ascii -> bool) s :
  (forall c, p c = true -> q c = true) -> every p s = true -> every q s = true.
Proof.
  intros Hpq. induction s as [|c s IH]; simpl; [done|].
  intros [Hc Hs]%andb_prop. by rewrite (Hpq _ Hc), IH.
Qed.

Lemma cssSafe_replaced c : cssSafe (if notCssSafe c then "_"%char else c) = true.
Proof. destruct c as [[] [] [] [] [] [] [] []]; by vm_compute. Qed.

Lemma cssSafe_kept c :
  cssSafe c = true -> Ascii.eqb (if notCssSafe c then "_"%char else c) c = true.
Proof. destruct c as [[] [] [] [] [] [] [] []]; by vm_compute. Qed.

Lemma cssSafeLower_replaced c :
  cssSafeLower (Js.lower (if notCssSafe c then "_"%char else c)) = true.
Proof. destruct c as [[] [] [] [] [] [] [] []]; by vm_compute. Qed.

Lemma cssSafeLower_kept c :
  cssSafeLower c = true ->
  Ascii.eqb (Js.lower (if notCssSafe c then "_"%char else c)) c = true.
Proof. destruct c as [[] [] [] [] [] [] [] []]; by vm_compute. Qed.

(** X3.  The class name the extractor derives from a string has the length
    of the string and holds letters, digits, hyphens and underscores
    only; a string of such characters is its own class name, so that the
    function is idempotent. *)
Theorem makeCSSClass_safe (str : string) :
  String.length (makeCSSClass str) = String.length str /\
  every cssSafe (makeCSSClass str) = true /\
  (every cssSafe str = true -> makeCSSClass str = str) /\
  makeCSSClass (makeCSSClass str) = makeCSSClass str.
Proof.
  unfold makeCSSClass, replaceClass.
  assert (every cssSafe (Js.smap (fun c => if notCssSafe c then "_"%char else c) str)
          = true) as Hsafe by apply every_smap, cssSafe_replaced.
  assert (forall s, every cssSafe s = true ->
            Js.smap (fun c => if notCssSafe c then "_"%char else c) s = s) as Hid.
  { intros s Hs. apply smap_id. revert Hs. apply every_impl, cssSafe_kept. }
  split; [apply length_smap|]. split; [done|]. split; [apply Hid|by apply Hid].
Qed.

(** X4.  The class name of the common utilities is never empty, holds
    lower-case letters, digits, hyphens and underscores only, and is its
    own class name: the function is idempotent, on every value. *)
Theorem common_makeCSSClass_idempotent (str : jsval) :
  let name := Common.makeCSSClass str in
  name <> "" /\
  every cssSafeLower name = true /\
  Common.makeCSSClass (VStr name) = name.
Proof.
  assert (forall s, every cssSafeLower s = true -> s <> "" ->
            Common.makeCSSClass (VStr s) = s) as Hid.
  { intros s Hs Hne. destruct s as [|c s]; [done|].
    unfold Common.makeCSSClass, replaceClass, Js.toLowerCase.
    set (t := String c s) in *. clearbody t.
    assert (forall f g u, Js.smap f (Js.smap g u) = Js.smap (fun x => f (g x)) u)
      as -> by (intros f g u; induction u as [|x u IH]; simpl; [done|by rewrite IH]).
    apply smap_id. revert Hs. apply every_impl, cssSafeLower_kept. }
  assert (forall s, s <> "" ->
            let name := Common.makeCSSClass (VStr s) in
            name <> "" /\ every cssSafeLower name = true) as Hstr.
  { intros s Hne. destruct s as [|c s]; [done|]. split; [done|].
    unfold Common.makeCSSClass, replaceClass, Js.toLowerCase.
    set (t := String c s). clearbody t.
    assert (forall f g u, Js.smap f (Js.smap g u) = Js.smap (fun x => f (g x)) u)
      as -> by (intros f g u; induction u as [|x u IH]; simpl; [done|by rewrite IH]).
    apply every_smap, cssSafeLower_replaced. }
  assert (Common.makeCSSClass (VStr "unknown") = "unknown") as Hunknown by done.
  destruct str as [| | |s]; try (by repeat split).
  destruct (decide (s = "")) as [->|Hne]; [by repeat split|].
  destruct (Hstr s Hne) as [Hname Hsafe]. cbv zeta.
  split; [done|]. split; [done|]. by apply Hid.
Qed.

(** ** clearStorageByPrefix *)

Lemma clear_foldl (keysToDelete : list string) : forall n (st : Common.storage),
  NoDup keysToDelete ->
  (forall k, k ∈ keysToDelete -> is_Some (st !! k)) ->
  let r := foldl (fun '(deletedCount, localStorage) key =>
                    (S deletedCount, delete key localStorage))
                 (n, st) keysToDelete in
  (forall key, r.2 !! key = if decide (key ∈ keysToDelete) then None else st !! key) /\
  (r.1 + size r.2 = n + size st)%nat.
Proof.
  induction keysToDelete as [|k ks IH]; intros n st Hnodup Hin; cbn [foldl].
  - split; [|done]. intros key. by rewrite decide_False by apply not_elem_of_nil.
  - apply NoDup_cons in Hnodup as [Hk Hnodup].
    destruct (IH (S n) (delete k st) Hnodup) as [Hlookup Hsize].
    { intros k' Hk'. rewrite lookup_delete_ne by (by intros ->).
      apply Hin. by right. }
    split.
    + intros key. rewrite Hlookup.
      destruct (decide (key ∈ ks)) as [Hkey|Hkey];
        destruct (decide (key ∈ k :: ks)) as [Hkey'|Hkey']; try done.
      * destruct Hkey'. by right.
      * apply elem_of_cons in Hkey' as [-> | ?]; [apply lookup_delete_eq|done].
      * apply lookup_delete_ne. intros ->. apply Hkey'. left.
    + rewrite Hsize, map_size_delete_Some by (apply Hin; left).
      destruct (Hin k) as [v Hv]; [left|].
      assert (size st <> 0)%nat; [|lia].
      intros ?%map_size_empty_inv. subst st. by rewrite lookup_empty in Hv.
Qed.

(** X5.  After the call no entry is left under a non-empty key that starts
    with the prefix, every other entry is as it was (the entry under the
    empty key among them, whatever the prefix), and the count returned is
    the number of entries that are gone. *)
Theorem clearStorageByPrefix_spec (prefix : string) (localStorage : Common.storage) :
  let r := Common.clearStorageByPrefix prefix localStorage in
  (forall key, r.2 !! key = if cleared prefix key then None else localStorage !! key) /\
  (r.1 + size r.2 = size localStorage)%nat.
Proof.
  unfold Common.clearStorageByPrefix.
  set (keysToDelete := List.filter _ _).
  assert (forall k, k ∈ keysToDelete <->
                    cleared prefix k = true /\ is_Some (localStorage !! k)) as Hkeys.
  { intros k. unfold keysToDelete. rewrite list_elem_of_In, filter_In.
    rewrite <- list_elem_of_In. unfold Common.keys. rewrite list_elem_of_fmap.
    split.
    - intros [([k' v] & -> & Hkv%elem_of_map_to_list) Hc]. split; [done|by exists v].
    - intros [Hc [v Hv]]. split; [|done]. exists (k, v). split; [done|].
      by apply elem_of_map_to_list. }
  destruct (clear_foldl keysToDelete 0 localStorage) as [Hlookup Hsize].
  { apply NoDup_ListNoDup, List.NoDup_filter, NoDup_ListNoDup, NoDup_fst_map_to_list. }
  { intros k Hk. by apply Hkeys. }
  split; [|done]. intros key. rewrite Hlookup.
  destruct (cleared prefix key) eqn:Hc.
  - destruct (decide (key ∈ keysToDelete)) as [|Hkey]; [done|].
    destruct (localStorage !! key) as [v|] eqn:Hv; [|done].
    destruct Hkey. apply Hkeys. split; [done|by exists v].
  - rewrite decide_False; [done|]. intros [? _]%Hkeys. congruence.
Qed.

(** ** normalizeExcelFieldNames *)

Lemma firstVariation_Some {V} (truthy : V -> bool) row fields variations value :
  Common.firstVariation truthy row fields variations = Some value ->
  truthy value = true /\
  exists field variation,
    field <> "" /\ row !! field = Some value /\ variation ∈ variations /\
    Common.alphanumeric (Js.toLowerCase field) = Common.alphanumeric variation.
Proof.
  induction variations as [|variation variations IH]; cbn [Common.firstVariation];
    [done|].
  assert (Common.firstVariation truthy row fields variations = Some value ->
          truthy value = true /\
          exists field variation0,
            field <> "" /\ row !! field = Some value /\
            variation0 ∈ variation :: variations /\
            Common.alphanumeric (Js.toLowerCase field)
            = Common.alphanumeric variation0) as Hnext.
  { intros (? & field & variation0 & ? & ? & ? & ?)%IH. split; [done|].
    exists field, variation0. repeat split; [done..|by right|done]. }
  destruct (Common.matchingField fields variation) as [field|] eqn:Hfield; [|done].
  apply List.find_some in Hfield as [_ Heq%String.eqb_eq].
  destruct (String.eqb field "") eqn:Hempty; [done|].
  destruct (row !! field) as [v|] eqn:Hv; [|done].
  destruct (truthy v) eqn:Hv'; [|done].
  intros [= ->]. split; [done|]. exists field, variation.
  repeat split; [by intros ->|done|left|done].
Qed.

Lemma normalize_foldl {V} (truthy : V -> bool) (row : gmap string V) fields
    (fm : list (string * list string)) : forall acc : gmap string V,
  let r := foldl (fun normalizedRow '(standardName, variations) =>
                    match Common.firstVariation truthy row fields variations with
                    | Some value => <[standardName := value]> normalizedRow
                    | None => normalizedRow
                    end) acc fm in
  (forall name, name ∉ fm.*1 -> r !! name = acc !! name) /\
  (forall name, is_Some (acc !! name) -> is_Some (r !! name)) /\
  (forall name value, r !! name = Some value ->
     acc !! name = Some value \/
     (truthy value = true /\
      exists field variations variation,
        field <> "" /\ row !! field = Some value /\
        (name, variations) ∈ fm /\ variation ∈ variations /\
        Common.alphanumeric (Js.toLowerCase field) = Common.alphanumeric variation)).
Proof.
  induction fm as [|[standardName variations] fm IH]; intros acc; cbn [foldl].
  - split; [done|]. split; [done|]. by left.
  - set (acc' := match Common.firstVariation truthy row fields variations with
                 | Some value => <[standardName := value]> acc
                 | None => acc
                 end).
    destruct (IH acc') as (Hother & Hdom & Hset). split; [|split].
    + intros name Hname. rewrite fmap_cons, not_elem_of_cons in Hname.
      destruct Hname as [Hne Hname]. rewrite (Hother _ Hname). unfold acc'.
      destruct (Common.firstVariation _ _ _ _); [|done].
      by apply lookup_insert_ne.
    + intros name Hname. apply Hdom. unfold acc'.
      destruct (Common.firstVariation _ _ _ _); [|done].
      rewrite lookup_insert. by case_decide.
    + intros name value [Hacc|(Htruthy & field & vs & v & ? & ? & ? & ? & ?)]%Hset.
      * unfold acc' in Hacc.
        destruct (Common.firstVariation _ _ _ _) as [value'|] eqn:Hfirst;
          [|by left].
        rewrite lookup_insert in Hacc. case_decide; [|by left]. simplify_eq.
        apply firstVariation_Some in Hfirst
          as (Htruthy & field & variation & ? & ? & ? & ?).
        right. split; [done|]. exists field, variations, variation.
        repeat split; [done..|left|done|done].
      * right. split; [done|]. exists field, vs, v.
        repeat split; [done..|by right|done|done].
Qed.

(** X6.  Every field of the row is kept, with its value unless its name is one
    of the ten standard names; and a standard name is set to nothing but
    the value it had, or the truthy value of a field whose name reads as
    one of its variations. *)
Theorem normalizeExcelFieldNames_keeps_fields {V} (truthy : V -> bool)
    (rawRow : list (string * V)) :
  let row : gmap string V := list_to_map rawRow in
  let normalizedRow := Common.normalizeExcelFieldNames truthy rawRow in
  (forall name, name ∉ standardNames -> normalizedRow !! name = row !! name) /\
  (forall name, is_Some (row !! name) -> is_Some (normalizedRow !! name)) /\
  (forall name value, normalizedRow !! name = Some value ->
     row !! name = Some value \/ setFrom truthy row name value).
Proof. apply normalize_foldl. Qed.

(** ** Anchored patterns *)

Lemma exec_at_ext r1 r2 :
  (forall k s, run r1 k s = run r2 k s) ->
  forall t i pv, exec_at r1 i pv t = exec_at r2 i pv t.
Proof.
  intros Hrun. induction t as [|c t IH]; intros i pv; cbn [exec_at]; rewrite Hrun;
    [done|]. by rewrite IH.
Qed.

Lemma test_ext r1 r2 text :
  (forall k s, run r1 k s = run r2 k s) -> test r1 text = test r2 text.
Proof. intros Hrun. unfold test, exec. by rewrite (exec_at_ext r1 r2 Hrun). Qed.

Lemma last_char_Some w : forall c, is_Some (last_char w (Some c)).
Proof. induction w as [|x w IH]; intros c; simpl; [by eexists|apply IH]. Qed.

Lemma last_char_is_None pre pv : last_char pre pv = None -> pre = "".
Proof.
  destruct pre as [|c pre]; [done|]. simpl.
  destruct (last_char_Some pre c) as [x ->]. done.
Qed.

Lemma steps_Bol s e : steps (Bol false) s e -> prev s = None /\ e = s.
Proof.
  cbn [steps run]. intros [H ->]. split; [|done].
  by destruct (prev s).
Qed.

Lemma steps_Eol s e : steps (Eol false) s e -> rest s = "" /\ e = s.
Proof.
  cbn [steps run]. unfold next. intros [H ->]. split; [|done].
  by destruct (rest s).
Qed.

Lemma steps_Eol_intro s : rest s = "" -> steps (Eol false) s s.
Proof. intros H. cbn [steps run]. unfold next. by rewrite H. Qed.

(** A pattern between [^] and [$] is found in the words of its language,
    and in no other text. *)
Lemma test_anchored body text :
  plain body = true ->
  (test (Seq (Bol false) (Seq body (Eol false))) text = true <-> lang body text).
Proof.
  intros Hplain. unfold test. split.
  - destruct (exec _ text) as [f|] eqn:E; [|done]. intros _.
    apply exec_found in E as (pre & post & -> & _ & Hrun%run_Some_sound & _).
    destruct Hrun as (s1 & [Hprev ->]%steps_Bol & s2 & Hbody & [Hrest _]%steps_Eol).
    simpl in Hprev. apply last_char_is_None in Hprev as ->.
    apply steps_lang in Hbody as (w & [Hw _] & Hlang). simpl in Hw.
    rewrite Hrest, app_nil_r in Hw. by rewrite app_nil_l, Hw.
  - intros Hlang.
    destruct (lang_steps body Hplain text (MState 0 None text []) "" Hlang)
      as (s' & Hs' & Hcursor); [by rewrite app_nil_r|].
    assert (is_Some (run (Seq (Bol false) (Seq body (Eol false))) Some
                         (MState 0 None text []))) as [e He].
    { apply (run_Some_complete _ _ s'). exists (MState 0 None text []).
      split; [done|]. exists s'. split; [done|].
      apply steps_Eol_intro, Hcursor. }
    unfold exec. destruct text; cbn [exec_at]; by rewrite He.
Qed.

(** The match of a pattern followed by [$] is the longest suffix of the
    text that is a word of the pattern. *)
Lemma exec_suffix r text :
  plain r = true ->
  match exec (Seq r (Eol false)) text with
  | Some f =>
      exists pre w,
        text = pre +:+ w /\ lang r w /\ f_index f = String.length pre /\
        steps r (MState (String.length pre) (last_char pre None) w []) (f_end f) /\
        pos (f_end f) = String.length text /\
        forall pre' w', text = pre' +:+ w' ->
          (String.length pre' < String.length pre)%nat -> ~ lang r w'
  | None => forall pre w, text = pre +:+ w -> ~ lang r w
  end.
Proof.
  intros Hplain.
  assert (forall pre w, lang r w ->
            is_Some (run (Seq r (Eol false)) Some
                         (MState (String.length pre) (last_char pre None) w [])))
    as Hfound.
  { intros pre w Hlang.
    destruct (lang_steps r Hplain w
                (MState (String.length pre) (last_char pre None) w []) "" Hlang)
      as (s' & Hs' & Hcursor); [by rewrite app_nil_r|].
    apply (run_Some_complete _ _ s'). exists s'. split; [done|].
    apply steps_Eol_intro, Hcursor. }
  destruct (exec _ text) as [f|] eqn:E.
  - apply exec_found in E as (pre & post & -> & Hindex & Hrun & Hleft).
    apply run_Some_sound in Hrun as (s1 & Hr & [Hrest <-]%steps_Eol).
    destruct (steps_lang _ _ _ Hr) as (w & [Hw Hpos] & Hlang). simpl in Hw, Hpos.
    rewrite Hrest, app_nil_r in Hw. subst post.
    exists pre, w. repeat split; [done..| |].
    + rewrite Hpos, length_app. done.
    + intros pre' w' Htext Hlen Hlang'.
      specialize (Hleft pre' w' Htext Hlen).
      destruct (Hfound pre' w' Hlang') as [e He]. by rewrite Hleft in He.
  - intros pre w -> Hlang. destruct (Hfound pre w Hlang) as [e He].
    assert (is_Some (exec (Seq r (Eol false)) (pre +:+ w))) as [f Hf];
      [|congruence].
    apply exec_at_complete. rewrite Nat.add_0_l. by exists e.
Qed.

(** ** The words of the building blocks *)

Lemma lang_lit c w : lang (lit c) w <-> w = String c "".
Proof.
  unfold lit. cbn [lang]. split.
  - by intros (x & -> & ->%Ascii.eqb_eq).
  - intros ->. exists c. by rewrite Ascii.eqb_refl.
Qed.

Lemma lang_plus_class p w :
  lang (plus (Chr p)) w <-> w <> "" /\ every p w = true.
Proof.
  unfold plus. split.
  - intros [Hw [[Hmin|[=]] _]]%lang_class_rep. split; [|done].
    intros ->. simpl in Hmin. lia.
  - intros [Hne Hw]. apply class_rep_lang; [done|]. split; [|done].
    left. destruct w; [done|simpl; lia].
Qed.

Lemma lang_times_class p n w :
  lang (times n (Chr p)) w <-> String.length w = n /\ every p w = true.
Proof.
  unfold times. split.
  - intros [Hw Hn]%lang_class_rep. apply within_bounded in Hn; [|done].
    split; [lia|done].
  - intros [<- Hw]. apply class_rep_lang; [done|]. split; [by left|].
    by intros m [= <-].
Qed.

Lemma lang_range_class p m n w :
  (m <= n)%nat ->
  lang (range m n (Chr p)) w <->
  (m <= String.length w <= n)%nat /\ every p w = true.
Proof.
  intros Hmn. unfold range. split.
  - intros [Hw Hn]%lang_class_rep. apply within_bounded in Hn; done.
  - intros [Hlen Hw]. apply class_rep_lang; [done|]. split; [left; lia|].
    intros b [= <-]. lia.
Qed.

(** ** isValidEmail *)

(** X7.  A string is a valid address exactly when it reads [local@host.tld],
    each of the three parts being non-empty and free of white space and
    of at signs; nothing that is not a string is valid. *)
Theorem isValidEmail_spec (email : string) :
  Common.isValidEmail (VStr email) = true <->
  exists loc host tld,
    email = loc +:+ "@" +:+ host +:+ "." +:+ tld /\
    emailPart loc /\ emailPart host /\ emailPart tld.
Proof.
  set (body := seq [plus Common.notSpaceNorAt; lit "@"; plus Common.notSpaceNorAt;
                    lit "."; plus Common.notSpaceNorAt]).
  assert (lang body email <->
          exists loc host tld,
            email = loc +:+ "@" +:+ host +:+ "." +:+ tld /\
            emailPart loc /\ emailPart host /\ emailPart tld) as Hbody.
  { unfold body, Common.notSpaceNorAt. cbn [seq lang]. split.
    - intros (loc & ? & -> & Hloc%lang_plus_class & ? & ? & -> & ->%lang_lit
              & host & ? & -> & Hhost%lang_plus_class & ? & tld & -> & ->%lang_lit
              & Htld%lang_plus_class).
      by exists loc, host, tld.
    - intros (loc & host & tld & -> & Hloc & Hhost & Htld).
      exists loc, ("@" +:+ host +:+ "." +:+ tld).
      split; [done|]. split; [by apply lang_plus_class|].
      exists "@", (host +:+ "." +:+ tld). split; [done|].
      split; [by apply lang_lit|].
      exists host, ("." +:+ tld). split; [done|]. split; [by apply lang_plus_class|].
      exists ".", tld. split; [done|]. split; [by apply lang_lit|].
      by apply lang_plus_class. }
  rewrite <- Hbody, <- (test_anchored body) by done.
  destruct email as [|c email].
  - split; [done|]. by vm_compute.
  - unfold Common.isValidEmail. by rewrite (test_ext _ (Seq (Bol false) (Seq body (Eol false)))).
Qed.

(** ** More on strings *)

Lemma endsWith_spec sub s : Js.endsWith sub s = true <-> exists pre, s = pre +:+ sub.
Proof.
  induction s as [|c s IH]; cbn [Js.endsWith].
  - rewrite orb_false_r, String.eqb_eq. split.
    + intros ->. by exists "".
    + intros (pre & H). destruct pre; [by rewrite app_nil_l in H|].
      by rewrite app_cons in H.
  - rewrite orb_true_iff, String.eqb_eq, IH. split.
    + intros [-> | (pre & ->)]; [by exists ""|]. by exists (String c pre).
    + intros ([|x pre] & H).
      * left. by rewrite app_nil_l in H.
      * right. rewrite app_cons in H. injection H as -> ->. by exists pre.
Qed.

Lemma drop_all s : Js.drop (String.length s) s = "".
Proof. by induction s. Qed.

Lemma app_eq_app (a b c e : string) :
  a +:+ b = c +:+ e ->
  (exists m, a = c +:+ m /\ e = m +:+ b) \/ (exists m, c = a +:+ m /\ b = m +:+ e).
Proof.
  revert c. induction a as [|x a IH]; intros c H.
  - right. exists c. by rewrite app_nil_l in *.
  - destruct c as [|y c].
    + left. exists (String x a). by rewrite app_nil_l in *.
    + rewrite !app_cons in H. injection H as -> H.
      destruct (IH _ H) as [(m & -> & ->)|(m & -> & ->)]; [left|right]; by exists m.
Qed.

Lemma app_inj_length (a b c e : string) :
  a +:+ b = c +:+ e -> String.length b = String.length e -> a = c /\ b = e.
Proof.
  intros H Hlen. destruct (app_eq_app _ _ _ _ H) as [(m & -> & ->)|(m & -> & ->)];
    rewrite length_app in Hlen; (destruct m; [|simpl in Hlen; lia]);
    by rewrite app_nil_r, app_nil_l.
Qed.

Lemma trimEnd_app u v : Js.trimEnd v <> "" -> Js.trimEnd (u +:+ v) = u +:+ Js.trimEnd v.
Proof.
  intros Hv. induction u as [|c u IH]; [done|].
  rewrite !app_cons. cbn [Js.trimEnd]. rewrite IH.
  destruct (u +:+ Js.trimEnd v) eqn:E; [|done].
  destruct u; [|done]. by rewrite app_nil_l in E.
Qed.

Lemma trimEnd_id w :
  every (fun c => negb (Js.is_space c)) w = true -> Js.trimEnd w = w.
Proof.
  induction w as [|c w IH]; [done|]. cbn [every Js.trimEnd].
  intros [Hc Hw]%andb_prop. rewrite (IH Hw).
  destruct w; [|done]. by destruct (Js.is_space c).
Qed.

Lemma trimStart_app pre w c :
  Js.is_space c = false ->
  exists ws pre', pre = ws +:+ pre' /\
    Js.trimStart (pre +:+ String c w) = pre' +:+ String c w.
Proof.
  intros Hc. induction pre as [|x pre (ws & pre' & -> & IH)].
  - exists "", "". split; [done|]. rewrite app_nil_l. simpl. by rewrite Hc.
  - rewrite app_cons. cbn [Js.trimStart]. destruct (Js.is_space x).
    + exists (String x ws), pre'. by rewrite app_cons.
    + exists "", (String x (ws +:+ pre')). by rewrite app_nil_l, app_cons.
Qed.

Lemma last_char_smap f w : forall pv,
  last_char (Js.smap f w) (option_map f pv) = option_map f (last_char w pv).
Proof. induction w as [|c w IH]; intros pv; simpl; [done|]. apply (IH (Some c)). Qed.

Lemma last_char_smap_None f w :
  last_char (Js.smap f w) None = option_map f (last_char w None).
Proof. apply (last_char_smap f w None). Qed.

Lemma every_last_char p w pv :
  every p w = true -> w <> "" -> exists c, last_char w pv = Some c /\ p c = true.
Proof.
  revert pv. induction w as [|c w IH]; intros pv; [done|]. simpl.
  intros [Hc Hw]%andb_prop _. destruct w as [|c' w]; [by exists c|].
  by apply IH.
Qed.

Lemma last_char_nonempty w a b : w <> "" -> last_char w a = last_char w b.
Proof. by destruct w. Qed.

Lemma smap_eq_app f s a b :
  Js.smap f s = a +:+ b ->
  exists sa sb, s = sa +:+ sb /\ Js.smap f sa = a /\ Js.smap f sb = b.
Proof.
  revert s. induction a as [|x a IH]; intros s H.
  - exists "", s. by rewrite app_nil_l in *.
  - destruct s as [|c s]; [by rewrite app_cons in H|].
    rewrite app_cons in H. simpl in H. injection H as <- H.
    destruct (IH _ H) as (sa & sb & -> & <- & <-).
    by exists (String c sa), sb.
Qed.

Lemma upper_digit c : Js.is_digit (Js.upper c) = true -> Js.upper c = c.
Proof. destruct c as [[] [] [] [] [] [] [] []]; by vm_compute. Qed.

Lemma is_letter_upper c : is_letter (Js.upper c) = is_letter c.
Proof. destruct c as [[] [] [] [] [] [] [] []]; by vm_compute. Qed.

Lemma upper_not_space c :
  Js.is_upper (Js.upper c) || Js.is_digit (Js.upper c) = true -> Js.is_space c = false.
Proof. destruct c as [[] [] [] [] [] [] [] []]; by vm_compute. Qed.

Lemma upper_is_letter c : Js.is_upper c = true -> is_letter c = true.
Proof. unfold is_letter. by intros ->. Qed.

Lemma smap_digits w :
  every Js.is_digit (Js.smap Js.upper w) = true ->
  Js.smap Js.upper w = w /\ every Js.is_digit w = true.
Proof.
  induction w as [|c w IH]; simpl; [done|].
  intros [Hc Hw]%andb_prop. destruct (IH Hw) as [Hw1 Hw2].
  pose proof (upper_digit c Hc) as Hu. rewrite Hu in Hc |- *.
  by rewrite Hw1, Hc, Hw2.
Qed.

(** ** standardizeWBS *)

Lemma plain_str s : plain (str s) = true.
Proof.
  induction s as [|c s IH]; [done|]. destruct s as [|c' s]; [done|].
  change (plain (lit c) && plain (str (String c' s)) = true). by rewrite IH.
Qed.

Lemma lang_str s w : lang (str s) w <-> w = s.
Proof.
  revert w. induction s as [|c s IH]; intros w; [done|].
  destruct s as [|c' s].
  - cbn [str]. apply lang_lit.
  - change (str (String c (String c' s))) with (Seq (lit c) (str (String c' s))).
    cbn [lang]. split.
    + by intros (u & v & -> & ->%lang_lit & ->%IH).
    + intros ->. exists (String c ""), (String c' s).
      split; [done|]. split; [by apply lang_lit|by apply IH].
Qed.

Lemma removeFirst_exnSuffix_found pre :
  removeFirst Common.exnSuffix (pre +:+ "-EXN") = pre.
Proof.
  pose proof (exec_suffix (str "-EXN") (pre +:+ "-EXN") (plain_str _)) as H.
  unfold removeFirst, Common.exnSuffix. cbn [seq].
  destruct (exec _ _) as [f|].
  - destruct H as (pre0 & w & Htext & ->%lang_str & Hindex & _ & Hpos & _).
    apply app_inj_length in Htext as [-> _]; [|done].
    by rewrite Hindex, Hpos, take_app_length, drop_all, app_nil_r.
  - destruct (H pre "-EXN" eq_refl). by apply lang_str.
Qed.

Lemma removeFirst_exnSuffix_none text :
  Js.endsWith "-EXN" text = false -> removeFirst Common.exnSuffix text = text.
Proof.
  intros Hends.
  pose proof (exec_suffix (str "-EXN") text (plain_str _)) as H.
  unfold removeFirst, Common.exnSuffix. cbn [seq].
  destruct (exec _ _) as [f|]; [|done].
  destruct H as (pre0 & w & -> & ->%lang_str & _).
  assert (Js.endsWith "-EXN" (pre0 +:+ "-EXN") = true) by (apply endsWith_spec; eauto).
  congruence.
Qed.

Lemma substr_suffix pre w :
  substr (String.length pre) (String.length (pre +:+ w)) (pre +:+ w) = w.
Proof.
  unfold substr. rewrite drop_app_length, length_app.
  replace (String.length pre + String.length w - String.length pre)%nat
    with (String.length w) by lia.
  rewrite <- (app_nil_r w) at 2. apply take_app_length.
Qed.

(** The match of a group followed by [$]: the group holds the longest
    suffix of the text that is a word of its pattern. *)
Lemma exec_suffix_group body text :
  plain body = true ->
  match exec (Seq (Grp 1 body) (Eol false)) text with
  | Some f =>
      exists pre w,
        text = pre +:+ w /\ lang body w /\ group_str 1 text f = w /\
        forall pre' w', text = pre' +:+ w' ->
          (String.length pre' < String.length pre)%nat -> ~ lang body w'
  | None => forall pre w, text = pre +:+ w -> ~ lang body w
  end.
Proof.
  intros Hplain. pose proof (exec_suffix (Grp 1 body) text Hplain) as H.
  destruct (exec _ text) as [f|]; [|done].
  destruct H as (pre & w & -> & Hlang & Hindex & Hsteps & Hpos & Hleft).
  exists pre, w. repeat split; [done| |done].
  apply steps_Grp in Hsteps as (_ & _ & _ & Hcap). simpl in Hcap.
  rewrite (group_str_cap _ _ _ _ _ Hcap), Hpos. apply substr_suffix.
Qed.

Lemma lang_rtcCode w :
  lang rtcCode w <->
  exists l dg, w = l +:+ dg /\
    String.length l = 3%nat /\ every Js.is_upper l = true /\
    String.length dg = 7%nat /\ every Js.is_digit dg = true.
Proof.
  unfold rtcCode, AZ, d. cbn [seq lang]. split.
  - intros (l & dg & -> & [? ?]%lang_times_class & [? ?]%lang_times_class).
    by exists l, dg.
  - intros (l & dg & -> & ? & ? & ? & ?). exists l, dg.
    split; [done|]. split; by apply lang_times_class.
Qed.

Lemma lang_projectCode w :
  lang Common.projectCode w <->
  exists l dg, w = l +:+ dg /\
    (2 <= String.length l <= 4)%nat /\ every Js.is_upper l = true /\
    String.length dg = 7%nat /\ every Js.is_digit dg = true.
Proof.
  unfold Common.projectCode, AZ, d. cbn [seq lang]. split.
  - intros (l & dg & -> & [? ?]%lang_range_class & [? ?]%lang_times_class); [|lia].
    by exists l, dg.
  - intros (l & dg & -> & ? & ? & ? & ?). exists l, dg.
    split; [done|]. split; [apply lang_range_class; [lia|done]|by apply lang_times_class].
Qed.

Lemma rtcCode_projectCode w : lang rtcCode w -> lang Common.projectCode w.
Proof.
  intros (l & dg & -> & Hl & ? & ? & ?)%lang_rtcCode. apply lang_projectCode.
  exists l, dg. repeat split; [lia..|done|done|done].
Qed.

(** In a text that ends with a project code, and has no letter before
    it, the code is the longest suffix that reads as two to four letters
    and seven digits. *)
Lemma projectSuffix_exact X P :
  lang rtcCode P -> endsWithLetter X = false ->
  exists f, exec Common.projectSuffix (X +:+ P) = Some f /\
            group_str 1 (X +:+ P) f = P.
Proof.
  intros HP HX.
  pose proof (exec_suffix_group Common.projectCode (X +:+ P) eq_refl) as H.
  unfold Common.projectSuffix. cbn [seq].
  destruct (exec _ _) as [f|];
    [|by destruct (H X P eq_refl); apply rtcCode_projectCode].
  exists f. split; [done|].
  destruct H as (p0 & w & Htext & Hw & -> & Hleft).
  destruct (app_eq_app _ _ _ _ Htext) as [(m & -> & ->)|(m & -> & ->)].
  - (* the match is at least as long as the code *)
    destruct m as [|x m]; [by rewrite app_nil_l|]. exfalso.
    apply lang_projectCode in Hw as (l & dg & Hw & Hl & Hupper & Hdg & _).
    apply lang_rtcCode in HP as (l3 & d7 & -> & Hl3 & _ & Hd7 & _).
    rewrite <- app_assoc in Hw. apply app_inj_length in Hw as [<- _]; [|lia].
    rewrite length_app in Hl. destruct m; [|simpl in Hl; lia].
    rewrite app_cons, app_nil_l in Hupper. simpl in Hupper.
    apply andb_prop in Hupper as [Hx _].
    unfold endsWithLetter in HX. rewrite last_char_app in HX. simpl in HX.
    by rewrite (upper_is_letter _ Hx) in HX.
  - (* a shorter match is not the leftmost one *)
    destruct m as [|x m]; [by rewrite app_nil_l|]. exfalso.
    apply (Hleft X (String x m +:+ w)); [done| |].
    + rewrite length_app. simpl. lia.
    + by apply rtcCode_projectCode.
Qed.

Lemma standardized_project_code pre project :
  lang rtcCode (Js.toUpperCase project) ->
  exists ws pre',
    pre = ws +:+ pre' /\
    Js.toUpperCase (Js.trim (removeFirst Common.exnSuffix (pre +:+ project)))
    = Js.toUpperCase pre' +:+ Js.toUpperCase project.
Proof.
  intros (l3 & d7 & HP & Hl3 & Hupper & Hd7 & Hdigit)%lang_rtcCode.
  apply smap_eq_app in HP as (pl & pd & -> & <- & <-).
  apply smap_digits in Hdigit as [Hpd Hdigit]. rewrite length_smap in Hl3, Hd7.
  assert (every (fun c => negb (Js.is_space c)) (pl +:+ pd) = true) as Hnospace.
  { rewrite every_app. apply andb_true_intro. split.
    - clear Hl3. induction pl as [|c pl IH]; [done|]. simpl in *.
      apply andb_prop in Hupper as [Hc Hpl]. rewrite (IH Hpl), andb_true_r.
      apply negb_true_iff, upper_not_space. by rewrite Hc.
    - revert Hdigit. apply every_impl. intros c Hc.
      by rewrite (digit_not_space c Hc). }
  assert (removeFirst Common.exnSuffix (pre +:+ pl +:+ pd) = pre +:+ pl +:+ pd) as ->.
  { apply removeFirst_exnSuffix_none.
    destruct (Js.endsWith "-EXN" _) eqn:E; [|done].
    apply endsWith_spec in E as (x & E).
    assert (last_char (pre +:+ pl +:+ pd) None = Some "N"%char) as Hlast
      by (by rewrite E, last_char_app).
    rewrite <- app_assoc, last_char_app in Hlast.
    destruct (every_last_char _ pd (last_char (pre +:+ pl) None) Hdigit)
      as (c & Hc & Hc'); [by destruct pd|].
    rewrite Hc in Hlast. by injection Hlast as ->. }
  destruct (pl +:+ pd) as [|c w] eqn:Eproject.
  { destruct pl; [done|]. by rewrite app_cons in Eproject. }
  simpl in Hnospace. apply andb_prop in Hnospace as [Hc%negb_true_iff Hw].
  destruct (trimStart_app pre w c Hc) as (ws & pre' & -> & Htrim).
  exists ws, pre'. split; [done|]. unfold Js.trim. rewrite Htrim.
  assert (Js.trimEnd (String c w) = String c w) as Hend.
  { apply trimEnd_id. simpl. by rewrite Hc, Hw. }
  rewrite trimEnd_app by (by rewrite Hend). rewrite Hend.
  unfold Js.toUpperCase. by rewrite smap_app.
Qed.

Lemma standardizeWBS_project_code pre project :
  lang rtcCode (Js.toUpperCase project) -> endsWithLetter pre = false ->
  Common.standardizeWBS (VStr (pre +:+ project)) = Js.toUpperCase project.
Proof.
  intros HP Hpre.
  destruct (standardized_project_code pre project HP) as (ws & pre' & -> & Hstd).
  assert (endsWithLetter (Js.toUpperCase pre') = false) as HX.
  { unfold endsWithLetter, Js.toUpperCase in *.
    rewrite last_char_smap_None.
    destruct pre' as [|c p]; [done|].
    rewrite last_char_app in Hpre.
    rewrite (last_char_nonempty (String c p) _ None) in Hpre by done.
    destruct (last_char (String c p) None); [|done]. simpl.
    by rewrite is_letter_upper. }
  destruct (projectSuffix_exact _ _ HP HX) as (f & Hf & Hgroup).
  unfold Common.standardizeWBS.
  destruct ((ws +:+ pre') +:+ project) as [|c w] eqn:E.
  { apply lang_rtcCode in HP as (l & dg & HP & Hl & _).
    destruct project; [|by destruct (ws +:+ pre')].
    destruct l; [done|]. by rewrite app_cons in HP. }
  by rewrite Hstd, Hf.
Qed.

(** X8.  A code that ends with a project code - three letters in either case
    and seven digits - and has no letter before it, as the codes of the
    full format do, is standardized to the project code in capital
    letters. *)
Theorem standardizeWBS_project (pre project : string) :
  lang rtcCode (Js.toUpperCase project) -> endsWithLetter pre = false ->
  Common.standardizeWBS (VStr (pre +:+ project)) = Js.toUpperCase project.
Proof. apply standardizeWBS_project_code. Qed.

Lemma standardizeWBS_project_witness :
  lang rtcCode (Js.toUpperCase "pro0022640") /\ endsWithLetter "EN44-" = false /\
  Common.standardizeWBS (VStr ("EN44-" +:+ "pro0022640")) = "PRO0022640".
Proof.
  assert (lang rtcCode (Js.toUpperCase "pro0022640")) as Hcode.
  { apply lang_rtcCode. exists "PRO", "0022640". by vm_compute. }
  assert (endsWithLetter "EN44-" = false) as Hpre by reflexivity.
  split; [exact Hcode|]. split; [exact Hpre|].
  exact (standardizeWBS_project "EN44-" "pro0022640" Hcode Hpre).
Defined.

(** X9.  The suffix -EXN of a code plays no part: a code and the same code
    followed by -EXN are standardized alike (the suffix is taken off
    once, so the code itself is to end otherwise). *)
Theorem standardizeWBS_exn_suffix (code : string) :
  Js.endsWith "-EXN" code = false ->
  Common.standardizeWBS (VStr (code +:+ "-EXN")) = Common.standardizeWBS (VStr code).
Proof.
  intros Hends. unfold Common.standardizeWBS.
  rewrite removeFirst_exnSuffix_found.
  destruct code as [|c code]; [by vm_compute|].
  rewrite app_cons. by rewrite removeFirst_exnSuffix_none.
Qed.

Lemma standardizeWBS_exn_suffix_witness :
  Js.endsWith "-EXN" "EN44-PRO0022640" = false /\
  Common.standardizeWBS (VStr ("EN44-PRO0022640" +:+ "-EXN"))
  = Common.standardizeWBS (VStr "EN44-PRO0022640").
Proof.
  assert (Js.endsWith "-EXN" "EN44-PRO0022640" = false) as Hends by reflexivity.
  split; [exact Hends|]. exact (standardizeWBS_exn_suffix "EN44-PRO0022640" Hends).
Defined.

(** ** isValidWBS *)

Lemma standardizeWBS_cases v :
  let s := Common.standardizeWBS v in
  s = "" \/ lang Common.projectCode s \/
  (forall pre w, s = pre +:+ w -> ~ lang Common.projectCode w).
Proof.
  destruct v as [| | |[|c code]]; try (by left). cbv zeta.
  unfold Common.standardizeWBS.
  set (standardized := Js.toUpperCase _).
  pose proof (exec_suffix_group Common.projectCode standardized eq_refl) as H.
  unfold Common.projectSuffix. cbn [seq].
  destruct (exec _ standardized) as [f|].
  - destruct H as (pre & w & _ & Hw & -> & _). by right; left.
  - by right; right.
Qed.

Lemma lang_fullWbsCode s :
  lang fullWbsCode s ->
  exists pre w, s = pre +:+ "-" +:+ w /\ lang rtcCode w.
Proof.
  unfold fullWbsCode. cbn [seq lang].
  intros (a & ? & -> & _ & b & ? & -> & _ & ? & ? & -> & ->%lang_lit & Hw).
  exists (a +:+ b), x1. split; [by rewrite !app_assoc|done].
Qed.

Lemma fullWbsRegex_never v :
  test Common.fullWbsRegex (Common.standardizeWBS v) = false.
Proof.
  destruct (test _ _) eqn:E; [|done]. exfalso.
  rewrite (test_ext _ (Seq (Bol false) (Seq fullWbsCode (Eol false)))) in E by done.
  apply test_anchored in E as (pre & w & Hs & Hw)%lang_fullWbsCode; [|done].
  destruct (standardizeWBS_cases v) as [Hempty|[Hcode|Hnone]].
  - rewrite Hempty in Hs. destruct pre; by rewrite ?app_nil_l, ?app_cons in Hs.
  - apply lang_projectCode in Hcode as (l & dg & Hcode & _ & Hl & _ & Hdg).
    assert (every (fun c => Js.is_upper c || Js.is_digit c)
                  (Common.standardizeWBS v) = true) as Hevery.
    { rewrite Hcode, every_app. apply andb_true_intro. split.
      - revert Hl. apply every_impl. by intros c ->.
      - revert Hdg. apply every_impl. intros c ->. apply orb_true_r. }
    rewrite Hs, !every_app in Hevery. simpl in Hevery.
    by rewrite andb_false_r in Hevery.
  - apply (Hnone (pre +:+ "-") w); [by rewrite app_assoc|].
    by apply rtcCode_projectCode.
Qed.

(** X10.  A code is valid exactly when its standardized form is a project
    code, three capital letters and seven digits: the test of the full
    format never succeeds on a standardized code, which holds no hyphen
    before a project code. *)
Theorem isValidWBS_spec (code : string) :
  (Common.isValidWBS (VStr code) = true <->
   lang rtcCode (Common.standardizeWBS (VStr code))) /\
  test Common.fullWbsRegex (Common.standardizeWBS (VStr code)) = false.
Proof.
  split; [|apply fullWbsRegex_never].
  destruct code as [|c code].
  - split; [done|]. by intros (l & dg & ? & ? & _)%lang_rtcCode; destruct l.
  - unfold Common.isValidWBS. rewrite fullWbsRegex_never, orb_false_l.
    rewrite (test_ext _ (Seq (Bol false) (Seq rtcCode (Eol false)))) by done.
    by apply test_anchored.
Qed.

(** X11.  The codes of the full format and the project codes, in either letter
    case, are valid: every code that ends with three letters and seven
    digits and has no letter before them. *)
Theorem isValidWBS_accepts (pre project : string) :
  lang rtcCode (Js.toUpperCase project) -> endsWithLetter pre = false ->
  Common.isValidWBS (VStr (pre +:+ project)) = true.
Proof.
  intros HP Hpre. unfold Common.isValidWBS.
  destruct (pre +:+ project) as [|c w] eqn:E.
  { apply lang_rtcCode in HP as (l & dg & HP & Hl & _).
    destruct project; [|by destruct pre].
    destruct l; [done|]. by rewrite app_cons in HP. }
  rewrite <- E, (standardizeWBS_project_code pre project HP Hpre).
  rewrite (test_ext Common.rtcProjectRegex (Seq (Bol false) (Seq rtcCode (Eol false))))
    by done.
  rewrite (proj2 (test_anchored rtcCode _ eq_refl) HP). apply orb_true_r.
Qed.

Lemma isValidWBS_accepts_witness :
  lang rtcCode (Js.toUpperCase "PRO0012345") /\ endsWithLetter "AA44-" = false /\
  Common.isValidWBS (VStr ("AA44-" +:+ "PRO0012345")) = true.
Proof.
  assert (lang rtcCode (Js.toUpperCase "PRO0012345")) as Hcode.
  { apply lang_rtcCode. exists "PRO", "0012345". by vm_compute. }
  assert (endsWithLetter "AA44-" = false) as Hpre by reflexivity.
  split; [exact Hcode|]. split; [exact Hpre|].
  exact (isValidWBS_accepts "AA44-" "PRO0012345" Hcode Hpre).
Defined.

(** ** Groups and spans *)

Lemma lookup_cap_filter i gs cs :
  i ∉ gs ->
  lookup_cap i (filter (fun b => negb (existsb (Nat.eqb (fst b)) gs)) cs)
  = lookup_cap i cs.
Proof.
  intros Hi. induction cs as [|[j span] cs IH]; [done|].
  rewrite filter_cons. cbn [fst].
  destruct (existsb (Nat.eqb j) gs) eqn:E; cbn [negb].
  - rewrite decide_False by (by intros []). rewrite IH. simpl.
    destruct (i =? j)%nat eqn:Hij; [|done].
    apply Nat.eqb_eq in Hij as ->.
    apply existsb_exists in E as (x & Hx & ->%Nat.eqb_eq).
    by apply list_elem_of_In in Hx.
  - rewrite decide_True by done. simpl. by rewrite IH.
Qed.

Lemma lookup_cap_clear_caps i gs s :
  i ∉ gs -> lookup_cap i (caps (clear_caps gs s)) = lookup_cap i (caps s).
Proof. intros Hi. destruct gs; [done|]. by apply lookup_cap_filter. Qed.

(** A pattern leaves the groups that are not its own as they are. *)
Lemma steps_keeps_cap r i : i ∉ groups r -> forall s e,
  steps r s e -> lookup_cap i (caps e) = lookup_cap i (caps s).
Proof.
  induction r as [|p|r1 IH1 r2 IH2|r1 IH1 r2 IH2|min max greedy r1 IH1|j r1 IH1
                  | |ml|ml|r1 IH1]; cbn [groups]; intros Hi s e; cbn [steps].
  - by intros ->.
  - by intros (c & t & _ & _ & ->).
  - rewrite not_elem_of_app in Hi. destruct Hi as [H1 H2].
    intros (s1 & Hs1 & He). by rewrite (IH2 H2 _ _ He), (IH1 H1 _ _ Hs1).
  - rewrite not_elem_of_app in Hi. destruct Hi as [H1 H2].
    intros [H|H]; [by apply IH1|by apply IH2].
  - intros (n & _ & Hiter). revert s Hiter.
    induction n as [|n IHn]; intros s; simpl; [by intros ->|].
    intros (s1 & Hs1 & He). rewrite (IHn _ He), (IH1 Hi _ _ Hs1).
    by apply lookup_cap_clear_caps.
  - rewrite not_elem_of_cons in Hi. destruct Hi as [Hij Hi].
    intros (s1 & Hs1 & ->). simpl.
    rewrite (proj2 (Nat.eqb_neq i j)) by done. by apply IH1.
  - by intros [_ ->].
  - by intros [_ ->].
  - by intros [_ ->].
  - by intros [_ ->].
Qed.

Lemma substr_moved text w s e :
  at_text text s -> moved w s e -> substr (pos s) (pos e) text = w.
Proof.
  intros Hs Hw. destruct (at_text_moved _ _ _ _ Hs Hw) as (pre & -> & Hpos & _).
  destruct Hw as [_ ->]. rewrite Hpos. apply substr_middle.
Qed.

Lemma at_text_start text : at_text text (MState 0 None text []).
Proof. by exists "". Qed.

Lemma at_text_split pre post pv cs :
  at_text (pre +:+ post) (MState (String.length pre) pv post cs).
Proof. by exists pre. Qed.

Lemma at_text_steps r text s e : at_text text s -> steps r s e -> at_text text e.
Proof.
  intros Hs (w & Hw & _)%steps_lang.
  by destruct (at_text_moved _ _ _ _ Hs Hw) as (_ & _ & _ & ?).
Qed.

(** ** Runs of a class *)

(** Two ways to read a run of a class up to a character that is not in
    the class are the same. *)
Lemma run_unique p a a' c c' b b' :
  a +:+ String c b = a' +:+ String c' b' ->
  every p a = true -> every p a' = true -> p c = false -> p c' = false ->
  a = a' /\ c = c' /\ b = b'.
Proof.
  revert a'. induction a as [|x a IH]; intros [|x' a']; rewrite ?app_nil_l, ?app_cons;
    simpl.
  - by intros [= -> ->].
  - intros [= -> _] _ [Hx _]%andb_prop Hc _. congruence.
  - intros [= -> _] [Hx _]%andb_prop _ _ Hc. congruence.
  - intros [= -> H] [_ Ha]%andb_prop [_ Ha']%andb_prop Hc Hc'.
    by destruct (IH _ H Ha Ha' Hc Hc') as (-> & -> & ->).
Qed.

Lemma prefix_length_eq (a b a' b' : string) :
  a +:+ b = a' +:+ b' -> String.length a = String.length a' -> a = a' /\ b = b'.
Proof.
  revert a'. induction a as [|x a IH]; intros [|x' a']; rewrite ?app_nil_l, ?app_cons;
    simpl; try done.
  intros [= -> H] [= Hlen]. by destruct (IH _ H Hlen) as [-> ->].
Qed.

Lemma startsWith_before p sub w t :
  every (fun c => negb (p c)) sub = true -> every p t = true ->
  Js.startsWith sub (w +:+ t) = Js.startsWith sub w.
Proof.
  intros Hsub Ht. revert w Hsub. induction sub as [|a sub IH]; intros w Hsub;
    [by destruct (w +:+ t), w|].
  simpl in Hsub. apply andb_prop in Hsub as [Ha Hsub].
  destruct w as [|x w].
  - rewrite app_nil_l. destruct t as [|y t]; [done|]. simpl in *.
    apply andb_prop in Ht as [Hy _].
    destruct (Ascii.eqb_spec a y) as [->|]; [|done]. by rewrite Hy in Ha.
  - rewrite app_cons. simpl. by rewrite IH.
Qed.

(** A word without character of a class does not reach into a run of the
    class that ends the text. *)
Lemma includes_before p sub w t :
  sub <> "" -> every (fun c => negb (p c)) sub = true -> every p t = true ->
  Js.includes sub (w +:+ t) = Js.includes sub w.
Proof.
  intros Hne Hsub Ht.
  assert (Js.includes sub t = false) as Hnone.
  { destruct sub as [|a sub]; [done|]. simpl in Hsub.
    apply andb_prop in Hsub as [Ha _]. clear Hne.
    induction t as [|y t IH]; [done|]. simpl in *.
    apply andb_prop in Ht as [Hy Ht]. rewrite (IH Ht), orb_false_r.
    destruct (Ascii.eqb_spec a y) as [->|]; [|done]. by rewrite Hy in Ha. }
  induction w as [|x w IH].
  - rewrite app_nil_l, Hnone. by destruct sub.
  - rewrite app_cons. cbn [Js.includes]. rewrite <- app_cons.
    by rewrite (startsWith_before p), IH.
Qed.

(** A word whose first character does not occur in the text is not
    included in it. *)
Lemma includes_no_first a sub s :
  every (fun c => negb (Ascii.eqb a c)) s = true ->
  Js.includes (String a sub) s = false.
Proof.
  induction s as [|c s IH]; [done|]. simpl.
  intros [Hc Hs]%andb_prop. rewrite (IH Hs).
  by rewrite (negb_true_iff _) in Hc; rewrite Hc.
Qed.

(** ** Where [exec] finds its match *)

Lemma exec_at_here r i pv t e :
  run r Some (MState i pv t []) = Some e -> exec_at r i pv t = Some (Found i e).
Proof. intros H. destruct t; cbn [exec_at]; by rewrite H. Qed.

(** The scan passes over the characters at which no match can start. *)
Lemma exec_at_skip r p w :
  (forall k s c t, rest s = String c t -> p c = false -> run r k s = None) ->
  every (fun c => negb (p c)) w = true ->
  forall t i pv,
    exec_at r i pv (w +:+ t) = exec_at r (i + String.length w) (last_char w pv) t.
Proof.
  intros Hfail. induction w as [|c w IH]; intros Hw t i pv.
  - by rewrite app_nil_l, Nat.add_0_r.
  - simpl in Hw. apply andb_prop in Hw as [Hc%negb_true_iff Hw].
    rewrite app_cons. cbn [exec_at].
    rewrite (Hfail _ _ c (w +:+ t)) by done.
    rewrite IH by done. cbn [String.length last_char]. f_equal. lia.
Qed.

Lemma run_rep_fail p n max greedy k s c t :
  max <> Some 0%nat -> rest s = String c t -> p c = false ->
  run (Rep (S n) max greedy (Chr p)) k s = None.
Proof.
  intros Hmax Hrest Hc. cbn [run groups rep_loop Nat.ltb Nat.leb clear_caps].
  destruct max as [[|b]|]; [done|by rewrite Hrest, Hc..].
Qed.

(** ** parseInvoiceMonth *)

Lemma exec_yearPattern_after w year :
  every (fun c => negb (Js.is_digit c)) w = true -> digits 4 year ->
  exists m, exec Common.yearPattern (w +:+ year) = Some m /\
            whole (w +:+ year) m = year.
Proof.
  intros Hw [Hlen Hyear]. unfold exec.
  rewrite (exec_at_skip Common.yearPattern Js.is_digit w);
    [|intros k s c t Hrest Hc; by apply (run_rep_fail _ 3 _ _ _ _ c t)|done].
  eexists. split.
  - apply exec_at_here. unfold Common.yearPattern, times.
    apply (run_class_greedy Js.is_digit 4 (Some 4%nat) Some _ year "");
      [by rewrite app_nil_r|done|lia|left; by rewrite Hlen|done].
  - unfold whole, after. simpl. rewrite <- length_app. apply substr_suffix.
Qed.

Lemma monthYear_at text m : forall names k i name,
  names !! i = Some name ->
  (forall j name', (j < i)%nat -> names !! j = Some name' ->
     Js.includes name' text = false) ->
  Js.includes name text = true ->
  exec Common.yearPattern text = Some m ->
  Common.monthYear text names k
  = Some (whole text m +:+ "-" +:+ Js.padStart2 (toString (k + i + 1))).
Proof.
  induction names as [|name0 names IH]; intros k i name Hi Hbefore Hname Hyear;
    [done|]. cbn [Common.monthYear].
  destruct i as [|i].
  - simplify_eq/=. rewrite Hname, Hyear. by rewrite Nat.add_0_r.
  - rewrite (Hbefore 0%nat name0) by (done || lia).
    replace (k + S i + 1)%nat with (S k + i + 1)%nat by lia.
    apply (IH (S k) i name); [done| |done..].
    intros j name' Hj Hname'. apply (Hbefore (S j)); [lia|done].
Qed.

Lemma monthNames_apart i j name name' :
  Common.monthNames !! i = Some name -> Common.monthNames !! j = Some name' ->
  (j < i)%nat -> Js.includes name' (name +:+ " ") = false.
Proof.
  intros Hi Hj Hlt.
  do 12 (destruct i as [|i];
         [do 12 (destruct j as [|j]; [simplify_eq/=; (lia || by vm_compute)|]); lia|]).
  done.
Qed.

Lemma monthNames_letters i name :
  Common.monthNames !! i = Some name ->
  name <> "" /\ every (fun c => negb (Js.is_digit c)) (name +:+ " ") = true /\
  every (fun c => negb (Js.is_digit c)) name = true.
Proof.
  intros Hi. do 12 (destruct i as [|i]; [by simplify_eq/=|]). done.
Qed.

Lemma parseInvoiceMonth_named text standardized :
  Common.monthYear text Common.monthNames 0 = Some standardized ->
  Common.parseInvoiceMonth (VStr text) = standardized.
Proof.
  intros H. unfold Common.parseInvoiceMonth. rewrite H.
  destruct text; [|done]. by vm_compute in H.
Qed.

(** X12.  A month name followed by a year of four digits, as the extractor
    writes the service periods, is standardized to the year, a hyphen and
    the number of the month on two digits. *)
Theorem parseInvoiceMonth_month_name (i : nat) (name year : string) :
  Common.monthNames !! i = Some name -> digits 4 year ->
  Common.parseInvoiceMonth (VStr (name +:+ " " +:+ year))
  = year +:+ "-" +:+ Js.padStart2 (toString (i + 1)).
Proof.
  intros Hname Hyear.
  destruct (monthNames_letters i name Hname) as (_ & Hletters & _).
  destruct (exec_yearPattern_after (name +:+ " ") year Hletters Hyear)
    as (m & Hm & Hwhole).
  rewrite app_assoc in Hm, Hwhole.
  apply parseInvoiceMonth_named.
  rewrite (monthYear_at _ m _ 0 i name Hname); [by rewrite Hwhole| | |done].
  - intros j name' Hj Hname'. rewrite <- app_assoc.
    destruct (monthNames_letters j name' Hname') as (Hne & _ & Hletters').
    rewrite (includes_before Js.is_digit); [by eapply monthNames_apart|done..|apply Hyear].
  - apply includes_spec. by exists "", (" " +:+ year).
Qed.

Lemma parseInvoiceMonth_month_name_witness :
  Common.monthNames !! 2%nat = Some "March" /\ digits 4 "2024" /\
  Common.parseInvoiceMonth (VStr ("March" +:+ " " +:+ "2024")) = "2024-03".
Proof.
  assert (Common.monthNames !! 2%nat = Some "March") as Hname by reflexivity.
  assert (digits 4 "2024") as Hyear by (split; reflexivity).
  split; [exact Hname|]. split; [exact Hyear|].
  exact (parseInvoiceMonth_month_name 2 "March" "2024" Hname Hyear).
Defined.

Lemma monthYear_none text : forall names k,
  (forall name, name ∈ names -> Js.includes name text = false) ->
  Common.monthYear text names k = None.
Proof.
  induction names as [|name names IH]; intros k Hnone; [done|].
  cbn [Common.monthYear]. rewrite (Hnone name) by left.
  apply IH. intros name' Hname'. apply Hnone. by right.
Qed.

Lemma capital_apart (a c : ascii) :
  Js.is_upper a = true -> Js.is_digit c || mem c "/-" = true ->
  negb (Ascii.eqb a c) = true.
Proof.
  intros Ha Hc. destruct (Ascii.eqb_spec a c) as [->|]; [|done].
  destruct c as [[] [] [] [] [] [] [] []]; by vm_compute in Ha, Hc.
Qed.

Lemma monthNames_not_included text name :
  every (fun c => Js.is_digit c || mem c "/-") text = true ->
  name ∈ Common.monthNames -> Js.includes name text = false.
Proof.
  intros Htext Hname.
  assert (exists a sub, name = String a sub /\ Js.is_upper a = true)
    as (a & sub & -> & Ha).
  { repeat (apply elem_of_cons in Hname as [->|Hname]; [by eexists _, _|]).
    by apply elem_of_nil in Hname. }
  apply includes_no_first. revert Htext. apply every_impl.
  intros c. by apply capital_apart.
Qed.

Lemma parseInvoiceMonth_numeric_form text :
  text <> "" ->
  every (fun c => Js.is_digit c || mem c "/-") text = true ->
  Common.parseInvoiceMonth (VStr text) =
  match exec Common.mmYyyyPattern text with
  | Some mmYyyyMatch =>
      group_str 2 text mmYyyyMatch +:+ "-" +:+
      Js.padStart2 (group_str 1 text mmYyyyMatch)
  | None =>
      match exec Common.yyyyMmPattern text with
      | Some yyyyMmMatch =>
          group_str 1 text yyyyMmMatch +:+ "-" +:+
          Js.padStart2 (group_str 2 text yyyyMmMatch)
      | None => text
      end
  end.
Proof.
  intros Hne Htext. unfold Common.parseInvoiceMonth.
  rewrite monthYear_none by (intros; by apply monthNames_not_included).
  by destruct text.
Qed.

Lemma month_bounds month :
  monthDigits month ->
  Some 2%nat = Some (String.length month) \/
  (forall m, Some 2%nat = Some m -> (String.length month < m)%nat).
Proof.
  intros [Hlen _]. destruct (decide (String.length month = 2%nat)) as [->|];
    [by left|right]. intros m [= <-]. lia.
Qed.

Lemma exec_mmYyyyPattern month year :
  monthDigits month -> digits 4 year ->
  exists m, exec Common.mmYyyyPattern (month +:+ "/" +:+ year) = Some m /\
            group_str 1 (month +:+ "/" +:+ year) m = month /\
            group_str 2 (month +:+ "/" +:+ year) m = year.
Proof.
  intros Hmonth [Hlen Hyear]. eexists. split.
  - apply exec_at_here. unfold Common.mmYyyyPattern. cbn [seq run].
    apply (run_class_greedy Js.is_digit 1 (Some 2%nat) _ _ month ("/" +:+ year));
      [done|apply Hmonth|apply Hmonth| |].
    { destruct (month_bounds month Hmonth) as [?|?]; [by left|by right]. }
    unfold after. cbn [pos prev rest caps set_cap].
    change ("/" +:+ year) with (String "/" year).
    cbn [lit run rest set_cap pos prev caps]. rewrite Ascii.eqb_refl.
    apply (run_class_greedy Js.is_digit 4 (Some 4%nat) _ _ year "");
      [by rewrite app_nil_r|done|lia|left; by rewrite Hlen|reflexivity].
  - unfold group_str, group, after. cbn -[substr]. split.
    + apply (substr_middle "" month).
    + transitivity (substr (String.length (month +:+ "/"))
                           (String.length ((month +:+ "/") +:+ year))
                           ((month +:+ "/") +:+ year)); [|apply substr_suffix].
      rewrite app_assoc, !length_app. simpl. f_equal; lia.
Qed.

Lemma exec_yyyyMmPattern month year :
  monthDigits month -> digits 4 year ->
  exists m, exec Common.yyyyMmPattern (year +:+ "-" +:+ month) = Some m /\
            group_str 1 (year +:+ "-" +:+ month) m = year /\
            group_str 2 (year +:+ "-" +:+ month) m = month.
Proof.
  intros Hmonth [Hlen Hyear]. eexists. split.
  - apply exec_at_here. unfold Common.yyyyMmPattern. cbn [seq run].
    apply (run_class_greedy Js.is_digit 4 (Some 4%nat) _ _ year ("-" +:+ month));
      [done|done|lia|left; by rewrite Hlen|].
    unfold after. cbn [pos prev rest caps set_cap].
    change ("-" +:+ month) with (String "-" month).
    cbn [lit run rest set_cap pos prev caps]. rewrite Ascii.eqb_refl.
    apply (run_class_greedy Js.is_digit 1 (Some 2%nat) _ _ month "");
      [by rewrite app_nil_r|apply Hmonth|apply Hmonth| |reflexivity].
    destruct (month_bounds month Hmonth) as [?|?]; [by left|by right].
  - unfold group_str, group, after. cbn -[substr]. split.
    + apply (substr_middle "" year).
    + transitivity (substr (String.length (year +:+ "-"))
                           (String.length ((year +:+ "-") +:+ month))
                           ((year +:+ "-") +:+ month)); [|apply substr_suffix].
      rewrite app_assoc, !length_app. simpl. f_equal; lia.
Qed.

Lemma exec_mmYyyyPattern_slash text :
  every (fun c => negb (Ascii.eqb "/" c)) text = true ->
  exec Common.mmYyyyPattern text = None.
Proof.
  intros Htext. destruct (exec _ text) as [m|] eqn:E; [exfalso|done].
  assert (test Common.mmYyyyPattern text = true) as Htest
    by (unfold test; by rewrite E).
  apply test_sound in Htest as (pre & token & post & -> & Htoken).
  unfold Common.mmYyyyPattern in Htoken. cbn [seq lang] in Htoken.
  destruct Htoken as (u & ? & -> & _ & ? & v & -> & ->%lang_lit & _).
  rewrite !every_app in Htext. simpl in Htext.
  by rewrite !andb_false_r, ?andb_false_l in Htext.
Qed.

Lemma digits_or_separators (p : ascii -> bool) w :
  (forall c, Js.is_digit c = true -> p c = true) ->
  every Js.is_digit w = true -> every p w = true.
Proof. intros Hp. by apply every_impl. Qed.

(** X13.  A month of one or two digits and a year of four, written
    month/year or year-month, are standardized to year-month, the month
    on two digits; a standardized period is standardized to itself. *)
Theorem parseInvoiceMonth_numeric (month year : string) :
  monthDigits month -> digits 4 year ->
  Common.parseInvoiceMonth (VStr (month +:+ "/" +:+ year))
  = year +:+ "-" +:+ Js.padStart2 month /\
  Common.parseInvoiceMonth (VStr (year +:+ "-" +:+ month))
  = year +:+ "-" +:+ Js.padStart2 month /\
  Common.parseInvoiceMonth (VStr (year +:+ "-" +:+ Js.padStart2 month))
  = year +:+ "-" +:+ Js.padStart2 month.
Proof.
  intros Hmonth Hyear.
  assert (forall m, monthDigits m ->
            Common.parseInvoiceMonth (VStr (year +:+ "-" +:+ m))
            = year +:+ "-" +:+ Js.padStart2 m) as Hdash.
  { intros m Hm.
    destruct (exec_yyyyMmPattern m year Hm Hyear) as (f & Hf & Hg1 & Hg2).
    rewrite parseInvoiceMonth_numeric_form.
    - rewrite exec_mmYyyyPattern_slash, Hf, Hg1, Hg2; [done|].
      rewrite !every_app. simpl.
      rewrite (digits_or_separators _ year), (digits_or_separators _ m);
        [done| |apply Hm| |apply Hyear];
        intros c Hc; by destruct c as [[] [] [] [] [] [] [] []].
    - destruct Hyear as [Hlen _]. by destruct year.
    - rewrite !every_app. simpl.
      rewrite (digits_or_separators _ year), (digits_or_separators _ m);
        [done| |apply Hm| |apply Hyear]; by intros c ->. }
  split; [|split; [by apply Hdash|]].
  - destruct (exec_mmYyyyPattern month year Hmonth Hyear) as (f & Hf & Hg1 & Hg2).
    rewrite parseInvoiceMonth_numeric_form.
    + by rewrite Hf, Hg1, Hg2.
    + destruct Hmonth as [[Hlen _] _]. destruct month; [simpl in Hlen; lia|done].
    + rewrite !every_app. simpl.
      rewrite (digits_or_separators _ year), (digits_or_separators _ month);
        [done| |apply Hmonth| |apply Hyear]; by intros c ->.
  - assert (monthDigits (Js.padStart2 month)) as Hpad.
    { destruct Hmonth as [[Hlen1 Hlen2] Hdigits].
      destruct month as [|a [|b [|c month]]]; simpl in *; try lia; by split. }
    rewrite (Hdash _ Hpad). f_equal. f_equal.
    destruct Hmonth as [[Hlen1 Hlen2] _].
    by destruct month as [|a [|b [|c month]]]; simpl in *; try lia.
Qed.

Lemma parseInvoiceMonth_numeric_witness :
  monthDigits "3" /\ digits 4 "2025" /\
  Common.parseInvoiceMonth (VStr ("3" +:+ "/" +:+ "2025")) = "2025-03".
Proof.
  assert (monthDigits "3") as Hmonth by (split; [simpl; lia|reflexivity]).
  assert (digits 4 "2025") as Hyear by (split; reflexivity).
  split; [exact Hmonth|]. split; [exact Hyear|].
  exact (proj1 (parseInvoiceMonth_numeric "3" "2025" Hmonth Hyear)).
Defined.

(** ** parseCurrencyValue *)

Lemma digitless_removeClass p s : digitless s -> digitless (removeClass p s).
Proof.
  unfold digitless. induction s as [|c s IH]; [done|]. simpl.
  intros [Hc Hs]%andb_prop. destruct (p c); [by apply IH|].
  simpl. by rewrite Hc, IH.
Qed.

Lemma removeClass_id p s :
  every (fun c => negb (p c)) s = true -> removeClass p s = s.
Proof.
  induction s as [|c s IH]; [done|]. simpl.
  intros [Hc%negb_true_iff Hs]%andb_prop. by rewrite Hc, IH.
Qed.

(** X14.  The value is never [NaN]; and a string without digits, whatever its
    signs and separators, gives zero (or an infinity, for the word
    Infinity). *)
Theorem parseCurrencyValue_never_NaN :
  (forall currencyString, Common.parseCurrencyValue currencyString <> Js.NaN) /\
  (forall s, digitless s ->
     Common.parseCurrencyValue (VStr s) = Js.zero \/
     exists sign, Common.parseCurrencyValue (VStr s) = S754_infinity sign).
Proof.
  split.
  - intros [| | |[|c s]]; try done. unfold Common.parseCurrencyValue.
    by destruct (Js.parseFloat _).
  - intros [|c s] Hs; [by left|].
    unfold Common.parseCurrencyValue.
    set (t := String c s) in *. clearbody t.
    assert (forall u, digitless u -> digitless (Js.replaceFirst "," "." u)) as Hdot
      by (intros; by apply digitless_replaceFirst).
    assert (forall u, digitless u -> digitless (Js.replaceFirst "," "" u)) as Hnone
      by (intros; by apply digitless_replaceFirst).
    assert (digitless (removeClass Common.currencySignOrSpace t)) as Hclean
      by (by apply digitless_removeClass).
    match goal with
    | |- context [Js.parseFloat ?x] =>
        assert (digitless x) as Hx
    end.
    { repeat case_match; auto using digitless_removeAll. }
    destruct (parseFloat_digitless _ Hx) as [->|[sign ->]]; [by left|right].
    by exists sign.
Qed.

Lemma digits_absent c w :
  Js.is_digit c = false -> every Js.is_digit w = true -> absent c w.
Proof.
  intros Hc. unfold absent. induction w as [|x w IH]; [done|].
  rewrite mem_cons. simpl. intros [Hx Hw]%andb_prop. rewrite (IH Hw), orb_false_r.
  destruct (Ascii.eqb_spec c x) as [->|]; [congruence|done].
Qed.

Lemma digits_clean w :
  every Js.is_digit w = true ->
  every (fun c => negb (Common.currencySignOrSpace c)) w = true.
Proof.
  apply every_impl. intros c Hc.
  by destruct c as [[] [] [] [] [] [] [] []].
Qed.

(** Two ways to cut a text at a character that comes once more are the
    same. *)
Lemma cut_unique c (a b a' b' : string) :
  a +:+ String c b = a' +:+ String c b' -> absent c b -> absent c b' ->
  a = a' /\ b = b'.
Proof.
  intros H Hb Hb'.
  destruct (app_eq_app _ _ _ _ H) as [(m & -> & Hm)|(m & -> & Hm)];
    (destruct m as [|x m];
     [rewrite app_nil_l in Hm; injection Hm as ->; by rewrite app_nil_r|exfalso]);
    rewrite app_cons in Hm; injection Hm as <- Hm.
  - unfold absent in Hb'. by rewrite Hm, mem_app, mem_cons, Ascii.eqb_refl,
      orb_true_r in Hb'.
  - unfold absent in Hb. by rewrite Hm, mem_app, mem_cons, Ascii.eqb_refl,
      orb_true_r in Hb.
Qed.

Lemma test_thousandsSuffix a b :
  digitString a -> digitString b ->
  test Common.thousandsSuffix (a +:+ "," +:+ b) = (String.length b =? 3)%nat.
Proof.
  intros Ha Hb.
  rewrite (test_ext _ (Seq (Seq (lit ",") (times 3 d)) (Eol false))) by done.
  pose proof (exec_suffix (Seq (lit ",") (times 3 d)) (a +:+ "," +:+ b) eq_refl) as H.
  unfold test. destruct (exec _ _) as [f|].
  - destruct H as (pre & w & Htext & Hw & _). cbn [lang] in Hw.
    destruct Hw as (? & d3 & -> & ->%lang_lit & [Hlen Hd3]%lang_times_class).
    apply cut_unique in Htext as [_ ->]; [|by apply digits_absent..].
    by rewrite Hlen.
  - destruct (String.length b =? 3)%nat eqn:E; [|done].
    apply Nat.eqb_eq in E. destruct (H a ("," +:+ b) eq_refl).
    exists ",", b. split; [done|]. split; [by apply lang_lit|].
    by apply lang_times_class.
Qed.

Lemma parseCurrencyValue_plain x :
  x <> "" -> every (fun c => negb (Common.currencySignOrSpace c)) x = true ->
  absent "," x ->
  Common.parseCurrencyValue (VStr x) =
  match Js.parseFloat x with
  | S754_nan => Js.zero
  | numValue => numValue
  end.
Proof.
  intros Hne Hclean Hcomma. unfold Common.parseCurrencyValue.
  rewrite (removeClass_id _ _ Hclean), mem_includes, Hcomma. cbn [andb].
  destruct x; [done|]. by destruct (Js.parseFloat _).
Qed.

Lemma parseCurrencyValue_cleaned t :
  t <> "" -> every (fun c => negb (Common.currencySignOrSpace c)) t = true ->
  Common.parseCurrencyValue (VStr t) =
  match Js.parseFloat
          (if Js.includes "," t && Js.includes "." t
           then Js.replaceFirst "," "." (Js.removeAll "." t)
           else if Js.includes "," t
           then if test Common.thousandsSuffix t
                then Js.replaceFirst "," "" t
                else Js.replaceFirst "," "." t
           else t) with
  | S754_nan => Js.zero
  | numValue => numValue
  end.
Proof.
  intros Hne Hclean. unfold Common.parseCurrencyValue.
  rewrite (removeClass_id _ _ Hclean). destruct t; [done|].
  by destruct (Js.parseFloat _).
Qed.

(** X15.  A single comma between digits is a thousands separator when exactly
    three digits follow it, and the decimal point otherwise; when a comma
    and a point both occur, the points are dropped and the comma is the
    decimal point, in whatever order they stand. *)
Theorem parseCurrencyValue_separators (a b c : string) :
  a <> "" -> digitString a -> digitString b -> digitString c ->
  Common.parseCurrencyValue (VStr (a +:+ "," +:+ b))
  = (if (String.length b =? 3)%nat
     then Common.parseCurrencyValue (VStr (a +:+ b))
     else Common.parseCurrencyValue (VStr (a +:+ "." +:+ b))) /\
  Common.parseCurrencyValue (VStr (a +:+ "." +:+ b +:+ "," +:+ c))
  = Common.parseCurrencyValue (VStr (a +:+ b +:+ "." +:+ c)) /\
  Common.parseCurrencyValue (VStr (a +:+ "," +:+ b +:+ "." +:+ c))
  = Common.parseCurrencyValue (VStr (a +:+ "." +:+ b +:+ c)).
Proof.
  intros Hne Ha Hb Hc.
  assert (forall x, a +:+ x <> "") as Hne' by (intros x; by destruct a).
  assert (forall w, digitString w -> absent "," w) as Hcomma
    by (intros; by apply digits_absent).
  assert (forall w, digitString w -> absent "." w) as Hpoint
    by (intros; by apply digits_absent).
  assert (forall w, digitString w ->
            every (fun c => negb (Common.currencySignOrSpace c)) w = true) as Hclean
    by apply digits_clean.
  assert (forall u v, absent "," u -> absent "," v -> absent "," (u +:+ "." +:+ v))
    as Hcomma'.
  { intros u v Hu Hv. unfold absent in *. by rewrite !mem_app, Hu, Hv. }
  pose proof (Hcomma a Ha) as Hca. pose proof (Hcomma b Hb) as Hcb.
  pose proof (Hcomma c Hc) as Hcc. pose proof (Hpoint a Ha) as Hpa.
  pose proof (Hpoint b Hb) as Hpb. pose proof (Hpoint c Hc) as Hpc.
  unfold absent in Hca, Hcb, Hcc, Hpa, Hpb, Hpc.
  split; [|split].
  - rewrite parseCurrencyValue_cleaned;
      [|apply Hne'|rewrite !every_app, ?(Hclean a), ?(Hclean b), ?(Hclean c) by done; reflexivity].
    rewrite !mem_includes, !mem_app, Hpa, Hpb, Hca.
    change (mem "," ",") with true. change (mem "." ",") with false.
    cbn [orb andb]. rewrite test_thousandsSuffix by done.
    change ("," +:+ b) with (String "," b).
    rewrite !replaceFirst_char by auto.
    destruct (String.length b =? 3)%nat.
    + rewrite app_nil_l, parseCurrencyValue_plain; [done|apply Hne'|rewrite !every_app, ?(Hclean a), ?(Hclean b), ?(Hclean c) by done; reflexivity|].
      unfold absent. by rewrite !mem_app, ?Hca, ?Hcb, ?Hcc.
    + rewrite parseCurrencyValue_plain;
        [done|apply Hne'|rewrite !every_app, ?(Hclean a), ?(Hclean b), ?(Hclean c) by done; reflexivity|by apply Hcomma'; auto].
  - rewrite parseCurrencyValue_cleaned;
      [|apply Hne'|rewrite !every_app, ?(Hclean a), ?(Hclean b), ?(Hclean c) by done; reflexivity].
    rewrite !mem_includes, !mem_app. change (mem "," ",") with true.
    change (mem "." ".") with true. rewrite !orb_true_r. cbn [orb andb].
    rewrite !removeAll_app.
    change (Js.removeAll "." ".") with "". change (Js.removeAll "." ",") with ",".
    rewrite (removeAll_absent "." a), (removeAll_absent "." b),
      (removeAll_absent "." c) by auto.
    rewrite app_nil_l. rewrite <- (app_assoc a b).
    change ("," +:+ c) with (String "," c).
    rewrite replaceFirst_char.
    + rewrite app_assoc.
      rewrite (parseCurrencyValue_plain (a +:+ b +:+ "." +:+ c));
        [done|apply Hne'|rewrite !every_app, ?(Hclean a), ?(Hclean b), ?(Hclean c) by done; reflexivity|].
      unfold absent. by rewrite !mem_app, ?Hca, ?Hcb, ?Hcc.
    + unfold absent. by rewrite !mem_app, ?Hca, ?Hcb, ?Hcc.
  - rewrite parseCurrencyValue_cleaned;
      [|apply Hne'|rewrite !every_app, ?(Hclean a), ?(Hclean b), ?(Hclean c) by done; reflexivity].
    rewrite !mem_includes, !mem_app. change (mem "," ",") with true.
    change (mem "." ".") with true. rewrite !orb_true_r. cbn [orb andb].
    rewrite !removeAll_app.
    change (Js.removeAll "." ".") with "". change (Js.removeAll "." ",") with ",".
    rewrite (removeAll_absent "." a), (removeAll_absent "." b),
      (removeAll_absent "." c) by auto.
    rewrite app_nil_l.
    change ("," +:+ b +:+ c) with (String "," (b +:+ c)).
    rewrite replaceFirst_char by auto.
    rewrite (parseCurrencyValue_plain (a +:+ "." +:+ b +:+ c));
      [done|apply Hne'|rewrite !every_app, ?(Hclean a), ?(Hclean b), ?(Hclean c) by done; reflexivity|].
    unfold absent. by rewrite !mem_app, ?Hca, ?Hcb, ?Hcc.
Qed.

Lemma parseCurrencyValue_separators_witness :
  "1" <> "" /\ digitString "1" /\ digitString "234" /\ digitString "56" /\
  Common.parseCurrencyValue (VStr ("1" +:+ "," +:+ "234"))
  = Common.parseCurrencyValue (VStr ("1" +:+ "234")).
Proof.
  assert ("1" <> "") as Hne by done.
  assert (digitString "1") as Ha by reflexivity.
  assert (digitString "234") as Hb by reflexivity.
  assert (digitString "56") as Hc by reflexivity.
  split; [exact Hne|]. split; [exact Ha|]. split; [exact Hb|]. split; [exact Hc|].
  exact (proj1 (parseCurrencyValue_separators "1" "234" "56" Hne Ha Hb Hc)).
Defined.

(** ** normalizeServicePeriod *)

Lemma find_first {A} (f : A -> bool) : forall l i x,
  l !! i = Some x -> f x = true ->
  (forall j y, (j < i)%nat -> l !! j = Some y -> f y = false) ->
  List.find f l = Some x.
Proof.
  induction l as [|x0 l IH]; intros i x Hi Hx Hbefore; [done|].
  destruct i as [|i]; simpl.
  - simplify_eq/=. by rewrite Hx.
  - rewrite (Hbefore 0%nat x0) by (done || lia).
    apply (IH i); [done..|]. intros j y Hj Hy. apply (Hbefore (S j)); [lia|done].
Qed.

Lemma toUpperCase_digits w : digitString w -> Js.toUpperCase w = w.
Proof.
  intros Hw. apply smap_id. revert Hw. apply every_impl.
  intros c Hc. by destruct c as [[] [] [] [] [] [] [] []].
Qed.

Lemma monthMapEntries_apart i j abbr fullName abbr' fullName' :
  monthMapEntries !! i = Some (abbr, fullName) ->
  monthMapEntries !! j = Some (abbr', fullName') ->
  (j < i)%nat -> Js.includes abbr' (abbr +:+ " ") = false.
Proof.
  intros Hi Hj Hlt.
  do 12 (destruct i as [|i];
         [do 12 (destruct j as [|j]; [simplify_eq/=; (lia || by vm_compute)|]); lia|]).
  done.
Qed.

Lemma monthMapEntries_letters i abbr fullName :
  monthMapEntries !! i = Some (abbr, fullName) ->
  abbr <> "" /\ Js.toUpperCase (abbr +:+ " ") = abbr +:+ " " /\
  every (fun c => negb (Js.is_digit c)) abbr = true.
Proof.
  intros Hi. do 12 (destruct i as [|i]; [by simplify_eq/=|]). done.
Qed.

(** X16.  A period written as the abbreviation of a month and a year is
    normalized to the full name of the month; the year is left out. *)
Theorem normalizeServicePeriod_abbreviated (i : nat) (abbr fullName year : string) :
  monthMapEntries !! i = Some (abbr, fullName) -> digitString year ->
  normalizeServicePeriod (abbr +:+ " " +:+ year) = fullName.
Proof.
  intros Hi Hyear. unfold normalizeServicePeriod.
  destruct (monthMapEntries_letters i abbr fullName Hi) as (_ & Hupper & _).
  assert (Js.toUpperCase (abbr +:+ " " +:+ year) = (abbr +:+ " ") +:+ year) as ->.
  { rewrite <- app_assoc. pose proof (toUpperCase_digits year Hyear) as Hdigits.
    unfold Js.toUpperCase in *. by rewrite smap_app, Hupper, Hdigits. }
  rewrite (find_first _ monthMapEntries i (abbr, fullName)); [done|done| |].
  - apply includes_spec. exists "", (" " +:+ year). by rewrite app_assoc.
  - intros j [abbr' fullName'] Hj Hentry.
    destruct (monthMapEntries_letters j abbr' fullName' Hentry) as (Hne & _ & Hletters).
    rewrite (includes_before Js.is_digit) by done.
    by eapply monthMapEntries_apart.
Qed.

Lemma normalizeServicePeriod_abbreviated_witness :
  monthMapEntries !! 2%nat = Some ("MAR", "March") /\ digitString "2024" /\
  normalizeServicePeriod ("MAR" +:+ " " +:+ "2024") = "March".
Proof.
  assert (monthMapEntries !! 2%nat = Some ("MAR", "March")) as Hentry by reflexivity.
  assert (digitString "2024") as Hyear by reflexivity.
  split; [exact Hentry|]. split; [exact Hyear|].
  exact (normalizeServicePeriod_abbreviated 2 "MAR" "March" "2024" Hentry Hyear).
Defined.

(** ** The span of a group *)

Lemma existsb_eqb_false i l : existsb (Nat.eqb i) l = false -> i ∉ l.
Proof.
  intros H Hi. apply list_elem_of_In in Hi.
  assert (existsb (Nat.eqb i) l = true); [|congruence].
  apply existsb_exists. exists i. by rewrite Nat.eqb_refl.
Qed.

(** A group on the spine of a pattern holds, when the pattern has
    matched, a word of its own pattern, which is a part of the text. *)
Lemma steps_grp text i body r : grp i r = Some body -> forall s e,
  at_text text s -> steps r s e ->
  exists s1 s2 w,
    at_text text s1 /\ moved w s1 s2 /\ lang body w /\
    lookup_cap i (caps e) = Some (pos s1, pos s2).
Proof.
  induction r as [|p|r1 IH1 r2 IH2|r1 IH1 r2 IH2|min max greedy r1 IH1|j r1 IH1
                  | |ml|ml|r1 IH1]; cbn [grp]; try done.
  - destruct (existsb (Nat.eqb i) (groups r2)) eqn:E; intros Hgrp s e Hs;
      cbn [steps]; intros (s1 & H1 & H2).
    + apply (IH2 Hgrp s1 e); [by eapply at_text_steps|done].
    + destruct (IH1 Hgrp s s1 Hs H1) as (a & b & w & ? & ? & ? & Hcap).
      exists a, b, w. split; [done|]. split; [done|]. split; [done|].
      rewrite <- Hcap.
      apply (steps_keeps_cap r2 i (existsb_eqb_false _ _ E) _ _ H2).
  - destruct (i =? j)%nat eqn:E; [|done]. apply Nat.eqb_eq in E as ->.
    intros [= ->] s e Hs (w & Hw & Hlang & Hcap)%steps_Grp.
    by exists s, e, w.
Qed.

Lemma exec_grp i body r text m :
  grp i r = Some body -> exec r text = Some m ->
  lang body (group_str i text m) /\ partOf (group_str i text m) text.
Proof.
  intros Hgrp (s & Hs & Hsteps)%exec_at_text.
  destruct (steps_grp text i body r Hgrp s _ Hs Hsteps)
    as (s1 & s2 & w & Hs1 & Hw & Hlang & Hcap).
  rewrite (group_str_cap _ _ _ _ _ Hcap), (substr_moved text w) by done.
  split; [done|].
  destruct (at_text_moved _ _ _ _ Hs1 Hw) as (pre & -> & _).
  by exists pre, (rest s2).
Qed.

(** ** The values of the header fields *)

Lemma lang_opt r o : lang (opt r) o -> o = "" \/ lang r o.
Proof.
  unfold opt. cbn [lang]. intros (n & [_ Hmax] & Hiter).
  specialize (Hmax _ eq_refl). destruct n as [|[|n]]; [by left| |lia].
  right. simpl in Hiter. destruct Hiter as (u & ? & -> & Hu & ->).
  by rewrite app_nil_r.
Qed.

Lemma lang_class p w : lang (Chr p) w -> exists c, w = String c "" /\ p c = true.
Proof. done. Qed.

Lemma endsYear_intro pre year :
  pre <> "" -> digits 4 year ->
  exists pre' year', pre +:+ year = pre' +:+ year' /\ pre' <> "" /\ digits 4 year'.
Proof. intros. by exists pre, year. Qed.

Lemma endsYear_app u v :
  (exists pre year, v = pre +:+ year /\ pre <> "" /\ digits 4 year) ->
  exists pre year, u +:+ v = pre +:+ year /\ pre <> "" /\ digits 4 year.
Proof.
  intros (pre & year & -> & Hne & Hyear). exists (u +:+ pre), year.
  split; [by rewrite app_assoc|]. split; [|done].
  destruct u; [by rewrite app_nil_l|done].
Qed.

Lemma lang_periodToken v :
  lang periodToken v ->
  exists pre year, v = pre +:+ year /\ pre <> "" /\ digits 4 year.
Proof.
  unfold periodToken. cbn [seq lang].
  intros (m & ? & -> & [[Hm _] _]%lang_range_class & s & ? & -> & (c & -> & _)
          & y & o & -> & Hy%lang_times_class & Ho%lang_opt); [|lia].
  destruct Ho as [->|Ho].
  - rewrite app_nil_r, <- app_assoc. apply endsYear_intro; [|done].
    by destruct m.
  - cbn [seq lang] in Ho.
    destruct Ho as (? & ? & -> & _ & ? & ? & -> & _ & ? & ? & -> & _
                    & m2 & ? & -> & [[Hm2 _] _]%lang_range_class
                    & ? & y2 & -> & (c2 & -> & _) & Hy2%lang_times_class); [|lia].
    do 6 apply endsYear_app. rewrite <- app_assoc.
    apply endsYear_intro; [by destruct m2|done].
Qed.

Lemma lang_periodToken' v :
  lang periodToken' v ->
  exists pre year, v = pre +:+ year /\ pre <> "" /\ digits 4 year.
Proof.
  unfold periodToken'. cbn [seq lang].
  intros (? & ? & -> & (c1 & -> & _) & ? & ? & -> & _ & ? & ? & -> & _
          & y & o & -> & Hy%lang_times_class & Ho%lang_opt).
  destruct Ho as [->|Ho].
  - rewrite app_nil_r. rewrite <- !app_assoc. by apply endsYear_intro.
  - cbn [seq lang] in Ho.
    destruct Ho as (? & ? & -> & _ & ? & ? & -> & _ & ? & ? & -> & _
                    & ? & ? & -> & (c2 & -> & _) & ? & ? & -> & _
                    & ? & y2 & -> & _ & Hy2%lang_times_class).
    do 7 apply endsYear_app. rewrite <- !app_assoc. by apply endsYear_intro.
Qed.

(** X17.  The value found for a header field is a part of the text, never
    empty, and of the shape of its field: digits for the numbers of the
    invoice and of the customer, three letters for the currency, a code
    that ends with PRO and seven digits for the project, a period that
    ends with a year of four digits. *)
Theorem extractField_value (text : string) (f : fieldType) (v : string) :
  extractField text f = Some v -> partOf v text /\ fieldShape f v.
Proof.
  unfold extractField. intros (pattern & Hin & Hexec)%firstSome_Some.
  destruct (exec pattern text) as [m|] eqn:E; [|done]. injection Hexec as <-.
  assert (forall body, grp 1 pattern = Some body ->
            lang body (group_str 1 text m) /\ partOf (group_str 1 text m) text)
    as Hgrp by (intros body Hbody; by eapply exec_grp).
  destruct f; cbn [patterns] in Hin;
    repeat (apply elem_of_cons in Hin as [->|Hin]);
    try (by apply elem_of_nil in Hin);
    (destruct (Hgrp _ eq_refl) as [Hlang Hpart]; split; [exact Hpart|]);
    clear Hgrp Hpart E; cbn [fieldShape].
  - cbn [seq lang] in Hlang.
    destruct Hlang as (a & ? & -> & _ & dd & ? & -> & _ & ? & code & ->
                       & ->%lang_str & Hcode%lang_times_class).
    exists (a +:+ dd +:+ "-"), code. by rewrite !app_assoc.
  - cbn [seq lang] in Hlang.
    destruct Hlang as (? & code & -> & ->%lang_str & Hcode%lang_times_class).
    by exists "", code.
  - cbn [seq lang] in Hlang.
    destruct Hlang as (a & ? & -> & _ & ? & code & -> & ->%lang_str
                       & Hcode%lang_times_class).
    exists (a +:+ "-"), code. by rewrite !app_assoc.
  - by apply lang_plus_class in Hlang.
  - by apply lang_plus_class in Hlang.
  - by apply lang_plus_class in Hlang.
  - by apply lang_plus_class in Hlang.
  - by apply lang_plus_class in Hlang.
  - done.
  - done.
  - by apply lang_times_class in Hlang.
  - cbn [alt lang] in Hlang.
    by destruct Hlang as [->%lang_str|[->%lang_str| ->%lang_str]].
  - by apply lang_plus_class in Hlang.
  - by apply lang_plus_class in Hlang.
  - by apply lang_periodToken.
  - by apply lang_periodToken.
  - cbn [seq lang] in Hlang.
    destruct Hlang as (l & ? & -> & [[Hl _] _]%lang_range_class & s & y & -> & _
                       & Hy%lang_times_class); [|lia].
    rewrite <- app_assoc. apply endsYear_intro; [|done].
    destruct l; [simpl in Hl; lia|by rewrite app_cons].
  - by apply lang_periodToken'.
  - by apply lang_periodToken'.
Qed.

Lemma extractField_value_witness :
  extractField "Invoice No.: 4711 of 12.03.2024" F_invoiceNumber = Some "4711" /\
  partOf "4711" "Invoice No.: 4711 of 12.03.2024" /\
  fieldShape F_invoiceNumber "4711".
Proof.
  assert (extractField "Invoice No.: 4711 of 12.03.2024" F_invoiceNumber
          = Some "4711") as Hfield by (by vm_compute).
  split; [exact Hfield|].
  exact (extractField_value _ F_invoiceNumber "4711" Hfield).
Defined.

(** ** The month of the invoice *)

Lemma splitOn_none sepc a :
  every (fun c => negb (sepc c)) a = true -> Js.splitOn sepc a = [a].
Proof.
  induction a as [|c a IH]; [done|]. simpl.
  intros [Hc%negb_true_iff Ha]%andb_prop. by rewrite Hc, (IH Ha).
Qed.

Lemma splitOn_run sepc a c b :
  every (fun c => negb (sepc c)) a = true -> sepc c = true ->
  Js.splitOn sepc (a +:+ String c b) = a :: Js.splitOn sepc b.
Proof.
  intros Ha Hc. induction a as [|x a IH].
  - rewrite app_nil_l. simpl. by rewrite Hc.
  - simpl in Ha. apply andb_prop in Ha as [Hx%negb_true_iff Ha].
    rewrite app_cons. simpl. by rewrite Hx, (IH Ha).
Qed.

Lemma lang_dateToken date :
  lang dateToken date ->
  exists day s1 month s2 year,
    date = day +:+ String s1 (month +:+ String s2 year) /\
    monthDigits day /\ monthDigits month /\ digits 4 year /\
    mem s1 "./" = true /\ mem s2 "./" = true.
Proof.
  unfold dateToken, dsep, d. cbn [seq lang].
  intros (day & ? & -> & Hday%lang_range_class & ? & ? & -> & (s1 & -> & Hs1)
          & month & ? & -> & Hmonth%lang_range_class & ? & year & ->
          & (s2 & -> & Hs2) & Hyear%lang_times_class); [|lia..].
  by exists day, s1, month, s2, year.
Qed.

Lemma digits_not_separators w :
  every Js.is_digit w = true -> every (fun c => negb (mem c "./-")) w = true.
Proof. apply every_impl. intros c Hc. by destruct c as [[] [] [] [] [] [] [] []]. Qed.

Lemma separator_dot_slash c : mem c "./" = true -> mem c "./-" = true.
Proof. by destruct c as [[] [] [] [] [] [] [] []]. Qed.

(** X18.  The month of the invoice is read off the date of the invoice, which
    is a day, a month and a year separated by points or slashes: it is
    the name of the month for the months 1 to 12, written on one or two
    digits, and null for any other number. *)
Theorem monthOfInvoice_of_date (text date : string) :
  extractField text F_dateOfInvoice = Some date ->
  exists day s1 month s2 year,
    date = day +:+ String s1 (month +:+ String s2 year) /\
    monthDigits day /\ monthDigits month /\ digits 4 year /\
    extractMonthFromDate (Some date) = months !! Js.padStart2 month.
Proof.
  intros (_ & _ & _ & _ & _ & _ & _ & Hdate)%extractField_date_sound.
  apply lang_dateToken in Hdate
    as (day & s1 & month & s2 & year & -> & Hday & Hmonth & Hyear & Hs1 & Hs2).
  exists day, s1, month, s2, year. repeat split; try apply Hday; try apply Hmonth;
    try apply Hyear.
  unfold extractMonthFromDate.
  rewrite splitOn_run, splitOn_run, splitOn_none;
    [|apply digits_not_separators, Hyear|apply digits_not_separators, Hmonth
     |by apply separator_dot_slash|apply digits_not_separators, Hday
     |by apply separator_dot_slash].
  destruct Hday as [[Hlen _] _]. destruct day; [simpl in Hlen; lia|].
  by rewrite app_cons.
Qed.

Lemma monthOfInvoice_of_date_witness :
  extractField "Invoice Date: 7.3.2024" F_dateOfInvoice = Some "7.3.2024" /\
  exists day s1 month s2 year,
    "7.3.2024" = day +:+ String s1 (month +:+ String s2 year) /\
    monthDigits day /\ monthDigits month /\ digits 4 year /\
    extractMonthFromDate (Some "7.3.2024") = months !! Js.padStart2 month.
Proof.
  assert (extractField "Invoice Date: 7.3.2024" F_dateOfInvoice = Some "7.3.2024")
    as Hdate by (by vm_compute).
  split; [exact Hdate|].
  exact (monthOfInvoice_of_date "Invoice Date: 7.3.2024" "7.3.2024" Hdate).
Defined.

(** ** The service period of a page *)

Lemma liti_upper c x :
  Js.is_upper c = true -> Ascii.eqb (Js.lower x) (Js.lower c) = true ->
  Js.upper x = c.
Proof.
  destruct c as [[] [] [] [] [] [] [] []]; try (intros H; by vm_compute in H);
    intros _; destruct x as [[] [] [] [] [] [] [] []]; by vm_compute.
Qed.

(** The words of a word read without regard to the case: in capital
    letters they are the word itself. *)
Lemma lang_stri_upper s : every Js.is_upper s = true -> forall w,
  lang (stri s) w -> Js.toUpperCase w = s.
Proof.
  induction s as [|c s IH]; intros Hs w; [by intros ->|].
  simpl in Hs. apply andb_prop in Hs as [Hc Hs].
  destruct s as [|c' s].
  - cbn [stri lang liti]. intros (x & -> & Hx).
    unfold Js.toUpperCase. cbn [Js.smap]. by rewrite (liti_upper c x Hc Hx).
  - change (stri (String c (String c' s))) with (Seq (liti c) (stri (String c' s))).
    cbn [lang liti]. intros (? & v & -> & (x & -> & Hx) & Hv).
    rewrite app_cons, app_nil_l. unfold Js.toUpperCase in *. cbn [Js.smap].
    by rewrite (liti_upper c x Hc Hx), (IH Hs v Hv).
Qed.

Lemma monthAbbreviation g :
  lang (alt [stri "JAN"; stri "FEB"; stri "MAR"; stri "APR"; stri "MAY";
             stri "JUN"; stri "JUL"; stri "AUG"; stri "SEP"; stri "OCT";
             stri "NOV"; stri "DEC"]) g ->
  exists i name, (1 <= i <= 12)%nat /\ monthNames !! i = Some name /\
                 monthMap !! Js.toUpperCase g = Some name.
Proof.
  cbn [alt lang].
  intros H. repeat (destruct H as [H|H]);
    apply lang_stri_upper in H; try done; rewrite H.
  - exists 1%nat, "January". by split; [lia|].
  - exists 2%nat, "February". by split; [lia|].
  - exists 3%nat, "March". by split; [lia|].
  - exists 4%nat, "April". by split; [lia|].
  - exists 5%nat, "May". by split; [lia|].
  - exists 6%nat, "June". by split; [lia|].
  - exists 7%nat, "July". by split; [lia|].
  - exists 8%nat, "August". by split; [lia|].
  - exists 9%nat, "September". by split; [lia|].
  - exists 10%nat, "October". by split; [lia|].
  - exists 11%nat, "November". by split; [lia|].
  - exists 12%nat, "December". by split; [lia|].
Qed.

(** X19.  The service period of a page is the sentinel Unknown Period or the
    name of a month, a space and a year of four digits; the word
    undefined is never printed in it. *)
Theorem servicePeriod_shape (pageText : string) :
  extractServicePeriodFromPage pageText = "Unknown Period" \/
  exists i name year,
    (1 <= i <= 12)%nat /\ monthNames !! i = Some name /\ digits 4 year /\
    extractServicePeriodFromPage pageText = name +:+ " " +:+ year.
Proof.
  rewrite extractServicePeriodFromPage_rules.
  destruct (exec monthPattern pageText) as [m|] eqn:E.
  - right.
    destruct (exec_grp 1 _ monthPattern pageText m eq_refl E) as [Hmonth _].
    destruct (exec_grp 2 _ monthPattern pageText m eq_refl E) as [Hyear _].
    apply monthAbbreviation in Hmonth as (i & name & Hi & Hname & ->).
    apply lang_times_class in Hyear.
    by exists i, name, (group_str 2 pageText m).
  - assert (forall pattern servicePeriod,
              pattern ∈ fallbackPatterns ->
              fallbackPeriod pageText pattern = Some servicePeriod ->
              exists i name year,
                (1 <= i <= 12)%nat /\ monthNames !! i = Some name /\
                digits 4 year /\ servicePeriod = name +:+ " " +:+ year) as Hfallback.
    { intros pattern servicePeriod Hpattern
             (f & name & Hf & Hi & Hname & ->)%fallbackPeriod_Some.
      exists (parseInt (group_str 1 pageText f)), name, (group_str 2 pageText f).
      split; [lia|]. split; [done|]. split; [|done].
      apply lang_times_class.
      apply elem_of_cons in Hpattern as [->|Hpattern];
        [|apply list_elem_of_singleton in Hpattern as ->].
      - by destruct (exec_grp 2 _ fallbackPattern1 pageText f eq_refl Hf).
      - by destruct (exec_grp 2 _ fallbackPattern2 pageText f eq_refl Hf). }
    destruct (fallbackPeriod pageText fallbackPattern1) as [p1|] eqn:E1.
    { right. apply (Hfallback fallbackPattern1); [left|done]. }
    destruct (fallbackPeriod pageText fallbackPattern2) as [p2|] eqn:E2.
    { right. apply (Hfallback fallbackPattern2); [right; left|done]. }
    by left.
Qed.

(** ** extractLineItems: the boundary of the line items *)

Lemma splitOn_not_nil sepc s : Js.splitOn sepc s <> [].
Proof.
  destruct s as [|c s]; [done|]. simpl. destruct (sepc c); [done|].
  by destruct (Js.splitOn sepc s).
Qed.

Lemma splitOn_app sepc a c b :
  sepc c = true ->
  Js.splitOn sepc (a +:+ String c b) = Js.splitOn sepc a ++ Js.splitOn sepc b.
Proof.
  intros Hc. induction a as [|x a IH].
  - rewrite app_nil_l. simpl. by rewrite Hc.
  - rewrite app_cons. simpl. rewrite IH. destruct (sepc x); [done|].
    pose proof (splitOn_not_nil sepc a). by destruct (Js.splitOn sepc a).
Qed.

Lemma lineItemSection_app l1 l2 :
  (exists line, line ∈ l1 /\ isBoundary line = true) ->
  lineItemSection (l1 ++ l2) = lineItemSection l1.
Proof.
  intros (line & Hline & Hboundary). induction l1 as [|x l1 IH].
  - by apply elem_of_nil in Hline.
  - simpl. destruct (test boundaryWord x && negb (test positionTotalHeader x)) eqn:E;
      [done|].
    apply elem_of_cons in Hline as [->|Hline].
    + unfold isBoundary in Hboundary. congruence.
    + by rewrite IH.
Qed.

(** X20.  What stands below the first boundary line of a page - a line with
    the word Total or Subtotal, the heading of the Position Total column
    apart - is not read for line items. *)
Theorem extractLineItems_above_boundary (above below : string) (pageNumber : nat) :
  (exists line, line ∈ Js.lines above /\ isBoundary line = true) ->
  extractLineItems (above +:+ String newline below) pageNumber
  = extractLineItems above pageNumber.
Proof.
  intros Hboundary. unfold extractLineItems, candidateLines, Js.lines.
  rewrite splitOn_app by done. by rewrite lineItemSection_app.
Qed.

Lemma extractLineItems_above_boundary_witness :
  let above := "0010 123456 Consulting Services 5 PU 21%(V1) 100,00 500,00
Total 500,00" in
  let below := "0020 654321 Hosting Services 1 PU 21%(V1) 50,00 50,00" in
  (exists line, line ∈ Js.lines above /\ isBoundary line = true) /\
  extractLineItems (above +:+ String newline below) 1
  = extractLineItems above 1.
Proof.
  intros above below.
  assert (exists line, line ∈ Js.lines above /\ isBoundary line = true) as Hboundary.
  { exists "Total 500,00". split; [|by vm_compute].
    change (Js.lines above) with
      ["0010 123456 Consulting Services 5 PU 21%(V1) 100,00 500,00"; "Total 500,00"].
    right. left. }
  split; [exact Hboundary|].
  exact (extractLineItems_above_boundary above below 1 Hboundary).
Defined.

(** ** extractInvoiceData: the records and their pages *)

Lemma isItem_no_period item : isItem item -> item !! "serviceProvisionPeriod" = None.
Proof. by intros (? & ? & ? & ? & ? & ? & ? & ? & ? & ->). Qed.

Lemma pageLineItem_page base period n item :
  isItem item ->
  pageLineItem base period n item !! "pageNumber" = Some (VNum (Js.of_nat n)) /\
  pageLineItem base period n item !! "serviceProvisionPeriod" = Some (VStr period).
Proof.
  intros Hitem. unfold pageLineItem, spread. split.
  - rewrite lookup_insert_ne by done. apply lookup_insert_eq.
  - rewrite !lookup_insert_ne by done.
    rewrite lookup_union_r by by apply isItem_no_period.
    apply lookup_insert_eq.
Qed.

Lemma concat_map_map {A B C} (f : B -> C) (g : A -> list B) (l : list A) :
  map f (concat (map g l)) = concat (map (fun x => map f (g x)) l).
Proof.
  induction l as [|x l IH]; [done|]. simpl. by rewrite map_app, IH.
Qed.

Lemma Forall2_map_r {A B} (P : A -> B -> Prop) (h : A -> B) (l : list A) :
  (forall x, x ∈ l -> P x (h x)) -> Forall2 P l (map h l).
Proof.
  induction l as [|x l IH]; intros H; simpl; constructor.
  - apply H. left.
  - apply IH. intros y Hy. apply H. by right.
Qed.

(** X21.  The records come page after page: the result is the concatenation
    of one group of records for each page, in the order of the pages,
    and the records of a group carry the number of their page and the
    service period found on that page.  When no page has a line item,
    the one record of the result has neither number of page nor service
    period. *)
Theorem records_follow_the_pages (pageTexts : list string) (fileName : string) :
  let header := baseInvoiceInfo (fullTextOf pageTexts) fileName in
  let out := extractDocument pageTexts fileName in
  (pageLineItems header pageTexts <> [] ->
   exists groups, out = concat groups /\
                  Forall2 recordsOfPage (numbered pageTexts) groups) /\
  (pageLineItems header pageTexts = [] ->
   forall r, r ∈ out ->
     r !! "pageNumber" = None /\ r !! "serviceProvisionPeriod" = None).
Proof.
  intros header out. unfold out, extractDocument.
  rewrite extractInvoiceData_shape. fold header.
  set (total := numOrNull _). split.
  - intros Hne. destruct (pageLineItems header pageTexts) as [|r0 rs] eqn:E; [done|].
    rewrite <- E. unfold pageLineItems. rewrite concat_map_map.
    eexists. split; [done|]. apply Forall2_map_r.
    intros [pageNumber pageText] _. split; [by rewrite !length_map|].
    intros r (r' & -> & (item & -> & Hitem)%elem_of_map)%elem_of_map.
    assert (isItem item) as His.
    { pose proof (extractLineItems_isItem pageText pageNumber) as Hall.
      rewrite Forall_forall in Hall. by apply Hall. }
    rewrite !lookup_insert_ne by done. by apply pageLineItem_page.
  - intros ->. intros r ->%list_elem_of_singleton.
    rewrite !lookup_insert_ne by done.
    split; apply not_elem_of_dom; unfold header; rewrite baseInvoiceInfo_dom;
      by compute_done.
Qed.

(** ** extractLineItems: the line items *)

Lemma mkItem_lookup_position p m d q u v up pt tc :
  mkItem p m d q u v up pt tc !! "position" = Some (VStr p).
Proof. unfold mkItem. simpl. by simplify_map_eq. Qed.

Lemma mkItem_lookup_positionTotal p m d q u v up pt tc :
  mkItem p m d q u v up pt tc !! "positionTotal" = Some pt.
Proof. unfold mkItem. simpl. by simplify_map_eq. Qed.

Lemma mkItem_wellFormed p m d q u v up total tc :
  digits 4 p -> holds vatToken v ->
  wellFormedItem (mkItem p m d q u v up (VNum total) tc).
Proof.
  intros Hp Hv. exists p, v, total.
  by rewrite mkItem_lookup_position, mkItem_lookup_vat, mkItem_lookup_positionTotal.
Qed.

Lemma lang_holds r w : lang r w -> holds r w.
Proof. intros Hw. exists "", w, "". by rewrite app_nil_l, app_nil_r. Qed.

Lemma structuredItem_wellFormed line : Forall wellFormedItem (structuredItem line).
Proof.
  unfold structuredItem.
  destruct (exec structuredPattern line) as [m|] eqn:E; [|done].
  destruct (parseAmount (group_str 8 line m)) as [total|]; [|done].
  repeat constructor. apply mkItem_wellFormed.
  - by destruct (exec_grp 1 _ structuredPattern line m eq_refl E)
      as [?%lang_times_class _].
  - by destruct (exec_grp 6 _ structuredPattern line m eq_refl E)
      as [?%lang_holds _].
Qed.

Lemma simpleItem_wellFormed line : Forall wellFormedItem (simpleItem line).
Proof.
  unfold simpleItem.
  destruct (exec simplePattern line) as [m|] eqn:E; [|done].
  destruct (parseAmount (group_str 3 line m)) as [total|]; [|done].
  repeat constructor. apply mkItem_wellFormed.
  - by destruct (exec_grp 1 _ simplePattern line m eq_refl E)
      as [?%lang_times_class _].
  - by destruct (exec_grp 2 _ simplePattern line m eq_refl E)
      as [?%lang_holds _].
Qed.

Lemma flexibleItem_wellFormed line : Forall wellFormedItem (flexibleItem line).
Proof.
  unfold flexibleItem.
  set (parts := Js.splitSpaces (Js.trim line)).
  set (posIndex := findIndex _ parts).
  set (vatIndex := findIndex (fun p _ => test vatToken p) parts).
  set (amountIndex := findIndex _ parts).
  destruct (Z.leb_spec 0 posIndex) as [Hpos|]; [|done].
  destruct (Z.ltb_spec posIndex vatIndex) as [Hvat|]; [|done].
  destruct (Z.ltb_spec vatIndex amountIndex) as [Hamount|]; simpl; [|done].
  destruct (scanDescription _ _) as [description quantity].
  destruct (match at_index parts amountIndex with
            | Some p => parseAmount p | None => None end) as [total|]; [|done].
  repeat constructor.
  destruct (findIndex_found (fun p _ => test positionShape p) parts)
    as (position & Hposition & Hshape); [done|].
  destruct (findIndex_found (fun p _ => test vatToken p) parts)
    as (anchor & Hanchor & Htoken); [by fold vatIndex; lia|].
  fold posIndex in Hposition. fold vatIndex in Hanchor.
  rewrite Hposition, Hanchor.
  rewrite (test_ext positionShape (Seq (Bol false) (Seq (times 4 d) (Eol false))))
    in Hshape by done.
  apply test_anchored in Hshape; [|done]. apply lang_times_class in Hshape.
  apply test_sound in Htoken.
  assert (orStr (Some position) "" = position) as ->.
  { destruct Hshape as [Hlen _]. by destruct position. }
  assert (orStr (Some anchor) "" = anchor) as -> by (by destruct anchor).
  by apply mkItem_wellFormed.
Qed.

(** X22.  Every line item of a page has a position of four digits, a VAT token
    - a percentage followed by a code between brackets - and a total
    that is a number, whichever strategy finds it. *)
Theorem extractLineItems_wellFormed (pageText : string) (pageNumber : nat) :
  Forall wellFormedItem (extractLineItems pageText pageNumber).
Proof.
  unfold extractLineItems, strategy1, strategy2, strategy3. cbv zeta.
  destruct (isEmpty (concat (map structuredItem _))) eqn:E1.
  - destruct (isEmpty (concat (map flexibleItem _))).
    + apply Forall_concat_map, simpleItem_wellFormed.
    + apply Forall_concat_map, flexibleItem_wellFormed.
  - rewrite E1. apply Forall_concat_map, structuredItem_wellFormed.
Qed.

(** ** extractInvoiceTotal: the candidates of a page *)

Lemma fold_left_invariant {A B} (P : A -> Prop) (f : A -> B -> A) l a :
  P a -> (forall a b, P a -> P (f a b)) -> P (fold_left f l a).
Proof.
  intros Ha Hf. revert a Ha. induction l as [|b l IH]; intros a Ha; [done|].
  simpl. by apply IH, Hf.
Qed.

Lemma bestSameLine_above_one line totalWordEnd sameLineMatch bestAmount :
  bestSameLine line totalWordEnd sameLineMatch = Some bestAmount ->
  Js.gt (Js.abs bestAmount) one = true.
Proof.
  unfold bestSameLine. revert bestAmount.
  apply (fold_left_invariant
           (fun acc => forall a, acc = Some a -> Js.gt (Js.abs a) one = true));
    [done|].
  intros acc amountStr Hacc a.
  destruct (Js.indexOf _ _ _) as [amountIndex|]; [|by apply Hacc].
  destruct (_ <? 50)%nat; [|by apply Hacc].
  destruct (parseAmount amountStr) as [amount|]; [|by apply Hacc].
  destruct (Js.gt (Js.abs amount) one && _) eqn:E; [|by apply Hacc].
  apply andb_prop in E as [E _]. by intros [= <-].
Qed.

Lemma largestOfLine_above_one checkLine largestAmount :
  largestOfLine checkLine = Some largestAmount ->
  Js.gt (Js.abs largestAmount) one = true.
Proof.
  unfold largestOfLine. destruct (matchAll amountToken checkLine); [done|].
  destruct (fold_left _ _ _) as [a|]; [|done].
  destruct (Js.gt (Js.abs a) one) eqn:E; [|done]. by intros [= <-].
Qed.

Lemma nextLineTotal_sound line isMainTotal following t :
  nextLineTotal line isMainTotal following = Some t -> soundTotal t.
Proof.
  unfold nextLineTotal. intros (checkLine & _ & H)%firstSome_Some.
  destruct (test vatLine checkLine); [done|].
  destruct (largestOfLine checkLine) as [a|] eqn:E; [|done].
  injection H as <-. split; [by eapply largestOfLine_above_one|].
  destruct isMainTotal; [by left|by right].
Qed.

Lemma scanTotalLine_sound potentialTotals line following :
  Forall soundTotal potentialTotals ->
  Forall soundTotal (scanTotalLine potentialTotals line following).
Proof.
  intros Hacc. unfold scanTotalLine.
  destruct (_ && _); [|done]. destruct (test vatLine line); [done|].
  set (isMainTotal := test mainTotalWord line && negb (test subtotalWord line)).
  set (found := match matchAll amountToken line with
                | [] => potentialTotals
                | _ :: _ => _
                end).
  assert (Forall soundTotal found) as Hfound.
  { unfold found. destruct (matchAll amountToken line) as [|a l]; [done|].
    destruct (exec totalWord line) as [m|]; [|done].
    destruct (bestSameLine _ _ _) as [bestAmount|] eqn:E; [|done].
    apply Forall_app. split; [done|]. apply Forall_singleton. split.
    - by eapply bestSameLine_above_one.
    - simpl. destruct isMainTotal; [by left|by right]. }
  destruct (_ || _); [|done].
  destruct (nextLineTotal line isMainTotal following) as [t|] eqn:E; [|done].
  apply Forall_app. split; [done|]. apply Forall_singleton.
  by eapply nextLineTotal_sound.
Qed.

Lemma scanTotalLines_sound lines : forall potentialTotals,
  Forall soundTotal potentialTotals ->
  Forall soundTotal (scanTotalLines potentialTotals lines).
Proof.
  induction lines as [|line lines IH]; intros acc Hacc; [done|].
  simpl. by apply IH, scanTotalLine_sound.
Qed.

Lemma head_sort_priority (found : list potentialTotal) :
  Forall soundTotal found ->
  head (sort (fun a b =>
                if negb (pt_priority a =? pt_priority b)
                then pt_priority a - pt_priority b else 0) found)
  = match List.find isTotal found with
    | Some t => Some t
    | None => head found
    end.
Proof.
  induction found as [|x l IH]; [done|]. intros [Hx Hl]%Forall_cons.
  cbn [sort]. rewrite head_insert_sorted, (IH Hl). cbn [List.find head].
  unfold isTotal at 2.
  destruct Hx as [_ [[Hpx _]|[Hpx _]]]; rewrite Hpx.
  - change (1 =? 1) with true. cbv iota.
    destruct (match List.find isTotal l with Some t => Some t | None => head l end)
      as [y|] eqn:E; [|done].
    assert (soundTotal y) as [_ [[Hpy _]|[Hpy _]]].
    { rewrite Forall_forall in Hl. apply Hl.
      destruct (List.find isTotal l) as [t|] eqn:Ef.
      - injection E as <-. apply List.find_some in Ef as [Hin _].
        by apply list_elem_of_In.
      - by apply head_Some_elem_of. }
    + by rewrite Hpy.
    + by rewrite Hpy.
  - change (2 =? 1) with false. cbv iota.
    destruct (List.find isTotal l) as [t|] eqn:Ef.
    + apply List.find_some in Ef as [_ Ht]. unfold isTotal in Ht.
      apply Z.eqb_eq in Ht. by rewrite Ht.
    + destruct l as [|y l']; [done|]. simpl.
      apply Forall_cons in Hl as [[_ [[Hpy _]|[Hpy _]]] _].
      * simpl in Ef. unfold isTotal in Ef at 1. by rewrite Hpy in Ef.
      * by rewrite Hpy.
Qed.

(** X23.  Every candidate that the scan of the lines of a page finds has an
    amount of magnitude above 1 and is a Total of priority 1 or a
    Subtotal of priority 2; so, when the scan finds a candidate, the
    total of the page is a number of magnitude above 1. *)
Theorem scannedTotals_sound (pageText : string) :
  Forall soundTotal (scannedTotals pageText) /\
  (scannedTotals pageText <> [] ->
   exists total, extractInvoiceTotal pageText = Some total /\
                 Js.gt (Js.abs total) one = true).
Proof.
  assert (Forall soundTotal (scannedTotals pageText)) as Hsound
    by (by apply scanTotalLines_sound).
  split; [done|]. intros Hne.
  pose proof (head_sort_priority _ Hsound) as Hhead.
  unfold extractInvoiceTotal, potentialTotalsOf. fold (scannedTotals pageText).
  assert (exists t, match List.find isTotal (scannedTotals pageText) with
                    | Some t => Some t
                    | None => head (scannedTotals pageText)
                    end = Some t /\ t ∈ scannedTotals pageText) as (t & Ht & Hin).
  { destruct (List.find isTotal _) as [t|] eqn:Ef.
    - exists t. split; [done|]. apply List.find_some in Ef as [Hin _].
      by apply list_elem_of_In.
    - destruct (scannedTotals pageText) as [|t l]; [done|].
      exists t. split; [done|left]. }
  rewrite Ht in Hhead.
  destruct (sort _ _) as [|t' l]; [done|]. simpl in Hhead. injection Hhead as ->.
  exists (pt_amount t). split; [done|].
  rewrite Forall_forall in Hsound. by apply Hsound.
Qed.

(** X24.  The total of a page is the amount of the first candidate of type
    Total that the scan of its lines finds; when there is none, that of
    the first candidate; and the patterns of the fallback are tried only
    when the scan finds no candidate at all. *)
Theorem extractInvoiceTotal_first_total (pageText : string) :
  extractInvoiceTotal pageText =
  match List.find isTotal (scannedTotals pageText), scannedTotals pageText with
  | Some t, _ => Some (pt_amount t)
  | None, t :: _ => Some (pt_amount t)
  | None, [] => firstSome (fallbackTotal pageText) totalPatterns
  end.
Proof.
  assert (Forall soundTotal (scannedTotals pageText)) as Hsound
    by (by apply scanTotalLines_sound).
  pose proof (head_sort_priority _ Hsound) as Hhead.
  unfold extractInvoiceTotal, potentialTotalsOf. fold (scannedTotals pageText).
  destruct (sort _ (scannedTotals pageText)) as [|t' l] eqn:Esort; simpl in Hhead.
  - destruct (List.find isTotal _); [done|].
    by destruct (scannedTotals pageText).
  - destruct (List.find isTotal _); [by injection Hhead as ->|].
    destruct (scannedTotals pageText); [done|]. by injection Hhead as ->.
Qed.

(** ** parseAmount: a minus sign in front *)

(** X25.  A minus sign in front of an amount is dropped: the amount is read as
    the same amount without the sign, a positive number; the sign
    negates an amount at its end only. *)
Theorem parseAmount_leading_minus (t : string) :
  t <> "" -> absent "-" t -> parseAmount ("-" +:+ t) = parseAmount t.
Proof.
  intros Hne Hminus. rewrite (parseAmount_unsigned t Hne Hminus).
  unfold parseAmount. change ("-" +:+ t) with (String "-" t).
  assert (Js.endsWith "-" (String "-" t) = false) as ->.
  { cbn [Js.endsWith]. rewrite (endsWith_absent _ _ Hminus), orb_false_r.
    by destruct t. }
  by change (Js.replaceFirst "-" "" (String "-" t)) with t.
Qed.

Lemma parseAmount_leading_minus_witness :
  "12,50" <> "" /\ absent "-" "12,50" /\
  parseAmount ("-" +:+ "12,50") = parseAmount "12,50".
Proof.
  assert ("12,50" <> "") as Hne by done.
  assert (absent "-" "12,50") as Hminus by reflexivity.
  split; [exact Hne|]. split; [exact Hminus|].
  exact (parseAmount_leading_minus "12,50" Hne Hminus).
Defined.

(** ** detectCreditNote: pages and lines *)

Lemma startsWith_app_absent c sub : forall a b,
  absent c sub ->
  Js.startsWith sub (a +:+ String c b) = Js.startsWith sub a.
Proof.
  unfold absent. induction sub as [|x sub IH]; intros a b Hc; [by destruct a|].
  rewrite mem_cons, orb_false_iff in Hc. destruct Hc as [Hx Hsub].
  destruct a as [|y a].
  - rewrite app_nil_l. cbn [Js.startsWith].
    rewrite Ascii.eqb_sym in Hx. by rewrite Hx.
  - rewrite app_cons. cbn [Js.startsWith]. by rewrite (IH a b Hsub).
Qed.

Lemma includes_app_absent c sub a b :
  absent c sub ->
  Js.includes sub (a +:+ String c b) = Js.includes sub a || Js.includes sub b.
Proof.
  intros Hc. induction a as [|y a IH].
  - rewrite app_nil_l. cbn [Js.includes].
    rewrite <- (app_nil_l (String c b)), (startsWith_app_absent c sub "" b Hc).
    by rewrite orb_false_r.
  - rewrite app_cons. cbn [Js.includes].
    rewrite <- app_cons, (startsWith_app_absent c sub _ b Hc), IH.
    by rewrite orb_assoc.
Qed.

Lemma existsb_orb {A} (f g : A -> bool) l :
  existsb (fun x => f x || g x) l = existsb f l || existsb g l.
Proof.
  induction l as [|x l IH]; [done|]. cbn [existsb]. rewrite IH.
  by destruct (f x), (g x), (existsb f l), (existsb g l).
Qed.

Lemma existsb_ext_in {A} (f g : A -> bool) l :
  List.Forall (fun x => f x = g x) l -> existsb f l = existsb g l.
Proof.
  induction 1 as [|x l Hx _ IH]; [done|]. cbn [existsb]. by rewrite Hx, IH.
Qed.

Lemma detectCreditNote_lines a b :
  detectCreditNote (a +:+ String newline b) =
  detectCreditNote a || detectCreditNote b.
Proof.
  unfold detectCreditNote, Js.toLowerCase. cbv zeta.
  rewrite smap_app. cbn [Js.smap].
  change (Js.lower newline) with newline.
  rewrite <- existsb_orb. apply existsb_ext_in.
  unfold creditIndicators.
  repeat (apply List.Forall_cons;
          [by apply includes_app_absent; vm_compute|]).
  apply List.Forall_nil.
Qed.

(** X26.  A document is a credit note exactly when one of its pages is: the
    indicators hold no line break, so none is found across the end of a
    page (nor across the end of a line). *)
Theorem creditNote_of_pages (pageTexts : list string) :
  detectCreditNote (fullTextOf pageTexts) = existsb detectCreditNote pageTexts.
Proof.
  unfold fullTextOf.
  assert (forall pages acc,
    detectCreditNote
      (fold_left (fun fullText pageText =>
         fullText +:+ pageText +:+ String newline "") pages
         (acc +:+ String newline "")) =
    detectCreditNote acc || existsb detectCreditNote pages) as Hfold.
  { induction pages as [|p pages IH]; intros acc.
    - cbn [fold_left existsb]. rewrite detectCreditNote_lines.
      by rewrite !orb_false_r.
    - cbn [fold_left existsb].
      rewrite <- app_assoc, IH.
      rewrite app_assoc. change (String newline "" +:+ p) with (String newline p).
      by rewrite detectCreditNote_lines, orb_assoc. }
  destruct pageTexts as [|p pages]; [done|].
  cbn [fold_left existsb]. rewrite app_nil_l.
  apply Hfold.
Qed.

(** * The choice of the total and the service period, over the text *)

(** ** Words read without regard to the case *)

Lemma lang_stri s : forall w,
  lang (stri s) w <-> Js.toLowerCase w = Js.toLowerCase s.
Proof.
  unfold Js.toLowerCase.
  induction s as [|c s IH]; intros w.
  - cbn [stri lang Js.smap]. split; [by intros ->|by destruct w].
  - destruct s as [|c' s].
    + cbn [stri lang liti Js.smap]. split.
      * intros (x & -> & Hx%Ascii.eqb_eq). cbn [Js.smap]. by rewrite Hx.
      * destruct w as [|x [|y w]]; cbn [Js.smap]; intros [= Hx]; [].
        exists x. split; [done|]. by apply Ascii.eqb_eq.
    + change (stri (String c (String c' s)))
        with (Seq (liti c) (stri (String c' s))).
      cbn [lang liti]. split.
      * intros (u & v & -> & (x & -> & Hx%Ascii.eqb_eq) & Hv%IH).
        rewrite app_cons, app_nil_l. cbn [Js.smap] in *. by rewrite Hx, Hv.
      * destruct w as [|x w]; [done|]. cbn [Js.smap]. intros [= Hx Hw].
        exists (String x ""), w. split; [by rewrite app_cons, app_nil_l|].
        split; [exists x; split; [done|by apply Ascii.eqb_eq]|].
        apply IH. by cbn [Js.smap].
Qed.


Lemma upper_word c : Js.is_upper (Js.upper c) = true -> Js.is_word c = true.
Proof. destruct c as [[] [] [] [] [] [] [] []]; by vm_compute. Qed.

Lemma digit_word c : Js.is_digit c = true -> Js.is_word c = true.
Proof. unfold Js.is_word. by intros ->. Qed.

Lemma every_smap_inv p f s :
  every p (Js.smap f s) = true -> every (fun c => p (f c)) s = true.
Proof.
  induction s as [|c s IH]; [done|]. cbn [Js.smap every].
  intros [Hc Hs]%andb_prop. by rewrite Hc, (IH Hs).
Qed.


Lemma upper_letters_word w s :
  Js.toUpperCase w = s -> every Js.is_upper s = true ->
  every Js.is_word w = true.
Proof.
  intros <- H%every_smap_inv. eapply every_impl; [|exact H].
  intros c. apply upper_word.
Qed.

(** ** Word boundaries *)

Lemma steps_WordB s e :
  steps WordB s e <->
  xorb (is_word_at (prev s)) (is_word_at (next s)) = true /\ e = s.
Proof.
  cbn [steps run].
  destruct (xorb (is_word_at (prev s)) (is_word_at (next s))).
  - split; [by intros [_ ->]|by intros [_ ->]].
  - split; [by intros [? _]|by intros [? _]].
Qed.

Lemma moved_inj w w' s s' : moved w s s' -> moved w' s s' -> w = w'.
Proof.
  intros [Hw Hn] [Hw' Hn'].
  destruct (app_inj_length w (rest s') w' (rest s')) as [? _];
    [congruence|done|done].
Qed.

(** The word a pattern consumes, with the character before the cursor
    where it ends. *)
Lemma steps_word r s s' :
  steps r s s' ->
  exists w, moved w s s' /\ lang r w /\ prev s' = last_char w (prev s).
Proof.
  intros H. destruct (steps_lang r s s' H) as (w & Hw & Hlang).
  destruct (steps_prev r s s' H) as (w' & Hw' & Hprev).
  rewrite <- (moved_inj w w' s s' Hw Hw') in Hprev. by exists w.
Qed.

Lemma next_app c w t s : rest s = String c w +:+ t -> next s = Some c.
Proof. unfold next. by intros ->. Qed.

Lemma wordEnd_next s : is_word_at (next s) = false <-> wordEnd (rest s).
Proof. unfold wordEnd, stops, next. by destruct (rest s). Qed.

(** A word of word characters that stands between two boundaries: no word
    character before it and none after it. *)
Lemma word_between w s s' :
  w <> "" -> every Js.is_word w = true ->
  moved w s s' -> prev s' = last_char w (prev s) ->
  (xorb (is_word_at (prev s)) (is_word_at (next s)) = true <->
   is_word_at (prev s) = false) /\
  (xorb (is_word_at (prev s')) (is_word_at (next s')) = true <->
   wordEnd (rest s')).
Proof.
  intros Hne Hword [Hrest _] Hprev. split.
  - destruct w as [|c w]; [done|]. rewrite (next_app c w (rest s') s Hrest).
    cbn [every] in Hword. apply andb_prop in Hword as [Hc _].
    cbn [is_word_at]. rewrite Hc. by destruct (is_word_at (prev s)).
  - destruct (every_last_char Js.is_word w (prev s) Hword Hne) as (c & Hc & Hw).
    rewrite Hprev, Hc, <- wordEnd_next. cbn [is_word_at]. rewrite Hw.
    by destruct (is_word_at (next s')).
Qed.

(** ** The words Total and Subtotal on a page *)

Lemma test_is_Some r text : test r text = true <-> is_Some (exec r text).
Proof.
  unfold test. destruct (exec r text); split; (done || by intros []).
Qed.








(** ** The priority of a page, from its text *)



(** ** extractInvoiceData: the choice of the total *)





(** ** Matches at a place of the text *)

(** A group records the span of the word it matched, and the character
    before the cursor is the last one of the word. *)
Lemma steps_group i r s e :
  steps (Grp i r) s e ->
  exists w, moved w s e /\ lang r w /\ prev e = last_char w (prev s) /\
            lookup_cap i (caps e) = Some (pos s, pos e).
Proof.
  intros H. destruct (steps_word _ _ _ H) as (w & Hw & Hlang & Hprev).
  destruct (steps_Grp _ _ _ _ H) as (w' & Hw' & _ & Hcap).
  by exists w.
Qed.

(** The state a plain pattern reaches over one of its words. *)
Lemma word_steps r w s t :
  plain r = true -> lang r w -> rest s = w +:+ t ->
  exists s', steps r s s' /\ moved w s s' /\
             prev s' = last_char w (prev s) /\ rest s' = t.
Proof.
  intros Hplain Hlang Hrest.
  destruct (lang_steps r Hplain w s t Hlang Hrest) as (s' & Hsteps & Hs').
  destruct Hs' as (Hpos & Hprev & Hrest'). simpl in Hpos, Hprev, Hrest'.
  exists s'. split; [done|]. split; [|done].
  split; [by rewrite Hrest'|done].
Qed.

(** The leftmost match: the pattern matches at the end of [pre] and at no
    earlier place. *)
Lemma exec_leftmost r pre post :
  is_Some (run r Some (MState (String.length pre) (last_char pre None) post [])) ->
  (forall pre' post', pre +:+ post = pre' +:+ post' ->
     (String.length pre' < String.length pre)%nat ->
     run r Some (MState (String.length pre') (last_char pre' None) post' [])
     = None) ->
  exists m, exec r (pre +:+ post) = Some m /\
    run r Some (MState (String.length pre) (last_char pre None) post [])
    = Some (f_end m).
Proof.
  intros Hhere Hbefore.
  destruct (exec_at_complete r pre post 0 None Hhere) as [m Hm].
  fold (exec r (pre +:+ post)) in Hm. exists m. split; [done|].
  destruct (exec_found r _ m Hm) as (pre0 & post0 & Heq & _ & Hrun & Hleast).
  destruct (Nat.lt_trichotomy (String.length pre0) (String.length pre))
    as [Hlt|[Heql|Hgt]].
  - by rewrite (Hbefore pre0 post0 Heq Hlt) in Hrun.
  - symmetry in Heq.
    destruct (prefix_length_eq _ _ _ _ Heq Heql) as [-> ->]. exact Hrun.
  - rewrite (Hleast pre post eq_refl Hgt) in Hhere. by destruct Hhere.
Qed.

(** No match at all when the pattern matches at no place. *)
Lemma exec_nowhere r text :
  (forall pre post, text = pre +:+ post ->
     run r Some (MState (String.length pre) (last_char pre None) post []) = None) ->
  exec r text = None.
Proof.
  intros Hnone. destruct (exec r text) as [m|] eqn:Hm; [|done].
  destruct (exec_found r _ m Hm) as (pre0 & post0 & Heq & _ & Hrun & _).
  by rewrite (Hnone pre0 post0 Heq) in Hrun.
Qed.

Lemma app_inv_head (a b c : string) : a +:+ b = a +:+ c -> b = c.
Proof. intros H. by destruct (prefix_length_eq a b a c H eq_refl). Qed.

(** ** The month markers *)

Lemma toLowerCase_toUpperCase w :
  Js.toLowerCase (Js.toUpperCase w) = Js.toLowerCase w.
Proof.
  unfold Js.toLowerCase, Js.toUpperCase.
  induction w as [|c w IH]; [done|]. cbn [Js.smap]. rewrite IH. f_equal.
  destruct c as [[] [] [] [] [] [] [] []]; by vm_compute.
Qed.

(** The abbreviations are what the alternatives of the month pattern
    match, in any letter case. *)
Lemma lang_abbreviation g :
  lang (alt [stri "JAN"; stri "FEB"; stri "MAR"; stri "APR"; stri "MAY";
             stri "JUN"; stri "JUL"; stri "AUG"; stri "SEP"; stri "OCT";
             stri "NOV"; stri "DEC"]) g <->
  Js.toUpperCase g ∈ abbreviations.*1.
Proof.
  cbn [alt lang]. split.
  - intros H. repeat (destruct H as [H|H]);
      apply lang_stri_upper in H; try done; rewrite H;
      cbn [abbreviations fmap list_fmap fst]; rewrite !elem_of_cons; tauto.
  - cbn [abbreviations fmap list_fmap fst].
    rewrite !elem_of_cons, elem_of_nil, !lang_stri.
    rewrite <- (toLowerCase_toUpperCase g).
    intros H. repeat (destruct H as [H|H]); try done; rewrite H; tauto.
Qed.

Lemma abbreviation_word g :
  Js.toUpperCase g ∈ abbreviations.*1 ->
  String.length g = 3%nat /\ every Js.is_word g = true.
Proof.
  intros H. rewrite <- (length_smap Js.upper g). fold (Js.toUpperCase g).
  assert (every Js.is_upper (Js.toUpperCase g) = true /\
          String.length (Js.toUpperCase g) = 3%nat) as [Hup Hlen].
  { revert H. cbn [abbreviations fmap list_fmap fst].
    rewrite !elem_of_cons, elem_of_nil.
    intros H. repeat (destruct H as [H|H]); try done; by rewrite H. }
  split; [done|]. by apply (upper_letters_word g (Js.toUpperCase g)).
Qed.

Lemma abbreviation_name g name :
  (Js.toUpperCase g, name) ∈ abbreviations ->
  monthMap !! Js.toUpperCase g = Some name.
Proof.
  unfold abbreviations. rewrite !elem_of_cons, elem_of_nil.
  intros H. repeat (destruct H as [H|H]); try done;
    injection H as -> ->; reflexivity.
Qed.

Lemma digits_word w : every Js.is_digit w = true -> every Js.is_word w = true.
Proof. apply every_impl. intros c. apply digit_word. Qed.

(** What a match of the month pattern at the end of [pre] looks like. *)
Lemma monthPattern_sound pre post e :
  steps monthPattern (MState (String.length pre) (last_char pre None) post []) e ->
  exists abbr gap year post',
    monthMarker (pre +:+ post) pre abbr gap year post' /\
    forall m, f_end m = e ->
      group_str 1 (pre +:+ post) m = abbr /\
      group_str 2 (pre +:+ post) m = year.
Proof.
  set (s := MState _ _ _ _). set (text := pre +:+ post).
  assert (at_text text s) as Hat by apply at_text_split.
  intros (s1 & [H1 ->]%steps_WordB & s2 & HG1 & s3 & Hgap & s4 & HG2 &
          [H2 Hend]%steps_WordB). subst s4.
  destruct (steps_group _ _ _ _ HG1) as (abbr & Habbr & Hl1 & Hp1 & Hc1).
  destruct (steps_word _ _ _ Hgap) as (gap & Hgapm & Hl2 & Hp2).
  destruct (steps_group _ _ _ _ HG2) as (year & Hyear & Hl3 & Hp3 & Hc3).
  apply lang_abbreviation in Hl1.
  apply lang_plus_class in Hl2 as [Hgne Hgsp].
  apply lang_times_class in Hl3 as [Hylen Hydig].
  destruct (abbreviation_word abbr Hl1) as [Halen Haword].
  assert (at_text text s3) as Hat3.
  { eapply at_text_steps; [|exact Hgap]. eapply at_text_steps; [|exact HG1]. done. }
  exists abbr, gap, year, (rest e). split.
  - split; [|split; [done|split; [done|split; [done|split; [done|split]]]]].
    + unfold text. f_equal.
      destruct Habbr as [Hr1 _], Hgapm as [Hr2 _], Hyear as [Hr3 _].
      unfold s in Hr1. cbn [rest] in Hr1. by rewrite Hr1, Hr2, Hr3.
    + assert (abbr <> "") as Hne by (by intros ->).
      by apply (word_between abbr s s2 Hne Haword Habbr Hp1).
    + assert (year <> "") as Hne by (by intros ->).
      by apply (word_between year s3 e Hne (digits_word _ Hydig) Hyear Hp3).
  - intros m <-. split.
    + rewrite (group_str_cap 1 text m (pos s) (pos s2)).
      * by apply (substr_moved text abbr s s2).
      * rewrite (steps_keeps_cap (Grp 2 (times 4 d)) 1) with (s := s3);
          [|by apply existsb_eqb_false|done].
        rewrite (steps_keeps_cap (plus sp) 1) with (s := s2);
          [done|by apply existsb_eqb_false|done].
    + rewrite (group_str_cap 2 text m (pos s3) (pos (f_end m))); [|done].
      by apply (substr_moved text year s3 (f_end m)).
Qed.

(** The month pattern matches at every month marker. *)
Lemma monthPattern_complete text pre abbr gap year post :
  monthMarker text pre abbr gap year post ->
  is_Some (run monthPattern Some
             (MState (String.length pre) (last_char pre None)
                     (abbr +:+ gap +:+ year +:+ post) [])).
Proof.
  intros (_ & Habbr & Hgne & Hgsp & [Hylen Hydig] & Hpre & Hpost).
  set (s := MState _ _ _ _).
  destruct (abbreviation_word abbr Habbr) as [Halen Haword].
  destruct (word_steps (Grp 1 (alt [stri "JAN"; stri "FEB"; stri "MAR";
              stri "APR"; stri "MAY"; stri "JUN"; stri "JUL"; stri "AUG";
              stri "SEP"; stri "OCT"; stri "NOV"; stri "DEC"]))
              abbr s (gap +:+ year +:+ post) eq_refl)
    as (s2 & HG1 & Hm1 & Hp1 & Hr1); [by apply lang_abbreviation|done|].
  destruct (word_steps (plus sp) gap s2 (year +:+ post) eq_refl)
    as (s3 & Hgap & Hm2 & Hp2 & Hr2); [by apply lang_plus_class|done|].
  destruct (word_steps (Grp 2 (times 4 d)) year s3 post eq_refl)
    as (s4 & HG2 & Hm3 & Hp3 & Hr3); [by apply lang_times_class|done|].
  assert (abbr <> "") as Hane by (by intros ->).
  assert (year <> "") as Hyne by (by intros ->).
  apply (run_Some_complete _ _ s4).
  exists s. split.
  { apply steps_WordB. split; [|done].
    by apply (word_between abbr s s2 Hane Haword Hm1 Hp1). }
  exists s2. split; [done|]. exists s3. split; [done|].
  exists s4. split; [done|].
  apply steps_WordB. split; [|done].
  apply (word_between year s3 s4 Hyne (digits_word _ Hydig) Hm3 Hp3).
  by rewrite Hr3.
Qed.

(** Two month markers at the same place are the same marker. *)
Lemma monthMarker_unique text pre abbr gap year post abbr' gap' year' post' :
  monthMarker text pre abbr gap year post ->
  monthMarker text pre abbr' gap' year' post' ->
  abbr = abbr' /\ year = year'.
Proof.
  intros (-> & Ha & _ & Hg & [Hylen Hydig] & _)
         (Heq & Ha' & _ & Hg' & [Hylen' Hydig'] & _).
  apply app_inv_head in Heq.
  destruct (abbreviation_word abbr Ha) as [Hlen _].
  destruct (abbreviation_word abbr' Ha') as [Hlen' _].
  destruct (prefix_length_eq _ _ _ _ Heq) as [<- Heq2]; [lia|]. split; [done|].
  destruct year as [|c year]; [done|]. destruct year' as [|c' year']; [done|].
  cbn [every] in Hydig, Hydig'.
  apply andb_prop in Hydig as [Hc _]. apply andb_prop in Hydig' as [Hc' _].
  rewrite !app_cons in Heq2.
  destruct (run_unique Js.is_space gap gap' c c' _ _ Heq2 Hg Hg')
    as (_ & <- & Heq3); [by apply digit_not_space..|].
  f_equal.
  destruct (prefix_length_eq _ _ _ _ Heq3) as [<- _]; [|done].
  simpl in Hylen, Hylen'. lia.
Qed.

(** The match of the month pattern is the first month marker. *)
Lemma exec_monthPattern_first text pre abbr gap year post :
  monthMarker text pre abbr gap year post ->
  (forall n, monthMarkerAt text n -> (String.length pre <= n)%nat) ->
  exists m, exec monthPattern text = Some m /\
            group_str 1 text m = abbr /\ group_str 2 text m = year.
Proof.
  intros Hmarker Hfirst. pose proof Hmarker as (Htext & _).
  destruct (exec_leftmost monthPattern pre (abbr +:+ gap +:+ year +:+ post))
    as (m & Hm & Hrun).
  - by apply (monthPattern_complete text).
  - rewrite <- Htext. intros pre' post' -> Hlt.
    destruct (run monthPattern Some _) as [e|] eqn:He; [|done].
    apply run_Some_sound, monthPattern_sound in He
      as (abbr' & gap' & year' & post'' & Hmarker' & _).
    assert (monthMarkerAt (pre' +:+ post') (String.length pre')) as Hat
      by (by exists pre', abbr', gap', year', post'').
    apply Hfirst in Hat. lia.
  - rewrite <- Htext in Hm. exists m. split; [done|].
    apply run_Some_sound, monthPattern_sound in Hrun
      as (abbr' & gap' & year' & post'' & Hmarker' & Hgroups).
    rewrite <- Htext in Hmarker', Hgroups.
    destruct (Hgroups m eq_refl) as [-> ->].
    by destruct (monthMarker_unique _ _ _ _ _ _ _ _ _ _ Hmarker Hmarker').
Qed.

Lemma exec_monthPattern_none text :
  (forall n, ~ monthMarkerAt text n) -> exec monthPattern text = None.
Proof.
  intros Hnone. apply exec_nowhere. intros pre post ->.
  destruct (run monthPattern Some _) as [e|] eqn:He; [|done].
  apply run_Some_sound, monthPattern_sound in He
    as (abbr & gap & year & post' & Hmarker & _).
  destruct (Hnone (String.length pre)). by exists pre, abbr, gap, year, post'.
Qed.

(** A month marker makes the month pattern match. *)
Lemma monthMarkerAt_test text n :
  monthMarkerAt text n -> test monthPattern text = true.
Proof.
  intros (pre & abbr & gap & year & post & Hmarker & _).
  apply test_is_Some. pose proof Hmarker as (-> & _).
  apply (exec_at_complete monthPattern pre _ 0 None).
  by apply (monthPattern_complete _ _ _ _ _ _ Hmarker).
Qed.

(** ** The numeric tokens *)

(** The three parts of a numeric token, as the two fallback patterns
    match them. *)
Lemma token_steps text s6 s7 s8 e :
  at_text text s6 ->
  steps (Grp 1 (range 1 2 d)) s6 s7 -> steps dsep s7 s8 ->
  steps (Grp 2 (times 4 d)) s8 e ->
  exists month separator year,
    numericToken month separator year /\
    rest s6 = month +:+ String separator (year +:+ rest e) /\
    moved month s6 s7 /\ prev s7 = last_char month (prev s6) /\
    moved year s8 e /\ prev e = last_char year (prev s8) /\
    forall m, f_end m = e ->
      group_str 1 text m = month /\ group_str 2 text m = year.
Proof.
  intros Hat HG1 Hsep HG2.
  destruct (steps_group _ _ _ _ HG1) as (month & Hmonth & Hl1 & Hp1 & Hc1).
  destruct (steps_group _ _ _ _ HG2) as (year & Hyear & Hl2 & Hp2 & Hc2).
  apply lang_range_class in Hl1; [|lia]. apply lang_times_class in Hl2.
  assert (at_text text s8) as Hat8.
  { eapply at_text_steps; [|exact Hsep]. eapply at_text_steps; [|exact HG1]. done. }
  assert (lookup_cap 1 (caps e) = lookup_cap 1 (caps s8)) as Hkeep.
  { apply (steps_keeps_cap (Grp 2 (times 4 d)) 1); [|done].
    by apply existsb_eqb_false. }
  destruct Hsep as (c & t & Hr7 & Hc & ->). cbn [caps rest] in *.
  exists month, c, year. split; [done|]. split; [|split; [done|split; [done|
    split; [done|split; [done|]]]]].
  - destruct Hmonth as [-> _]. rewrite Hr7.
    destruct Hyear as [Hr8 _]. cbn [rest] in Hr8. by rewrite Hr8.
  - intros m <-. split.
    + rewrite (group_str_cap 1 text m (pos s6) (pos s7)); [|by rewrite Hkeep].
      by apply (substr_moved text month s6 s7).
    + rewrite (group_str_cap 2 text m _ _ Hc2).
      by apply (substr_moved text year _ (f_end m)).
Qed.

Lemma monthDigits_word month : monthDigits month ->
  month <> "" /\ every Js.is_word month = true.
Proof.
  intros [Hlen Hdig]. split; [intros ->; simpl in Hlen; lia|].
  by apply digits_word.
Qed.

Lemma year_word year : digits 4 year -> year <> "" /\ every Js.is_word year = true.
Proof. intros [Hlen Hdig]. split; [by intros ->|]. by apply digits_word. Qed.

(** What a match of the second fallback pattern at the end of [pre] looks
    like. *)
Lemma fallbackPattern2_sound pre post e :
  steps fallbackPattern2
        (MState (String.length pre) (last_char pre None) post []) e ->
  exists month separator year post',
    bareToken (pre +:+ post) pre month separator year post' /\
    forall m, f_end m = e ->
      group_str 1 (pre +:+ post) m = month /\
      group_str 2 (pre +:+ post) m = year.
Proof.
  set (s := MState _ _ _ _). set (text := pre +:+ post).
  assert (at_text text s) as Hat by apply at_text_split.
  intros (s1 & [H1 ->]%steps_WordB & s7 & HG1 & s8 & Hsep & s9 & HG2 &
          [H2 Hend]%steps_WordB). subst s9.
  destruct (token_steps text s s7 s8 e Hat HG1 Hsep HG2)
    as (month & c & year & Htoken & Hrest & Hm1 & Hp1 & Hm2 & Hp2 & Hgroups).
  exists month, c, year, (rest e). split; [|done].
  pose proof Htoken as (Hmonth & _ & Hyear).
  destruct (monthDigits_word month Hmonth) as [Hmne Hmw].
  destruct (year_word year Hyear) as [Hyne Hyw].
  split; [split; [|done]|split].
  - unfold text. f_equal. exact Hrest.
  - by apply (word_between month s s7 Hmne Hmw Hm1 Hp1).
  - by apply (word_between year s8 e Hyne Hyw Hm2 Hp2).
Qed.

(** The second fallback pattern matches at every bare token. *)
Lemma fallbackPattern2_complete text pre month separator year post :
  bareToken text pre month separator year post ->
  is_Some (run fallbackPattern2 Some
             (MState (String.length pre) (last_char pre None)
                     (month +:+ String separator (year +:+ post)) [])).
Proof.
  intros [[_ (Hmonth & Hsep & Hyear)] [Hpre Hpost]].
  set (s := MState _ _ _ _).
  destruct (monthDigits_word month Hmonth) as [Hmne Hmw].
  destruct (year_word year Hyear) as [Hyne Hyw].
  destruct (word_steps (Grp 1 (range 1 2 d)) month s
              (String separator (year +:+ post)) eq_refl)
    as (s7 & HG1 & Hm1 & Hp1 & Hr1); [by apply lang_range_class; [lia|]|done|].
  set (s8 := MState (S (pos s7)) (Some separator) (year +:+ post) (caps s7)).
  destruct (word_steps (Grp 2 (times 4 d)) year s8 post eq_refl)
    as (s9 & HG2 & Hm2 & Hp2 & Hr2); [by apply lang_times_class|done|].
  apply (run_Some_complete _ _ s9).
  exists s. split.
  { apply steps_WordB. split; [|done].
    by apply (word_between month s s7 Hmne Hmw Hm1 Hp1). }
  exists s7. split; [done|]. exists s8. split.
  { by exists separator, (year +:+ post). }
  exists s9. split; [done|].
  apply steps_WordB. split; [|done].
  apply (word_between year s8 s9 Hyne Hyw Hm2 Hp2). by rewrite Hr2.
Qed.

(** Two numeric tokens at the same place are the same token. *)
Lemma tokenIn_unique text pre month separator year post month' separator'
    year' post' :
  tokenIn text pre month separator year post ->
  tokenIn text pre month' separator' year' post' ->
  month = month' /\ year = year'.
Proof.
  intros [-> ([_ Hm] & Hs & [Hlen _])] [Heq ([_ Hm'] & Hs' & [Hlen' _])].
  apply app_inv_head in Heq.
  destruct (run_unique Js.is_digit month month' separator separator' _ _ Heq
              Hm Hm') as (<- & _ & Heq2); [by apply dsep_not_digit..|].
  split; [done|].
  destruct (prefix_length_eq _ _ _ _ Heq2) as [<- _]; [lia|done].
Qed.

(** The match of the second fallback pattern is the first bare token. *)
Lemma exec_fallbackPattern2_first text pre month separator year post :
  bareToken text pre month separator year post ->
  (forall n, bareTokenAt text n -> (String.length pre <= n)%nat) ->
  exists m, exec fallbackPattern2 text = Some m /\
            group_str 1 text m = month /\ group_str 2 text m = year.
Proof.
  intros Htoken Hfirst. pose proof Htoken as [[Htext _] _].
  destruct (exec_leftmost fallbackPattern2 pre
              (month +:+ String separator (year +:+ post))) as (m & Hm & Hrun).
  - by apply (fallbackPattern2_complete text).
  - rewrite <- Htext. intros pre' post' -> Hlt.
    destruct (run fallbackPattern2 Some _) as [e|] eqn:He; [|done].
    apply run_Some_sound, fallbackPattern2_sound in He
      as (month' & separator' & year' & post'' & Htoken' & _).
    assert (bareTokenAt (pre' +:+ post') (String.length pre')) as Hat
      by (by exists pre', month', separator', year', post'').
    apply Hfirst in Hat. lia.
  - rewrite <- Htext in Hm. exists m. split; [done|].
    apply run_Some_sound, fallbackPattern2_sound in Hrun
      as (month' & separator' & year' & post'' & Htoken' & Hgroups).
    rewrite <- Htext in Htoken', Hgroups.
    destruct (Hgroups m eq_refl) as [-> ->].
    destruct Htoken as [Htoken _], Htoken' as [Htoken' _].
    by destruct (tokenIn_unique _ _ _ _ _ _ _ _ _ _ Htoken Htoken').
Qed.

Lemma exec_fallbackPattern2_none text :
  (forall n, ~ bareTokenAt text n) -> exec fallbackPattern2 text = None.
Proof.
  intros Hnone. apply exec_nowhere. intros pre post ->.
  destruct (run fallbackPattern2 Some _) as [e|] eqn:He; [|done].
  apply run_Some_sound, fallbackPattern2_sound in He
    as (month & separator & year & post' & Htoken & _).
  destruct (Hnone (String.length pre)).
  by exists pre, month, separator, year, post'.
Qed.

(** A bare token makes the second fallback pattern match. *)
Lemma bareTokenAt_test text n :
  bareTokenAt text n -> test fallbackPattern2 text = true.
Proof.
  intros (pre & month & separator & year & post & Htoken & _).
  apply test_is_Some. pose proof Htoken as [[-> _] _].
  apply (exec_at_complete fallbackPattern2 pre _ 0 None).
  by apply (fallbackPattern2_complete _ _ _ _ _ _ Htoken).
Qed.

(** ** The labelled tokens *)

Lemma labelledToken_tokenIn text month separator year :
  labelledToken text month separator year ->
  exists pre post, tokenIn text pre month separator year post.
Proof.
  intros (pre & service & a & period & b & gap & post & -> & _ & _ & _ & _ & _ &
          Htoken).
  exists (pre +:+ service +:+ a +:+ period +:+ b +:+ gap), post.
  split; [|done]. by rewrite !app_assoc.
Qed.

(** A match of the first fallback pattern is a labelled token, and its
    groups are the month and the year of the token. *)
Lemma fallbackPattern1_sound text m :
  exec fallbackPattern1 text = Some m ->
  exists separator,
    labelledToken text (group_str 1 text m) separator (group_str 2 text m).
Proof.
  intros Hm. destruct (exec_found _ _ _ Hm) as (pre & post & -> & _ & Hrun & _).
  apply run_Some_sound in Hrun. revert Hrun.
  set (s := MState _ _ _ _). set (text := pre +:+ post).
  assert (at_text text s) as Hat by apply at_text_split.
  intros (s1 & HS & s2 & HA & s3 & HP & s4 & HB & s5 & HC & s6 & HG & s7 &
          HG1 & s8 & Hsep & HG2).
  assert (at_text text s6) as Hat6.
  { eapply at_text_steps; [|exact HG]. eapply at_text_steps; [|exact HC].
    eapply at_text_steps; [|exact HB]. eapply at_text_steps; [|exact HP].
    eapply at_text_steps; [|exact HA]. eapply at_text_steps; [|exact HS]. done. }
  destruct (token_steps text s6 s7 s8 (f_end m) Hat6 HG1 Hsep HG2)
    as (month & c & year & Htoken & Hr6 & _ & _ & _ & _ & Hgroups).
  destruct (Hgroups m eq_refl) as [-> ->].
  destruct (steps_word _ _ _ HS) as (w1 & [Hr0 _] & Hl1%lang_stri & _).
  destruct (steps_word _ _ _ HA) as (w2 & [Hr1 _] & [Hl2 _]%lang_class_rep & _).
  destruct (steps_word _ _ _ HP) as (w3 & [Hr2 _] & Hl3%lang_stri & _).
  destruct (steps_word _ _ _ HB) as (w4 & [Hr3 _] & [Hl4 _]%lang_class_rep & _).
  destruct (steps_word _ _ _ HC) as (w5 & [Hr4 _] & Hl5%lang_opt_colon & _).
  destruct (steps_word _ _ _ HG) as (w6 & [Hr5 _] & [Hl6 _]%lang_class_rep & _).
  exists c, pre, w1, w2, w3, (w4 +:+ w5), w6, (rest (f_end m)).
  split; [|split; [done|split; [done|split; [done|split; [|done]]]]].
  - unfold text. f_equal. unfold s in Hr0. cbn [rest] in Hr0.
    by rewrite Hr0, Hr1, Hr2, Hr3, Hr4, Hr5, Hr6, !app_assoc.
  - unfold oneLine. rewrite every_app, Hl4. by destruct Hl5 as [->| ->].
Qed.

(** A labelled token makes the first fallback pattern match. *)
Lemma labelledToken_test text month separator year :
  labelledToken text month separator year -> test fallbackPattern1 text = true.
Proof.
  intros (pre & service & a & period & b & gap & post & -> & Hservice & Ha &
          Hperiod & Hb & Hgap & (Hmonth & Hsep & Hyear)).
  apply (test_plain fallbackPattern1 _ eq_refl).
  exists pre,
    (service +:+ a +:+ period +:+ b +:+ "" +:+ gap +:+ month +:+
     String separator "" +:+ year), post.
  split; [by rewrite !app_assoc, app_nil_l, app_cons, app_nil_l|].
  assert (forall w, within (String.length w) 0 None) as Hany.
  { intros w. split; [left; lia|done]. }
  exists service, (a +:+ period +:+ b +:+ "" +:+ gap +:+ month +:+
                   String separator "" +:+ year).
  split; [done|]. split; [by apply lang_stri|].
  eexists a, _. split; [done|]. split; [by apply class_rep_lang|].
  eexists period, _. split; [done|]. split; [by apply lang_stri|].
  eexists b, _. split; [done|]. split; [by apply class_rep_lang|].
  eexists "", _. split; [done|]. split.
  { exists 0%nat. split; [|done]. split; [left; lia|]. intros ? [= <-]. lia. }
  eexists gap, _. split; [done|]. split; [by apply class_rep_lang|].
  eexists month, _. split; [done|]. split; [by apply lang_range_class; [lia|]|].
  eexists (String separator ""), _. split; [done|].
  split; [by exists separator|]. by apply lang_times_class.
Qed.

(** ** extractServicePeriodFromPage: the rules over the text *)

Lemma nameOfMonth_monthNames month :
  (1 <= month)%nat -> monthNames !! month = nameOfMonth month.
Proof. by destruct month; [lia|]. Qed.

Lemma nameOfMonth_is_Some month :
  (1 <= month <= 12)%nat -> is_Some (nameOfMonth month).
Proof.
  destruct month as [|i]; [lia|]. intros ?. cbn [nameOfMonth].
  apply lookup_lt_is_Some_2. simpl. lia.
Qed.

(** The period that a fallback pattern yields, from the groups of its
    match. *)
Lemma fallbackPeriod_match text pattern m :
  exec pattern text = Some m ->
  let month := parseInt (group_str 1 text m) in
  ((1 <= month <= 12)%nat ->
   exists name, nameOfMonth month = Some name /\
     fallbackPeriod text pattern = Some (name +:+ " " +:+ group_str 2 text m)) /\
  (~ (1 <= month <= 12)%nat -> fallbackPeriod text pattern = None).
Proof.
  intros Hm month. unfold fallbackPeriod. rewrite Hm. fold month. split.
  - intros Hrange. destruct (nameOfMonth_is_Some month Hrange) as [name Hname].
    exists name. split; [done|].
    destruct (Nat.leb_spec 1 month); [|lia].
    destruct (Nat.leb_spec month 12); [|lia].
    cbn [andb]. by rewrite nameOfMonth_monthNames, Hname by lia.
  - intros Hrange.
    destruct (Nat.leb_spec 1 month); [|done].
    destruct (Nat.leb_spec month 12); [lia|done].
Qed.

(** The first fallback yields nothing when no labelled token has a month
    from 1 to 12. *)
Lemma fallbackPeriod_unlabelled text :
  (forall month separator year,
     labelledToken text month separator year ->
     ~ (1 <= parseInt month <= 12)%nat) ->
  fallbackPeriod text fallbackPattern1 = None.
Proof.
  intros Hnone. destruct (exec fallbackPattern1 text) as [m|] eqn:Hm.
  - destruct (fallbackPattern1_sound text m Hm) as [separator Hlabel].
    by apply (fallbackPeriod_match text _ m Hm), (Hnone _ _ _ Hlabel).
  - unfold fallbackPeriod. by rewrite Hm.
Qed.

Lemma oneLine_lower w : oneLine (Js.toLowerCase w) -> oneLine w.
Proof.
  unfold oneLine, Js.toLowerCase. intros H%every_smap_inv.
  eapply every_impl; [|exact H].
  intros c. destruct c as [[] [] [] [] [] [] [] []]; by vm_compute.
Qed.

(** A numeric token after the label Service Provision Period and a colon
    is a labelled token. *)
Lemma servicePeriodLabel pre label gap month separator year post :
  Js.toLowerCase label = "service provision period:" ->
  every Js.is_space gap = true -> numericToken month separator year ->
  labelledToken
    (pre +:+ label +:+ gap +:+ month +:+ String separator (year +:+ post))
    month separator year.
Proof.
  intros Hlabel Hgap Htoken. unfold Js.toLowerCase in Hlabel.
  change "service provision period:"
    with ("service" +:+ " provision " +:+ "period" +:+ ":") in Hlabel.
  apply smap_eq_app in Hlabel as (service & r1 & -> & Hservice & Hlabel).
  apply smap_eq_app in Hlabel as (a & r2 & -> & Ha & Hlabel).
  apply smap_eq_app in Hlabel as (period & b & -> & Hperiod & Hb).
  exists pre, service, a, period, b, gap, post.
  split; [by rewrite !app_assoc|]. split; [done|].
  split; [apply oneLine_lower; unfold Js.toLowerCase; by rewrite Ha|].
  split; [done|].
  split; [apply oneLine_lower; unfold Js.toLowerCase; by rewrite Hb|done].
Qed.

(** C8, amended.  For every page text.  (1) When the first month marker of
    the text - the abbreviation of a month in any letter case, white
    space and a year of four digits, as a whole word - is that of the
    month [name] with the year [year], the period is [name year]: it is
    "January 2024" when the first marker reads JAN 2024, as on the text
    "JAN 2024".  (2) When the text has no month marker, 02/2024 follows
    the label Service Provision Period and a colon in it, and every numeric
    token of the text reads 02/2024 (or is its part 2/2024), the period is
    "February 2024", as on the text "Service Provision Period: 02/2024".  (3) When the text has no
    month marker and no labelled token with a month from 1 to 12, the first
    bare MM/YYYY or MM.YYYY token is accepted exactly when its month is
    from 1 to 12, and gives the name of that month and the year; when it
    is not accepted the result is the sentinel.  (4) The result is the
    sentinel "Unknown Period" when the text has no month marker, no
    labelled token with a month from 1 to 12 and no bare token.  The
    three patterns find nothing exactly on the texts without month marker,
    without labelled token and without bare token; so (3) and (4) also
    hold, in terms of the matches, whenever the month pattern finds nothing
    and the first fallback yields no period. *)
Theorem servicePeriod_rules (pageText : string) :
  (forall pre abbr gap year post name,
     monthMarker pageText pre abbr gap year post ->
     (forall n, monthMarkerAt pageText n -> (String.length pre <= n)%nat) ->
     (Js.toUpperCase abbr, name) ∈ abbreviations ->
     extractServicePeriodFromPage pageText = name +:+ " " +:+ year) /\
  (forall pre abbr gap post,
     monthMarker pageText pre abbr gap "2024" post ->
     (forall n, monthMarkerAt pageText n -> (String.length pre <= n)%nat) ->
     Js.toUpperCase abbr = "JAN" ->
     extractServicePeriodFromPage pageText = "January 2024") /\
  extractServicePeriodFromPage "JAN 2024" = "January 2024" /\
  (forall pre label gap post,
     pageText = pre +:+ label +:+ gap +:+ "02/2024" +:+ post ->
     Js.toLowerCase label = "service provision period:" ->
     every Js.is_space gap = true ->
     (forall n, ~ monthMarkerAt pageText n) ->
     (forall pre' month separator year post',
        tokenIn pageText pre' month separator year post' ->
        (month = "02" \/ month = "2") /\ year = "2024") ->
     extractServicePeriodFromPage pageText = "February 2024") /\
  extractServicePeriodFromPage "Service Provision Period: 02/2024"
  = "February 2024" /\
  (forall pre month separator year post,
     (forall n, ~ monthMarkerAt pageText n) ->
     (forall month' separator' year',
        labelledToken pageText month' separator' year' ->
        ~ (1 <= parseInt month' <= 12)%nat) ->
     bareToken pageText pre month separator year post ->
     (forall n, bareTokenAt pageText n -> (String.length pre <= n)%nat) ->
     ((1 <= parseInt month <= 12)%nat ->
      exists name, nameOfMonth (parseInt month) = Some name /\
        extractServicePeriodFromPage pageText = name +:+ " " +:+ year) /\
     (~ (1 <= parseInt month <= 12)%nat ->
      extractServicePeriodFromPage pageText = "Unknown Period")) /\
  ((forall n, ~ monthMarkerAt pageText n) ->
   (forall month separator year,
      labelledToken pageText month separator year ->
      ~ (1 <= parseInt month <= 12)%nat) ->
   (forall n, ~ bareTokenAt pageText n) ->
   extractServicePeriodFromPage pageText = "Unknown Period") /\
  (exec monthPattern pageText = None <->
   forall n, ~ monthMarkerAt pageText n) /\
  (exec fallbackPattern1 pageText = None <->
   forall month separator year,
     ~ labelledToken pageText month separator year) /\
  (exec fallbackPattern2 pageText = None <->
   forall n, ~ bareTokenAt pageText n) /\
  (exec monthPattern pageText = None ->
   fallbackPeriod pageText fallbackPattern1 = None ->
   forall m, exec fallbackPattern2 pageText = Some m ->
     let month := parseInt (group_str 1 pageText m) in
     ((1 <= month <= 12)%nat ->
      exists name, monthNames !! month = Some name /\
        extractServicePeriodFromPage pageText
        = name +:+ " " +:+ group_str 2 pageText m) /\
     (~ (1 <= month <= 12)%nat ->
      extractServicePeriodFromPage pageText = "Unknown Period")) /\
  (exec monthPattern pageText = None ->
   (forall pattern, pattern ∈ fallbackPatterns ->
      fallbackPeriod pageText pattern = None) ->
   extractServicePeriodFromPage pageText = "Unknown Period").
Proof.
  assert (forall pre abbr gap year post name,
     monthMarker pageText pre abbr gap year post ->
     (forall n, monthMarkerAt pageText n -> (String.length pre <= n)%nat) ->
     (Js.toUpperCase abbr, name) ∈ abbreviations ->
     extractServicePeriodFromPage pageText = name +:+ " " +:+ year) as Hrule1.
  { intros pre abbr gap year post name Hmarker Hfirst Hname.
    destruct (exec_monthPattern_first _ _ _ _ _ _ Hmarker Hfirst)
      as (m & Hm & Habbr & Hyear).
    unfold extractServicePeriodFromPage. rewrite Hm. cbv zeta.
    by rewrite Habbr, Hyear, (abbreviation_name abbr name Hname). }
  split; [exact Hrule1|]. split.
  { intros pre abbr gap post Hmarker Hfirst Habbr.
    apply (Hrule1 pre abbr gap "2024" post "January" Hmarker Hfirst).
    rewrite Habbr. unfold abbreviations. rewrite !elem_of_cons. tauto. }
  split; [by vm_compute|].
  split; [|split; [by vm_compute|split; [|split; [|split; [|split; [|split;
    [|split]]]]]]].
  - intros pre label gap post Htext Hlabel Hgap Hmarkers Honly.
    rewrite extractServicePeriodFromPage_rules.
    rewrite (exec_monthPattern_none pageText Hmarkers).
    assert (labelledToken pageText "02" "/" "2024") as Hlabelled.
    { rewrite Htext. change ("02/2024" +:+ post)
        with ("02" +:+ String "/" ("2024" +:+ post)).
      apply servicePeriodLabel; [done|done|].
      split; [split; [simpl; lia|done]|by split]. }
    apply labelledToken_test, test_is_Some in Hlabelled as [m Hm].
    destruct (fallbackPattern1_sound pageText m Hm) as [separator Hfound].
    destruct (labelledToken_tokenIn _ _ _ _ Hfound) as (pre' & post' & Htoken).
    destruct (Honly _ _ _ _ _ Htoken) as [Hmonth Hyear].
    destruct (fallbackPeriod_match pageText _ m Hm) as [Hin _].
    destruct Hin as (name & Hname & ->).
    { destruct Hmonth as [Hmonth|Hmonth]; rewrite Hmonth;
        [change (parseInt "02") with 2%nat|change (parseInt "2") with 2%nat];
        lia. }
    rewrite Hyear.
    destruct Hmonth as [Hmonth|Hmonth]; rewrite Hmonth in Hname;
      vm_compute in Hname; by injection Hname as <-.
  - intros pre month separator year post Hmarkers Hlabels Htoken Hfirst.
    rewrite extractServicePeriodFromPage_rules.
    rewrite (exec_monthPattern_none pageText Hmarkers).
    rewrite (fallbackPeriod_unlabelled pageText Hlabels).
    destruct (exec_fallbackPattern2_first _ _ _ _ _ _ Htoken Hfirst)
      as (m & Hm & Hmonth & Hyear).
    destruct (fallbackPeriod_match pageText _ m Hm) as [Hin Hout].
    rewrite Hmonth, Hyear in Hin. rewrite Hmonth in Hout. split.
    + intros Hrange. destruct (Hin Hrange) as (name & Hname & ->).
      by exists name.
    + intros Hrange. by rewrite (Hout Hrange).
  - intros Hmarkers Hlabels Htokens.
    rewrite extractServicePeriodFromPage_rules.
    rewrite (exec_monthPattern_none pageText Hmarkers).
    rewrite (fallbackPeriod_unlabelled pageText Hlabels).
    unfold fallbackPeriod.
    by rewrite (exec_fallbackPattern2_none pageText Htokens).
  - split; [|apply exec_monthPattern_none].
    intros Hnone n Hn%monthMarkerAt_test%test_is_Some.
    rewrite Hnone in Hn. by destruct Hn.
  - split.
    + intros Hnone month separator year Hl%labelledToken_test%test_is_Some.
      rewrite Hnone in Hl. by destruct Hl.
    + intros Hnone. destruct (exec fallbackPattern1 pageText) as [m|] eqn:Hm;
        [|done].
      destruct (fallbackPattern1_sound pageText m Hm) as [separator Hl].
      by destruct (Hnone _ _ _ Hl).
  - split; [|apply exec_fallbackPattern2_none].
    intros Hnone n Hn%bareTokenAt_test%test_is_Some.
    rewrite Hnone in Hn. by destruct Hn.
  - rewrite extractServicePeriodFromPage_rules.
    intros -> -> m Hm month. split.
    + intros Hmonth.
      destruct (lookup_lt_is_Some_2 monthNames month) as [name Hname];
        [simpl; lia|].
      exists name. split; [done|].
      assert (fallbackPeriod pageText fallbackPattern2
              = Some (name +:+ " " +:+ group_str 2 pageText m)) as ->; [|done].
      apply fallbackPeriod_Some. by exists m, name.
    + intros Hmonth.
      destruct (fallbackPeriod pageText fallbackPattern2) as [s|] eqn:E; [|done].
      apply fallbackPeriod_Some in E as (m' & name & Hm' & Hrange & _).
      rewrite Hm in Hm'. injection Hm' as <-. by destruct Hmonth.
  - rewrite extractServicePeriodFromPage_rules. intros -> Hnone.
    rewrite (Hnone fallbackPattern1), (Hnone fallbackPattern2); [done|..];
      unfold fallbackPatterns; rewrite !elem_of_cons; auto.
Qed.

(** *** Texts without markers, and the place of a marker *)

Lemma no_monthMarker text :
  test monthPattern text = false -> forall n, ~ monthMarkerAt text n.
Proof. intros Htest n Hn%monthMarkerAt_test. congruence. Qed.

Lemma no_labelledToken text :
  test fallbackPattern1 text = false ->
  forall month separator year,
    labelledToken text month separator year ->
    ~ (1 <= parseInt month <= 12)%nat.
Proof. intros Htest month separator year Hl%labelledToken_test. congruence. Qed.

Lemma no_bareToken text :
  test fallbackPattern2 text = false -> forall n, ~ bareTokenAt text n.
Proof. intros Htest n Hn%bareTokenAt_test. congruence. Qed.

(** A month marker at the index [n] makes the month pattern match
    there. *)
Lemma monthMarkerAt_run text n :
  monthMarkerAt text n ->
  is_Some (run monthPattern Some
             (MState n (last_char (Js.take n text) None) (Js.drop n text) [])).
Proof.
  intros (pre & abbr & gap & year & post & Hmarker & <-).
  pose proof Hmarker as (-> & _).
  rewrite take_app_length, drop_app_length.
  by apply (monthPattern_complete _ _ _ _ _ _ Hmarker).
Qed.

(** In a text with one separator, a numeric token stands around it. *)
Lemma token_at_separator a c b pre month separator year post :
  every (fun x => negb (mem x "./")) a = true ->
  every (fun x => negb (mem x "./")) b = true ->
  tokenIn (a +:+ String c b) pre month separator year post ->
  pre +:+ month = a /\ year +:+ post = b.
Proof.
  intros Ha Hb [Heq (_ & Hsep & _)].
  rewrite <- app_assoc in Heq. symmetry in Heq.
  apply app_eq_app in Heq as [(m & Heq1 & Heq2)|(m & Heq1 & Heq2)].
  - destruct m as [|x m].
    + rewrite app_nil_r in Heq1. rewrite app_nil_l in Heq2.
      by injection Heq2 as _ ->.
    + rewrite app_cons in Heq2. injection Heq2 as _ ->.
      rewrite every_app in Hb. apply andb_prop in Hb as [_ Hb].
      cbn [every] in Hb. by rewrite Hsep in Hb.
  - destruct m as [|x m].
    + rewrite app_nil_r in Heq1. rewrite app_nil_l in Heq2.
      by injection Heq2 as _ ->.
    + rewrite app_cons in Heq2. injection Heq2 as -> _.
      rewrite Heq1, every_app in Ha. apply andb_prop in Ha as [_ Ha].
      cbn [every] in Ha. by rewrite Hsep in Ha.
Qed.

(** On this text every numeric token reads 02/2024. *)
Lemma labelled_02_2024_only pre month separator year post :
  tokenIn "Service Provision Period: 02/2024" pre month separator year post ->
  (month = "02" \/ month = "2") /\ year = "2024".
Proof.
  intros Htoken. pose proof Htoken as [_ ([Hlen _] & _ & [Hylen _])].
  destruct (token_at_separator "Service Provision Period: 02" "/" "2024"
              pre month separator year post eq_refl eq_refl Htoken)
    as [Hpre Hpost].
  split.
  - destruct (decide (String.length month = 1%nat)) as [H1|H1].
    + right.
      by destruct (app_inj_length pre month "Service Provision Period: 0" "2"
                     Hpre H1).
    + left.
      destruct (app_inj_length pre month "Service Provision Period: " "02"
                  Hpre); [simpl; lia|done].
  - by destruct (prefix_length_eq year post "2024" "" Hpost Hylen).
Qed.

Lemma servicePeriod_rules_witness :
  (monthMarker "Period: jan 2024, FEB 2023" "Period: " "jan" " " "2024"
               ", FEB 2023" /\
   (forall n, monthMarkerAt "Period: jan 2024, FEB 2023" n ->
      (String.length "Period: " <= n)%nat) /\
   extractServicePeriodFromPage "Period: jan 2024, FEB 2023" = "January 2024") /\
  ((forall n, ~ monthMarkerAt "Service Provision Period: 02/2024" n) /\
   extractServicePeriodFromPage "Service Provision Period: 02/2024"
   = "February 2024") /\
  (bareToken "13/2024 then 02/2025" "" "13" "/" "2024" " then 02/2025" /\
   ~ (1 <= parseInt "13" <= 12)%nat /\
   extractServicePeriodFromPage "13/2024 then 02/2025" = "Unknown Period") /\
  (bareToken "3.2025" "" "3" "." "2025" "" /\
   (1 <= parseInt "3" <= 12)%nat /\
   extractServicePeriodFromPage "3.2025" = "March 2025") /\
  ((forall n, ~ monthMarkerAt "no period here" n) /\
   (forall n, ~ bareTokenAt "no period here" n) /\
   extractServicePeriodFromPage "no period here" = "Unknown Period").
Proof.
  split; [|split; [|split; [|split]]].
  - assert (monthMarker "Period: jan 2024, FEB 2023" "Period: " "jan" " "
                        "2024" ", FEB 2023") as Hmarker.
    { split; [reflexivity|]. split; [apply elem_of_cons; by left|].
      split; [done|]. split; [reflexivity|]. split; [by split|].
      split; reflexivity. }
    assert (forall n, monthMarkerAt "Period: jan 2024, FEB 2023" n ->
              (String.length "Period: " <= n)%nat) as Hfirst.
    { intros n Hn. cbn [String.length].
      destruct (Nat.le_gt_cases 8 n) as [|Hlt]; [done|].
      apply monthMarkerAt_run in Hn. exfalso.
      do 8 (destruct n as [|n];
            [vm_compute in Hn; by destruct Hn as [? [=]]|]).
      lia. }
    split; [exact Hmarker|]. split; [exact Hfirst|].
    exact (proj1 (proj2 (servicePeriod_rules "Period: jan 2024, FEB 2023"))
             "Period: " "jan" " " ", FEB 2023" Hmarker Hfirst eq_refl).
  - assert (forall n, ~ monthMarkerAt "Service Provision Period: 02/2024" n)
      as Hmarkers by (by apply no_monthMarker).
    split; [exact Hmarkers|].
    exact (proj1 (proj2 (proj2 (proj2
             (servicePeriod_rules "Service Provision Period: 02/2024"))))
             "" "Service Provision Period:" " " "" eq_refl eq_refl eq_refl
             Hmarkers labelled_02_2024_only).
  - assert (bareToken "13/2024 then 02/2025" "" "13" "/" "2024" " then 02/2025")
      as Htoken.
    { split; [split; [reflexivity|]|split; reflexivity].
      split; [split; [simpl; lia|reflexivity]|by split]. }
    assert (~ (1 <= parseInt "13" <= 12)%nat) as Hrange
      by (change (parseInt "13") with 13%nat; lia).
    split; [exact Htoken|]. split; [exact Hrange|].
    refine (proj2 (proj1 (proj2 (proj2 (proj2 (proj2 (proj2
              (servicePeriod_rules "13/2024 then 02/2025"))))))
              "" "13" "/"%char "2024" " then 02/2025" _ _ Htoken _) Hrange).
    + by apply no_monthMarker.
    + by apply no_labelledToken.
    + intros n _. simpl. lia.
  - assert (bareToken "3.2025" "" "3" "." "2025" "") as Htoken.
    { split; [split; [reflexivity|]|split; reflexivity].
      split; [split; [simpl; lia|reflexivity]|by split]. }
    assert ((1 <= parseInt "3" <= 12)%nat) as Hrange
      by (change (parseInt "3") with 3%nat; lia).
    split; [exact Htoken|]. split; [exact Hrange|].
    assert (forall n, ~ monthMarkerAt "3.2025" n) as Hmarkers
      by (by apply no_monthMarker).
    assert (forall month separator year,
              labelledToken "3.2025" month separator year ->
              ~ (1 <= parseInt month <= 12)%nat) as Hlabels
      by (by apply no_labelledToken).
    assert (forall n, bareTokenAt "3.2025" n -> (String.length "" <= n)%nat)
      as Hfirst by (intros n _; simpl; lia).
    destruct (proj1 (proj1 (proj2 (proj2 (proj2 (proj2 (proj2
                (servicePeriod_rules "3.2025"))))))
                "" "3" "."%char "2025" "" Hmarkers Hlabels Htoken Hfirst) Hrange)
      as (name & Hname & Hperiod).
    rewrite Hperiod. change (parseInt "3") with 3%nat in Hname.
    vm_compute in Hname. by injection Hname as <-.
  - assert (forall n, ~ monthMarkerAt "no period here" n) as Hmarkers
      by (by apply no_monthMarker).
    assert (forall n, ~ bareTokenAt "no period here" n) as Htokens
      by (by apply no_bareToken).
    split; [exact Hmarkers|]. split; [exact Htokens|].
    apply (proj1 (proj2 (proj2 (proj2 (proj2 (proj2 (proj2
             (servicePeriod_rules "no period here")))))))); [done| |done].
    by apply no_labelledToken.
Defined.
